(** * Video Frame Snatcher: frame sampler and paginated review

    A shallow embedding of [video_frame_snatcher.pyw]:

    - [FrameExtractor.run], the sampling loop, as a function from the
      opened capture (reported rate, reported frame count, the frames
      it decodes) to the trace of effects the loop performs and its
      outcome;
    - [VideoFrameSnatcher.process_video], the validation in front of it;
    - [ReviewDialog], the pager over the extracted images, as a record
      and one state transformer per slot, and what a press on one of
      its thumbnails opens;
    - [VideoFrameSnatcher.review_output] and [find_old_output], the
      listing of a folder the pager is opened on;
    - [VideoFrameSnatcher.browse_video], [update_eta] and
      [estimate_frame_extraction_eta], the labels the window shows for
      a video and the estimate among them.

    Python's [float] is IEEE 754 binary64, which is what Rocq's
    primitive [float] is: rates, quotients and percentages are computed
    here with the same operations and the same rounding as in the
    program.  Python's [int] is [Z]. *)

From Stdlib Require Import ZArith List Bool String Ascii Lia Sorted.
From Stdlib Require Import Permutation.
From Stdlib Require Import Floats DecimalString DecimalNat DecimalZ.
From Stdlib Require Import Reals Lra Psatz.
Import ListNotations.

Open Scope Z_scope.

(** ** Exceptions and results *)

Inductive exn : Set :=
| ValueError
| OverflowError
| IndexError
| CvError.

Inductive result (A : Type) : Type :=
| Ok (a : A)
| Raise (e : exn).

Arguments Ok {A} a.
Arguments Raise {A} e.

Definition bind {A B : Type} (r : result A) (k : A -> result B) : result B :=
  match r with
  | Ok a => k a
  | Raise e => Raise e
  end.

Definition is_ok {A : Type} (r : result A) : bool :=
  match r with
  | Ok _ => true
  | Raise _ => false
  end.

Declare Scope py_scope.
Delimit Scope py_scope with py.
Notation "x <- c1 ;; c2" := (bind c1 (fun x => c2))
  (at level 61, c1 at next level, right associativity) : py_scope.
Open Scope py_scope.

(** ** Python numbers *)

Module Py.

(** [mantissa * 2^e] cut to an integer; [Z.shiftl] with a negative
    amount shifts right. *)
Definition ldexpZ (m e : Z) : Z := Z.shiftl m e.

(** [int(x)] on a float: truncation toward zero; [ValueError] on a NaN,
    [OverflowError] on an infinity. *)
Definition int_of_SF (x : spec_float) : result Z :=
  match x with
  | S754_zero _ => Ok 0
  | S754_infinity _ => Raise OverflowError
  | S754_nan => Raise ValueError
  | S754_finite s m e => Ok (cond_Zopp s (ldexpZ (Zpos m) e))
  end.

Definition int (x : float) : result Z := int_of_SF (Prim2SF x).

(** [math.floor(x)]: the largest integer not above [x]; the same two
    failures. *)
Definition floor_of_SF (x : spec_float) : result Z :=
  match x with
  | S754_zero _ => Ok 0
  | S754_infinity _ => Raise OverflowError
  | S754_nan => Raise ValueError
  | S754_finite s m e => Ok (ldexpZ (cond_Zopp s (Zpos m)) e)
  end.

Definition floor (x : float) : result Z := floor_of_SF (Prim2SF x).

(** [float(n)] for an [int] [n]: the nearest binary64 value.  (Beyond
    the range of binary64 this is an infinity, where Python raises
    [OverflowError]; no list length or frame index comes near.) *)
Definition float_of_int (n : Z) : float :=
  SF2Prim (binary_normalize prec emax n 0 false).

(** [a / b] on two [int]s is the correctly rounded quotient.  For
    operands that binary64 holds exactly (every integer up to [2^53],
    hence every list length and frame index) that is the binary64
    quotient of the converted operands, which is how it is computed
    here.  The program only divides by a positive number. *)
Definition truediv (a b : Z) : float :=
  (float_of_int a / float_of_int b)%float.

(** [n * x] with an [int] and a [float]. *)
Definition mul_int_float (n : Z) (x : float) : float :=
  (float_of_int n * x)%float.

(** The literal [0.05]: the binary64 value nearest to one twentieth. *)
Definition lit_0_05 : float := 0x1.999999999999ap-5%float.

Definition lit_100 : float := 100%float.

(** [str(n)] for an [int]. *)
Definition str (n : Z) : string := NilZero.string_of_int (Z.to_int n).

(** [l[i]]: a negative index counts from the end; outside
    [-len(l) .. len(l) - 1] it raises [IndexError]. *)
Definition getitem {A : Type} (l : list A) (i : Z) : result A :=
  let n := Z.of_nat (List.length l) in
  let j := if i <? 0 then i + n else i in
  if (j <? 0) || (n <=? j) then Raise IndexError
  else match nth_error l (Z.to_nat j) with
       | Some a => Ok a
       | None => Raise IndexError
       end.

End Py.

(** ** The review dialog ([ReviewDialog]) *)

Module Review.

(** The fields the slots read and write.  [image_grid] lists the files
    whose thumbnails sit in the grid, column 0 first; [position_label]
    and [position_progress] hold the last text and the last value the
    dialog passed to the label and to the progress bar. *)
Record ReviewDialog : Type := mkDialog {
  image_files : list string;
  current_index : Z;
  image_grid : list string;
  position_label : string;
  position_progress : option Z
}.

Definition set_index (d : ReviewDialog) (c : Z) : ReviewDialog :=
  mkDialog (image_files d) c (image_grid d) (position_label d)
           (position_progress d).

Definition set_grid (d : ReviewDialog) (g : list string) : ReviewDialog :=
  mkDialog (image_files d) (current_index d) g (position_label d)
           (position_progress d).

Definition set_label (d : ReviewDialog) (s : string) : ReviewDialog :=
  mkDialog (image_files d) (current_index d) (image_grid d) s
           (position_progress d).

Definition set_progress (d : ReviewDialog) (v : Z) : ReviewDialog :=
  mkDialog (image_files d) (current_index d) (image_grid d)
           (position_label d) (Some v).

(** [len(self.image_files)] *)
Definition len (d : ReviewDialog) : Z := Z.of_nat (List.length (image_files d)).

(** A slot: the dialog after it, and whether it returned or raised.  A
    slot that raises keeps the assignments it made before. *)
Definition slot : Type := ReviewDialog -> ReviewDialog * result unit.

(** The text [f"Viewing frames {start}-{end} of {n}"]. *)
Definition viewing_text (start end_ n : Z) : string :=
  ("Viewing frames " ++ Py.str start ++ "-" ++ Py.str end_
     ++ " of " ++ Py.str n)%string.

(** [int((self.current_index / max(1, len(self.image_files))) * 100)] *)
Definition percent (c n : Z) : result Z :=
  Py.int (Py.truediv c (Z.max 1 n) * Py.lit_100)%float.

Definition update_position_info : slot := fun d =>
  let start := current_index d + 1 in
  let end_ := Z.min (current_index d + 10) (len d) in
  let d := set_label d (viewing_text start end_ (len d)) in
  match percent (current_index d) (len d) with
  | Ok progress => (set_progress d progress, Ok tt)
  | Raise e => (d, Raise e)
  end.

(** [range(10)] *)
Definition range10 : list Z := [0; 1; 2; 3; 4; 5; 6; 7; 8; 9].

(** The [for i in range(10)] loop of [show_images]: [break] at the end
    of the list, [IndexError] from the subscript otherwise possible. *)
Fixpoint show_loop (files : list string) (c : Z) (ixs : list Z)
    (grid : list string) : list string * result unit :=
  match ixs with
  | [] => (grid, Ok tt)
  | i :: rest =>
      let idx := c + i in
      if Z.of_nat (List.length files) <=? idx then (grid, Ok tt)
      else match Py.getitem files idx with
           | Ok f => show_loop files c rest (grid ++ [f])
           | Raise e => (grid, Raise e)
           end
  end.

Definition show_images : slot := fun d =>
  let d := set_grid d [] in
  match show_loop (image_files d) (current_index d) range10 [] with
  | (g, Ok _) => update_position_info (set_grid d g)
  | (g, Raise e) => (set_grid d g, Raise e)
  end.

Definition show_next : slot := fun d =>
  if current_index d + 10 <? len d
  then show_images (set_index d (current_index d + 10))
  else (d, Ok tt).

Definition show_previous : slot := fun d =>
  if 0 <=? current_index d - 10
  then show_images (set_index d (current_index d - 10))
  else (d, Ok tt).

(** [max(1, int(len(self.image_files) * 0.05))] *)
Definition jump_amount (n : Z) : result Z :=
  k <- Py.int (Py.mul_int_float n Py.lit_0_05) ;; Ok (Z.max 1 k).

Definition jump_forward : slot := fun d =>
  match jump_amount (len d) with
  | Ok amount =>
      show_images
        (set_index d (Z.min (current_index d + amount) (len d - 10)))
  | Raise e => (d, Raise e)
  end.

Definition jump_back : slot := fun d =>
  match jump_amount (len d) with
  | Ok amount =>
      show_images (set_index d (Z.max (current_index d - amount) 0))
  | Raise e => (d, Raise e)
  end.

Definition jump_to_start : slot := fun d =>
  show_images (set_index d 0).

Definition jump_to_end : slot := fun d =>
  show_images (set_index d (Z.max 0 (len d - 10))).

(** [ReviewDialog.__init__]: cursor 0, then the first page. *)
Definition init (files : list string) : ReviewDialog * result unit :=
  show_images (mkDialog files 0 [] EmptyString None).

(** The six navigation buttons. *)
Inductive nav : Set :=
| Next | Previous | JumpForward | JumpBack | JumpToStart | JumpToEnd.

Definition click (b : nav) : slot :=
  match b with
  | Next => show_next
  | Previous => show_previous
  | JumpForward => jump_forward
  | JumpBack => jump_back
  | JumpToStart => jump_to_start
  | JumpToEnd => jump_to_end
  end.

(** A session: the dialogs after each click, in order.  Qt reports an
    exception raised in a slot and carries on with the dialog as the
    slot left it. *)
Fixpoint session (d : ReviewDialog) (bs : list nav) : list ReviewDialog :=
  match bs with
  | [] => []
  | b :: rest => let d' := fst (click b d) in d' :: session d' rest
  end.

(** The cursors a session visits from a fresh dialog. *)
Definition cursors (files : list string) (bs : list nav) : list Z :=
  map current_index (session (fst (init files)) bs).

End Review.

(** ** The frame sampler ([FrameExtractor]) *)

Module Sampler.

(** [os.path.join(a, b)] for a relative [b], as [posixpath] does it
    ([ntpath] has a backslash where this has a slash). *)
Definition ends_with_slash (a : string) : bool :=
  match rev (list_ascii_of_string a) with
  | c :: _ => Ascii.eqb c "/"%char
  | [] => false
  end.

Definition os_path_join (a b : string) : string :=
  match a with
  | EmptyString => b
  | _ => if ends_with_slash a then (a ++ b)%string
         else (a ++ "/" ++ b)%string
  end.

(** [n] zeros. *)
Fixpoint zeros (n : nat) : string :=
  match n with
  | O => EmptyString
  | S n' => String "0"%char (zeros n')
  end.

(** [f"{count:04}"]: the decimal digits of [count], filled with zeros
    on the left up to four characters. *)
Definition format_04 (count : nat) : string :=
  let digits := NilEmpty.string_of_uint (Nat.to_uint count) in
  (zeros (4 - String.length digits) ++ digits)%string.

(** [f'snapshot_{count:04}.jpg'] *)
Definition snapshot_name (count : nat) : string :=
  ("snapshot_" ++ format_04 count ++ ".jpg")%string.

(** [FrameExtractor.__init__]: the three fields of a job. *)
Record FrameExtractor : Type := mkExtractor {
  video_path : string;
  output_dir : string;
  fps : float
}.

(** The interval between two kept frames. *)
Definition interval_of (actual_fps target_fps : float) : result Z :=
  if ((actual_fps <=? 0) || (target_fps <=? 0))%float then Ok 1
  else k <- Py.int (actual_fps / target_fps)%float ;; Ok (Z.max 1 k).

(** [current_frame % interval == 0] *)
Definition selected (interval current_frame : Z) : bool :=
  current_frame mod interval =? 0.

(** [int(current_frame / total_frames * 100)] *)
Definition progress_value (current_frame total_frames : Z) : result Z :=
  Py.int (Py.truediv current_frame total_frames * Py.lit_100)%float.

(** [progress = Signal(int)]: the signal carries a C [int], so a value
    outside [-2^31 .. 2^31 - 1] reaches the connected slot cut to 32
    bits, in two's complement. *)
Definition c_int (v : Z) : Z := (v + 2 ^ 31) mod 2 ^ 32 - 2 ^ 31.

Arguments os_path_join : simpl never.
Arguments snapshot_name : simpl never.
Arguments selected : simpl never.
Arguments progress_value : simpl never.
Arguments c_int : simpl never.
Arguments interval_of : simpl never.

Section Run.

(** A decoded frame, whatever an image is. *)
Context {Image : Type}.

(** What [cv2.VideoCapture(path)] gives the loop: the rate it reports,
    the frame count it reports and, for each [read()] that returns a
    frame, the frame and the position [CAP_PROP_POS_FRAMES] reports
    after it.  The count and the positions are whole numbers, held here
    as the integers [int(...)] makes of them.  The [read()] after the
    last frame returns [ret = False]. *)
Record Capture : Type := mkCapture {
  cap_fps : float;
  cap_frame_count : Z;
  cap_frames : list (Image * Z)
}.

(** What the run does to the outside, in order: a call of
    [cv2.imwrite], a value delivered through the [progress] signal, the
    call [video.release()], and the call [self.finished.emit()] that is
    the last line of [run]. *)
Inductive event : Type :=
| Imwrite (file : string) (frame : Image)
| ProgressEmit (value : Z)
| Release
| FinishedEmit.

(** An action: the events it performed and how it ended. *)
Definition act (A : Type) : Type := list event * result A.

Definition ret {A : Type} (a : A) : act A := ([], Ok a).

Definition emit (ev : event) : act unit := ([ev], Ok tt).

Definition lift {A : Type} (r : result A) : act A := ([], r).

Definition and_then {A B : Type} (m : act A) (k : A -> act B) : act B :=
  match m with
  | (evs, Ok a) => let (evs', r) := k a in (evs ++ evs', r)
  | (evs, Raise e) => (evs, Raise e)
  end.

Notation "x <~ c1 ;; c2" := (and_then c1 (fun x => c2))
  (at level 61, c1 at next level, right associativity).

(** [cv2.imwrite]: it returns a flag the run ignores, or raises. *)
Variable imwrite : string -> Image -> result bool.

Definition cv2_imwrite (file : string) (frame : Image) : act bool :=
  ([Imwrite file frame], imwrite file frame).

(** The [while True] loop, one turn per frame the capture decodes;
    [count] is the number of calls of [imwrite] so far. *)
Fixpoint read_loop (interval total_frames : Z) (dir : string)
    (frames : list (Image * Z)) (count : nat) : act unit :=
  match frames with
  | [] => ret tt
  | (frame, current_frame) :: rest =>
      count' <~ (if selected interval current_frame
                 then _ <~ cv2_imwrite
                             (os_path_join dir (snapshot_name count)) frame ;;
                      ret (S count)
                 else ret count) ;;
      _ <~ (if 0 <? total_frames
            then v <~ lift (progress_value current_frame total_frames) ;;
                 emit (ProgressEmit (c_int v))
            else ret tt) ;;
      read_loop interval total_frames dir rest count'
  end.

(** [FrameExtractor.run] *)
Definition run (self : FrameExtractor) (video : Capture) : act unit :=
  interval <~ lift (interval_of (cap_fps video) (fps self)) ;;
  _ <~ read_loop interval (cap_frame_count video) (output_dir self)
         (cap_frames video) 0 ;;
  _ <~ emit Release ;;
  emit FinishedEmit.

(** Readings of a trace.  [written_files] are the files the run asked
    [cv2.imwrite] to write, call after call; [saved_files] are those of
    them that came to exist, the calls on which [cv2.imwrite] returned
    [True]. *)
Definition written_files (evs : list event) : list string :=
  flat_map (fun ev => match ev with Imwrite f _ => [f] | _ => [] end) evs.

Definition saved_files (evs : list event) : list string :=
  flat_map (fun ev => match ev with
                      | Imwrite f x =>
                          match imwrite f x with
                          | Ok true => [f]
                          | _ => []
                          end
                      | _ => []
                      end) evs.

Definition written_frames (evs : list event) : list Image :=
  flat_map (fun ev => match ev with Imwrite _ x => [x] | _ => [] end) evs.

Definition progress_values (evs : list event) : list Z :=
  flat_map (fun ev => match ev with ProgressEmit v => [v] | _ => [] end) evs.

Definition releases (evs : list event) : nat :=
  List.length (filter (fun ev => match ev with Release => true | _ => false end) evs).

Definition finishes (evs : list event) : nat :=
  List.length
    (filter (fun ev => match ev with FinishedEmit => true | _ => false end) evs).

(** The frames the rule keeps, in decode order. *)
Definition kept (interval : Z) (frames : list (Image * Z)) : list Image :=
  map fst (filter (fun fp => selected interval (snd fp)) frames).

End Run.

Arguments event : clear implicits.
Arguments act : clear implicits.

End Sampler.

(** ** The main window ([VideoFrameSnatcher]) *)

Module Snatcher.

(** What the window holds when Process is clicked: [None] is Python's
    [None] for a path not chosen yet, [fps_input] the text typed as
    seconds between snapshots. *)
Record VideoFrameSnatcher : Type := mkWindow {
  video_path : option string;
  output_dir : option string;
  fps_input : string
}.

(** What [process_video] ends in: one of its two warnings, or a started
    [FrameExtractor]. *)
Inductive launch : Type :=
| MissingInfo
| InvalidValue
| Started (job : Sampler.FrameExtractor).

(** Truth value of a string: the empty one is false. *)
Definition nonempty (s : string) : bool :=
  match s with
  | EmptyString => false
  | _ => true
  end.

Section Caller.

(** Python's [float(text)], as given. *)
Variable py_float : string -> result float.

(** [all([self.video_path, self.output_dir, self.fps_input.text()])],
    then [float] of the text under [try], then the extractor. *)
Definition process_video (self : VideoFrameSnatcher) : launch :=
  match video_path self, output_dir self with
  | Some v, Some o =>
      if negb (nonempty v && nonempty o && nonempty (fps_input self))
      then MissingInfo
      else match py_float (fps_input self) with
           | Ok seconds_between_snapshots =>
               let fps := if (0 <? seconds_between_snapshots)%float
                          then (1 / seconds_between_snapshots)%float
                          else 0%float in
               Started (Sampler.mkExtractor v o fps)
           | Raise _ => InvalidValue
           end
  | _, _ => MissingInfo
  end.

End Caller.

End Snatcher.

(** ** Two more built-ins: [round] and the [f] format *)

Module Builtins.

(** [a / b] for [b > 0], rounded to the nearest integer, a tie going
    to the even one. *)
Definition half_even_div (a b : Z) : Z :=
  let q := a / b in
  let r := a mod b in
  match 2 * r ?= b with
  | Lt => q
  | Gt => q + 1
  | Eq => if Z.even q then q else q + 1
  end.

(** [m * 2^e] rounded that way. *)
Definition round_half_even (m : positive) (e : Z) : Z :=
  if 0 <=? e then Z.shiftl (Zpos m) e
  else half_even_div (Zpos m) (2 ^ (- e)).

(** [round(x)] on a float: the nearest integer, a tie going to the even
    one; the failures of [int(x)]. *)
Definition round_of_SF (x : spec_float) : result Z :=
  match x with
  | S754_zero _ => Ok 0
  | S754_infinity _ => Raise OverflowError
  | S754_nan => Raise ValueError
  | S754_finite s m e => Ok (cond_Zopp s (round_half_even m e))
  end.

Definition round (x : float) : result Z := round_of_SF (Prim2SF x).

(** [f"{x:.{ndigits}f}"]: [x] in decimal with [ndigits] digits after
    the point, the exact value of [x] rounded to the nearest such
    number, a tie going to the even one.  [scaled] is that number
    counted in units of [10^-ndigits]. *)
Definition fixed_digits (ndigits : nat) (scaled : Z) : string :=
  match ndigits with
  | O => Py.str scaled
  | _ =>
      let unit := 10 ^ Z.of_nat ndigits in
      let fraction := Py.str (scaled mod unit) in
      (Py.str (scaled / unit) ++ "."
       ++ Sampler.zeros (ndigits - String.length fraction) ++ fraction)%string
  end.

Definition format_fixed_SF (ndigits : nat) (x : spec_float) : string :=
  match x with
  | S754_zero s =>
      ((if s then "-" else "") ++ fixed_digits ndigits 0)%string
  | S754_infinity s => ((if s then "-" else "") ++ "inf")%string
  | S754_nan => "nan"%string
  | S754_finite s m e =>
      ((if s then "-" else "")
       ++ fixed_digits ndigits
            (round_half_even (Z.to_pos (Zpos m * 10 ^ Z.of_nat ndigits)) e))%string
  end.

Definition format_fixed (ndigits : nat) (x : float) : string :=
  format_fixed_SF ndigits (Prim2SF x).

End Builtins.

(** ** Listing a folder for review ([review_output], [find_old_output]) *)

Module Gallery.

Definition lower_char (c : ascii) : ascii :=
  if (Ascii.leb "A" c && Ascii.leb c "Z")%bool
  then ascii_of_nat (nat_of_ascii c + 32)
  else c.

Fixpoint lower (s : string) : string :=
  match s with
  | EmptyString => EmptyString
  | String c rest => String (lower_char c) (lower rest)
  end.

Definition endswith (s suffix : string) : bool :=
  let n := String.length s in
  let k := String.length suffix in
  (k <=? n)%nat && String.eqb (substring (n - k) k s) suffix.

Definition has_image_suffix (f : string) : bool :=
  existsb (endswith (lower f)) [".jpg"; ".png"; ".jpeg"]%string.

(** [list.sort()] on strings: ascending, characters compared by their
    codes.  Two strings that compare equal are the same string, so the
    order the sort arrives at is the one of any sort; it is written
    here as a sort by insertion. *)
Fixpoint insert (x : string) (l : list string) : list string :=
  match l with
  | [] => [x]
  | y :: rest => if String.leb x y then x :: l else y :: insert x rest
  end.

Definition sort (l : list string) : list string := fold_right insert [] l.

Definition image_list (dir : string) (names : list string) : list string :=
  sort (map (Sampler.os_path_join dir) (filter has_image_suffix names)).

(** What a slot of the window ends in. *)
Inductive shown : Type :=
| Returned
| Warning (title text : string)
| ListdirRaised
| DialogRaised (e : exn)
| Exec (dlg : Review.ReviewDialog).

Section Folder.

(** [os.listdir], as given: [None] when it raises [OSError]. *)
Variable os_listdir : string -> option (list string).

(** The lines [review_output] and [find_old_output] share. *)
Definition review_folder (dir text : string) : shown :=
  match os_listdir dir with
  | None => ListdirRaised
  | Some names =>
      match image_list dir names with
      | [] => Warning "No Images" text
      | images =>
          match Review.init images with
          | (dlg, Ok _) => Exec dlg
          | (_, Raise e) => DialogRaised e
          end
      end
  end.

Definition review_output (self : Snatcher.VideoFrameSnatcher) : shown :=
  match Snatcher.output_dir self with
  | Some (String c dir) =>
      review_folder (String c dir)
        "No snapshots found in the selected output folder."
  | _ => Warning "No Output" "Please select an output folder first."
  end.

Definition find_old_output (dir : string) : shown :=
  match dir with
  | EmptyString => Returned
  | _ => review_folder dir "No snapshots found in the selected folder."
  end.

End Folder.

End Gallery.

(** ** The thumbnails of the review ([create_mouse_events]) *)

Module Thumbnail.

(** [s.rfind(c)]: the index of the last [c] in [s], or -1. *)
Fixpoint rfind (c : ascii) (s : string) : Z :=
  match s with
  | EmptyString => -1
  | String a rest =>
      let i := rfind c rest in
      if 0 <=? i then i + 1 else if Ascii.eqb a c then 0 else -1
  end.

(** [p[i:]] for [0 <= i]. *)
Definition slice_from (p : string) (i : Z) : string :=
  substring (Z.to_nat i) (String.length p - Z.to_nat i) p.

(** [os.path.basename(p)], as [posixpath] does it. *)
Definition basename (p : string) : string :=
  let i := rfind "/" p + 1 in slice_from p i.

(** What a press on a thumbnail brings up. *)
Inductive opened : Type :=
| FullImage (title image_file : string)
| Startfile (image_file : string)
| SubprocessRun (argv : list string).

Definition open_full_image (image_file : string) : opened :=
  FullImage (basename image_file) image_file.

(** [platform] is [sys.platform]. *)
Definition open_in_system (platform image_file : string) : opened :=
  if String.eqb platform "win32" then Startfile image_file
  else if String.eqb platform "darwin"
       then SubprocessRun ["open"; image_file]%string
       else SubprocessRun ["xdg-open"; image_file]%string.

(** [event.button()] *)
Inductive button : Set := LeftButton | RightButton | OtherButton.

(** [create_mouse_events(image_file)] is the handler; here, what the
    handler does with a button. *)
Definition create_mouse_events (platform image_file : string)
    (b : button) : option opened :=
  match b with
  | LeftButton => Some (open_full_image image_file)
  | RightButton => Some (open_in_system platform image_file)
  | OtherButton => None
  end.

(** The press of [b] on the thumbnail in column [i] of the grid: the
    label there carries the handler made for its file. *)
Definition press (platform : string) (d : Review.ReviewDialog) (i : nat)
    (b : button) : option opened :=
  match nth_error (Review.image_grid d) i with
  | Some image_file => create_mouse_events platform image_file b
  | None => None
  end.

End Thumbnail.

(** ** The video and its estimate ([browse_video], [update_eta]) *)

Module Window.

Import Builtins.

(** An attribute of the window: not assigned yet, [None], or a value. *)
Inductive attr (A : Type) : Type :=
| Unset
| PyNone
| Value (a : A).

Arguments Unset {A}.
Arguments PyNone {A}.
Arguments Value {A} a.

(** What [browse_video] and [update_eta] read and write.  [inputs]
    holds the two paths and the text of [fps_input]; the two labels
    hold their text. *)
Record MainWindow : Type := mkMain {
  inputs : Snatcher.VideoFrameSnatcher;
  file_size : option Z;
  video_duration : attr float;
  video_width : attr Z;
  video_height : attr Z;
  video_label : string;
  eta_label : string
}.

(** [VideoFrameSnatcher.__init__]: the three properties of the video
    are not assigned there. *)
Definition init : MainWindow :=
  mkMain (Snatcher.mkWindow None None "") None Unset Unset Unset
    "No video selected." "ETA: N/A".

Definition set_inputs (w : MainWindow) (i : Snatcher.VideoFrameSnatcher)
    : MainWindow :=
  mkMain i (file_size w) (video_duration w) (video_width w) (video_height w)
    (video_label w) (eta_label w).

Definition set_file_size (w : MainWindow) (n : Z) : MainWindow :=
  mkMain (inputs w) (Some n) (video_duration w) (video_width w)
    (video_height w) (video_label w) (eta_label w).

Definition set_properties (w : MainWindow) (duration : attr float)
    (width height : attr Z) : MainWindow :=
  mkMain (inputs w) (file_size w) duration width height
    (video_label w) (eta_label w).

Definition set_video_label (w : MainWindow) (s : string) : MainWindow :=
  mkMain (inputs w) (file_size w) (video_duration w) (video_width w)
    (video_height w) s (eta_label w).

Definition set_eta_label (w : MainWindow) (s : string) : MainWindow :=
  mkMain (inputs w) (file_size w) (video_duration w) (video_width w)
    (video_height w) (video_label w) s.

(** ** The estimate *)

(** What [estimate_frame_extraction_eta] returns: an [int], or the
    [float] [1.0] of its last line. *)
Inductive seconds : Set :=
| IntSeconds (n : Z)
| FloatOne.

Definition lit_5_5 : float := 5.5%float.
Definition lit_3_0 : float := 3%float.

(** The two sizes are parameters the body does not use. *)
Definition estimate_frame_extraction_eta
    (video_duration_seconds frame_spacing_seconds : float)
    (resolution_width resolution_height : Z) : result seconds :=
  if ((video_duration_seconds <=? 0) || (frame_spacing_seconds <=? 0))%float
  then Ok (IntSeconds 0)
  else
    let num_frames := (video_duration_seconds / frame_spacing_seconds)%float in
    let processing_time := (num_frames / lit_5_5)%float in
    let total_time := (processing_time + lit_3_0)%float in
    n <- round total_time ;;
    Ok (if 1 <? n then IntSeconds n else FloatOne).

(** The text after ["ETA: "].  On an [int], [/] is the division of
    [Py.truediv], [%] the remainder of [Z], and [int] of an [int] is
    itself; [1.0] is below 60 and [int(1.0)] is 1. *)
Definition eta_str (eta_seconds : seconds) : result string :=
  match eta_seconds with
  | FloatOne => Ok ("~" ++ Py.str 1 ++ " seconds")%string
  | IntSeconds n =>
      if n <? 60 then Ok ("~" ++ Py.str n ++ " seconds")%string
      else if n <? 3600 then
        minutes <- Py.int (Py.truediv n 60) ;;
        let seconds := n mod 60 in
        Ok ("~" ++ Py.str minutes ++ "m " ++ Py.str seconds ++ "s")%string
      else
        hours <- Py.int (Py.truediv n 3600) ;;
        minutes <- Py.int (Py.truediv (n mod 3600) 60) ;;
        Ok ("~" ++ Py.str hours ++ "h " ++ Py.str minutes ++ "m")%string
  end.

Section Environment.

(** [float(text)] and [text.strip()], as given. *)
Variable py_float : string -> result float.
Variable py_strip : string -> string.

(** The text [update_eta] leaves on the label.  Every exception raised
    on the way is caught at the end and gives the last text; reading
    an attribute that was never assigned raises [AttributeError].  A
    property counts when it is neither [None] nor zero. *)
Definition eta_text (w : MainWindow) : string :=
  let text := Snatcher.fps_input (inputs w) in
  let calculation_error := "ETA: N/A (calculation error)"%string in
  let invalid := "ETA: N/A (Invalid video properties)"%string in
  if negb (Snatcher.nonempty (py_strip text))
  then "ETA: N/A (Missing interval)"%string
  else
    match py_float text with
    | Raise _ => calculation_error
    | Ok seconds_between_snapshots =>
        if (seconds_between_snapshots <=? 0)%float
        then "ETA: N/A (Invalid interval)"%string
        else
          match video_duration w with
          | Unset => calculation_error
          | PyNone => invalid
          | Value duration =>
          if (duration =? 0)%float then invalid else
          match video_width w with
          | Unset => calculation_error
          | PyNone => invalid
          | Value width =>
          if width =? 0 then invalid else
          match video_height w with
          | Unset => calculation_error
          | PyNone => invalid
          | Value height =>
          if height =? 0 then invalid else
          match
            eta_seconds <-
              estimate_frame_extraction_eta
                duration seconds_between_snapshots width height ;;
            eta_str eta_seconds
          with
          | Ok s => ("ETA: " ++ s)%string
          | Raise _ => calculation_error
          end
          end end end
    end.

Definition update_eta (w : MainWindow) : MainWindow :=
  set_eta_label w (eta_text w).

(** ** Choosing the video *)

(** [os.path.getsize], [None] when it raises [OSError]; and what
    [cv2.VideoCapture(file)] reports: rate, frame count, width and
    height, or an exception from any of the calls. *)
Variable os_getsize : string -> option Z.
Variable cv2_properties : string -> result (float * float * float * float).

Definition size_str (file_size : Z) : string :=
  if file_size <? 1024 * 1024
  then (format_fixed 1 (Py.truediv file_size 1024) ++ " KB")%string
  else if file_size <? 1024 * 1024 * 1024
  then (format_fixed 1 (Py.truediv file_size (1024 * 1024)) ++ " MB")%string
  else (format_fixed 2 (Py.truediv file_size (1024 * 1024 * 1024))
        ++ " GB")%string.

(** The [try] block of [browse_video]: the three properties, all
    [None] when anything in it raised. *)
Definition read_properties (file : string)
    : attr float * attr Z * attr Z :=
  match
    p <- cv2_properties file ;;
    let '(fps, frame_count, width, height) := p in
    video_width <- Py.int width ;;
    video_height <- Py.int height ;;
    Ok (fps, frame_count, video_width, video_height)
  with
  | Ok (fps, frame_count, video_width, video_height) =>
      (if (fps <=? 0)%float then PyNone else Value (frame_count / fps)%float,
       Value video_width, Value video_height)
  | Raise _ => (PyNone, PyNone, PyNone)
  end.

(** How a slot ends. *)
Inductive ended : Set := Returns | Raises.

(** [file] is what the file dialog returned, empty when cancelled. *)
Definition browse_video (w : MainWindow) (file : string)
    : MainWindow * ended :=
  match file with
  | EmptyString => (w, Returns)
  | _ =>
      let i := inputs w in
      let w := set_inputs w (Snatcher.mkWindow (Some file)
                               (Snatcher.output_dir i)
                               (Snatcher.fps_input i)) in
      match os_getsize file with
      | None => (w, Raises)
      | Some n =>
          let w := set_file_size w n in
          let w :=
            set_video_label w
              ("Video: " ++ Thumbnail.basename file
               ++ " <span style='color: red;'>(" ++ size_str n
               ++ ")</span>")%string in
          let '(duration, width, height) := read_properties file in
          let w := set_properties w duration width height in
          (update_eta w, Returns)
      end
  end.

End Environment.

End Window.

(** * Binary64 arithmetic

    The operations of [SpecFloat] related to the reals: every one of
    them returns its exact result rounded to the nearest float, ties to
    even, so a result grows with its operands. *)

Module Binary64.

Local Open Scope R_scope.

(** ** Powers of two *)

Definition bpow (e : Z) : R := powerRZ 2 e.

Lemma bpow_pos (e : Z) : 0 < bpow e.
Proof. apply powerRZ_lt; lra. Qed.

Lemma bpow_add (a b : Z) : bpow (a + b) = bpow a * bpow b.
Proof. apply powerRZ_add; lra. Qed.

Lemma bpow_opp (a : Z) : bpow (- a) = / bpow a.
Proof. apply powerRZ_neg'. Qed.

Lemma bpow_0 : bpow 0 = 1.
Proof. reflexivity. Qed.

Lemma bpow_1 : bpow 1 = 2.
Proof. unfold bpow; simpl; lra. Qed.

Lemma bpow_m1 : bpow (-1) = / 2.
Proof. unfold bpow; simpl; f_equal; lra. Qed.

Lemma bpow_cancel (a : Z) : bpow a * bpow (- a) = 1.
Proof. rewrite bpow_opp. field. pose proof (bpow_pos a); lra. Qed.

Lemma IZR_pow2 (n : Z) : (0 <= n)%Z -> IZR (2 ^ n) = bpow n.
Proof.
  intros Hn. unfold bpow.
  rewrite <- (Z2Nat.id n Hn) at 1 2.
  rewrite <- pow_IZR, <- pow_powerRZ. reflexivity.
Qed.

Lemma bpow_gt_1 (n : Z) : (0 < n)%Z -> 1 < bpow n.
Proof.
  intros Hn. rewrite <- IZR_pow2 by lia.
  apply IZR_lt. apply Z.pow_gt_1; lia.
Qed.

Lemma bpow_lt (a b : Z) : (a < b)%Z -> bpow a < bpow b.
Proof.
  intros H. replace b with (a + (b - a))%Z by lia.
  rewrite bpow_add.
  pose proof (bpow_pos a). pose proof (bpow_gt_1 (b - a) ltac:(lia)).
  nra.
Qed.

Lemma bpow_le (a b : Z) : (a <= b)%Z -> bpow a <= bpow b.
Proof.
  intros H. destruct (Z.eq_dec a b) as [-> | N]; [lra |].
  left. apply bpow_lt. lia.
Qed.

Lemma bpow_lt_inv (a b : Z) : bpow a < bpow b -> (a < b)%Z.
Proof.
  intros H. destruct (Z_lt_le_dec a b) as [L | L]; [exact L |].
  apply bpow_le in L. lra.
Qed.

(** A number has one binade: [bpow (k - 1) <= x < bpow k] fixes [k]. *)
Lemma binade_unique (x : R) (k k' : Z) :
  bpow (k - 1) <= x < bpow k -> bpow (k' - 1) <= x < bpow k' -> k = k'.
Proof.
  intros [A B] [A' B'].
  assert (k - 1 < k')%Z by (apply bpow_lt_inv; lra).
  assert (k' - 1 < k)%Z by (apply bpow_lt_inv; lra).
  lia.
Qed.

Lemma binade_le (x y : R) (k k' : Z) :
  bpow (k - 1) <= x < bpow k -> bpow (k' - 1) <= y < bpow k' -> x <= y ->
  (k <= k')%Z.
Proof.
  intros [A B] [A' B'] L.
  assert (k - 1 < k')%Z by (apply bpow_lt_inv; lra). lia.
Qed.

(** ** Digits *)

Lemma digits2_bounds (p : positive) :
  (2 ^ (Zpos (digits2_pos p) - 1) <= Zpos p < 2 ^ Zpos (digits2_pos p))%Z.
Proof.
  induction p as [p IH | p IH |]; cbn [digits2_pos].
  - rewrite Pos2Z.inj_succ, (Pos2Z.inj_xI p).
    replace (Z.succ (Zpos (digits2_pos p)) - 1)%Z
      with (Z.succ (Zpos (digits2_pos p) - 1)) by lia.
    rewrite !Z.pow_succ_r by lia.
    generalize dependent (2 ^ (Zpos (digits2_pos p) - 1))%Z.
    generalize (2 ^ Zpos (digits2_pos p))%Z. intros; lia.
  - rewrite Pos2Z.inj_succ, (Pos2Z.inj_xO p).
    replace (Z.succ (Zpos (digits2_pos p)) - 1)%Z
      with (Z.succ (Zpos (digits2_pos p) - 1)) by lia.
    rewrite !Z.pow_succ_r by lia.
    generalize dependent (2 ^ (Zpos (digits2_pos p) - 1))%Z.
    generalize (2 ^ Zpos (digits2_pos p))%Z. intros; lia.
  - cbn. lia.
Qed.

(** ** Where a real lies between two consecutive integers *)

Definition located (x : R) (m : Z) (l : location) : Prop :=
  match l with
  | loc_Exact => x = IZR m
  | loc_Inexact Lt => IZR m < x < IZR m + / 2
  | loc_Inexact Eq => x = IZR m + / 2
  | loc_Inexact Gt => IZR m + / 2 < x < IZR m + 1
  end.

Definition located_at (x : R) (mrs : shr_record) : Prop :=
  located x (shr_m mrs) (loc_of_shr_record mrs).

Lemma located_bounds (x : R) (m : Z) (l : location) :
  located x m l -> IZR m <= x < IZR m + 1.
Proof. destruct l as [| []]; cbn; lra. Qed.

Lemma located_record (x : R) (m : Z) (l : location) :
  located x m l -> located_at x (shr_record_of_loc m l).
Proof. destruct l as [| []]; cbn; auto. Qed.

Lemma shr_1_located (x : R) (mrs : shr_record) :
  (0 <= shr_m mrs)%Z -> located_at x mrs ->
  located_at (x / 2) (shr_1 mrs) /\ (0 <= shr_m (shr_1 mrs))%Z.
Proof.
  destruct mrs as [m r s]. unfold located_at. cbn [shr_m].
  intros Hm.
  destruct m as [| p | p]; [| destruct p as [p | p |] | lia];
    destruct r, s; cbn [shr_1 orb loc_of_shr_record shr_m located];
    rewrite ?(Pos2Z.inj_xI p), ?(Pos2Z.inj_xO p), ?plus_IZR, ?mult_IZR;
    intros H; (split; [lra | lia]).
Qed.

Lemma iter_shr_1_located (n : positive) : forall (mrs : shr_record) (x : R),
  (0 <= shr_m mrs)%Z -> located_at x mrs ->
  located_at (x * bpow (- Zpos n)) (SpecFloat.iter_pos shr_1 n mrs) /\
  (0 <= shr_m (SpecFloat.iter_pos shr_1 n mrs))%Z.
Proof.
  induction n as [n IH | n IH |]; intros mrs x Hm Hx; cbn [SpecFloat.iter_pos].
  - destruct (shr_1_located x mrs Hm Hx) as [H1 M1].
    destruct (IH _ _ M1 H1) as [H2 M2].
    destruct (IH _ _ M2 H2) as [H3 M3].
    split; [| exact M3].
    replace (x * bpow (- Zpos n~1))
      with (x / 2 * bpow (- Zpos n) * bpow (- Zpos n)); [exact H3 |].
    replace (- Zpos n~1)%Z with (-1 + (- Zpos n + - Zpos n))%Z by lia.
    rewrite !bpow_add, bpow_m1. lra.
  - destruct (IH _ _ Hm Hx) as [H2 M2].
    destruct (IH _ _ M2 H2) as [H3 M3].
    split; [| exact M3].
    replace (x * bpow (- Zpos n~0))
      with (x * bpow (- Zpos n) * bpow (- Zpos n)); [exact H3 |].
    replace (- Zpos n~0)%Z with (- Zpos n + - Zpos n)%Z by lia.
    rewrite !bpow_add. lra.
  - destruct (shr_1_located x mrs Hm Hx) as [H1 M1].
    split; [| exact M1].
    change (Z.opp (Zpos 1)) with (Zneg 1). rewrite bpow_m1. exact H1.
Qed.

(** Shifting right by [n] places divides by [2^n] and keeps track of
    what falls off. *)
Lemma shr_located (x : R) (m e n : Z) (l : location) :
  (0 <= m)%Z -> located x m l -> (0 <= n)%Z ->
  snd (shr (shr_record_of_loc m l) e n) = (e + n)%Z /\
  located_at (x * bpow (- n)) (fst (shr (shr_record_of_loc m l) e n)) /\
  (0 <= shr_m (fst (shr (shr_record_of_loc m l) e n)))%Z.
Proof.
  intros Hm Hx Hn.
  assert (Hm' : (0 <= shr_m (shr_record_of_loc m l))%Z)
    by (destruct l as [| []]; exact Hm).
  apply located_record in Hx.
  destruct n as [| n | n]; [| | lia]; cbn [shr fst snd].
  - rewrite Z.add_0_r. change (Z.opp 0) with 0%Z. rewrite bpow_0, Rmult_1_r.
    auto.
  - split; [reflexivity |].
    apply iter_shr_1_located; assumption.
Qed.

(** ** Rounding to the nearest integer, ties to even *)

Definition nearest_even (x : R) (n : Z) : Prop :=
  IZR n - / 2 <= x <= IZR n + / 2 /\
  (x = IZR n - / 2 \/ x = IZR n + / 2 -> Z.even n = true).

Lemma round_nearest_even_correct (x : R) (m : Z) (l : location) :
  located x m l -> nearest_even x (round_nearest_even m l).
Proof.
  unfold nearest_even.
  destruct l as [| []]; cbn [located round_nearest_even]; intros H.
  - split; [lra | intros [E | E]; lra].
  - destruct (Z.even m) eqn:Ev.
    + split; [lra | auto].
    + rewrite plus_IZR.
      split; [lra |]. intros _.
      rewrite Z.even_add, Ev. reflexivity.
  - split; [lra | intros [E | E]; lra].
  - rewrite plus_IZR.
    split; [lra | intros [E | E]; lra].
Qed.

Lemma nearest_even_ge (x : R) (n N : Z) :
  nearest_even x n -> IZR N <= x -> (N <= n)%Z.
Proof.
  intros [[A B] _] H.
  assert (IZR N < IZR n + 1) by lra.
  rewrite <- plus_IZR in H0. apply lt_IZR in H0. lia.
Qed.

Lemma nearest_even_le (x : R) (n N : Z) :
  nearest_even x n -> x <= IZR N -> (n <= N)%Z.
Proof.
  intros [[A B] _] H.
  assert (IZR n < IZR N + 1) by lra.
  rewrite <- plus_IZR in H0. apply lt_IZR in H0. lia.
Qed.

Lemma nearest_even_mono (x y : R) (n n' : Z) :
  nearest_even x n -> nearest_even y n' -> x <= y -> (n <= n')%Z.
Proof.
  intros [[A B] T] [[A' B'] T'] L.
  destruct (Z_lt_le_dec n' n) as [C | C]; [| exact C].
  exfalso.
  assert (D : IZR n' + 1 <= IZR n).
  { rewrite <- plus_IZR. apply IZR_le. lia. }
  assert (En : Z.even n = true) by (apply T; left; lra).
  assert (En' : Z.even n' = true) by (apply T'; right; lra).
  assert (E : n = (n' + 1)%Z).
  { apply eq_IZR. rewrite plus_IZR. lra. }
  rewrite E, Z.even_add, En' in En. discriminate.
Qed.

(** ** The rounding step of every binary64 operation *)

Abbreviation fexp := (SpecFloat.fexp prec emax).

Lemma fexp_eq (k : Z) : fexp k = Z.max (k - 53) (-1074).
Proof. reflexivity. Qed.

Definition binade (x : R) (k : Z) : Prop := bpow (k - 1) <= x < bpow k.

Lemma scale_back (x : R) (e : Z) : x * bpow (- e) * bpow e = x.
Proof. rewrite Rmult_assoc, (Rmult_comm (bpow (- e))), bpow_cancel. lra. Qed.

Lemma binade_of_digits (x : R) (p : positive) (e : Z) :
  IZR (Zpos p) <= x * bpow (- e) < IZR (Zpos p) + 1 ->
  binade x (Zpos (digits2_pos p) + e).
Proof.
  intros [A B]. pose proof (digits2_bounds p) as [DA DB].
  set (d := Zpos (digits2_pos p)) in *.
  assert (Hd : (0 < d)%Z) by (unfold d; lia).
  apply IZR_le in DA. rewrite IZR_pow2 in DA by lia.
  assert (DB' : IZR (Zpos p) + 1 <= bpow d).
  { rewrite <- IZR_pow2 by lia. rewrite <- plus_IZR. apply IZR_le. lia. }
  pose proof (bpow_pos e) as He.
  unfold binade.
  replace (d + e - 1)%Z with (d - 1 + e)%Z by lia.
  rewrite !bpow_add.
  rewrite <- (scale_back x e) at 1 2.
  split.
  - apply Rmult_le_compat_r; lra.
  - apply Rmult_lt_compat_r; lra.
Qed.

Lemma digits_exponent (x : R) (m e k : Z) (l : location) :
  (0 <= m)%Z -> located (x * bpow (- e)) m l -> binade x k ->
  (e <= fexp k)%Z -> fexp (Zdigits2 m + e) = fexp k.
Proof.
  intros Hm Hx Hk He. apply located_bounds in Hx.
  destruct m as [| p | p]; [| | lia].
  - cbn [Zdigits2].
    assert (Hlt : x < bpow e).
    { rewrite <- (scale_back x e). rewrite <- (Rmult_1_l (bpow e)) at 2.
      apply Rmult_lt_compat_r; [apply bpow_pos | lra]. }
    assert (k - 1 < e)%Z by (apply bpow_lt_inv; unfold binade in Hk; lra).
    rewrite !fexp_eq in *. lia.
  - cbn [Zdigits2].
    rewrite (binade_unique x _ _ (binade_of_digits x p e Hx) Hk). reflexivity.
Qed.

Lemma shr_fexp_located (x : R) (m e k : Z) (l : location) :
  (0 <= m)%Z -> located (x * bpow (- e)) m l -> binade x k ->
  (e <= fexp k)%Z ->
  snd (shr_fexp prec emax m e l) = fexp k /\
  located_at (x * bpow (- fexp k)) (fst (shr_fexp prec emax m e l)) /\
  (0 <= shr_m (fst (shr_fexp prec emax m e l)))%Z.
Proof.
  intros Hm Hx Hk He. unfold shr_fexp.
  rewrite (digits_exponent x m e k l Hm Hx Hk He).
  destruct (shr_located (x * bpow (- e)) m e (fexp k - e) l Hm Hx ltac:(lia))
    as [E [L M]].
  split; [rewrite E; lia |]. split; [| exact M].
  replace (x * bpow (- fexp k))
    with (x * bpow (- e) * bpow (- (fexp k - e))); [exact L |].
  rewrite Rmult_assoc, <- bpow_add. f_equal. f_equal. lia.
Qed.

(** An integer already rounded needs no shift, or one shift when the
    rounding carried into a 54th bit. *)
Lemma shr_fexp_fits (p : positive) (E : Z) :
  (Zpos p < 2 ^ 53)%Z -> (-1074 <= E)%Z ->
  (2 ^ 52 <= Zpos p \/ E = -1074)%Z ->
  shr_fexp prec emax (Zpos p) E loc_Exact
  = (Build_shr_record (Zpos p) false false, E).
Proof.
  intros Hp HE Hn. unfold shr_fexp. cbn [Zdigits2 shr_record_of_loc].
  pose proof (digits2_bounds p) as [DA DB].
  set (d := Zpos (digits2_pos p)) in *.
  assert (Hd : (0 < d)%Z) by (unfold d; lia).
  assert (d <= 53)%Z.
  { assert (d - 1 < 53)%Z by (apply (Z.pow_lt_mono_r_iff 2); lia). lia. }
  assert (S : (fexp (d + E) - E <= 0)%Z).
  { rewrite fexp_eq. lia. }
  unfold shr. destruct (fexp (d + E) - E)%Z; try reflexivity. lia.
Qed.

Lemma shr_fexp_zero (E : Z) :
  (-1074 <= E)%Z ->
  shr_fexp prec emax 0 E loc_Exact = (Build_shr_record 0 false false, E).
Proof.
  intros HE. unfold shr_fexp. cbn [Zdigits2 shr_record_of_loc].
  assert (S : (fexp (0 + E) - E <= 0)%Z) by (rewrite fexp_eq; lia).
  unfold shr. destruct (fexp (0 + E) - E)%Z; try reflexivity. lia.
Qed.

Lemma shr_fexp_carry (E : Z) :
  (-1074 <= E)%Z ->
  shr_fexp prec emax (2 ^ 53) E loc_Exact
  = (Build_shr_record (2 ^ 52) false false, (E + 1)%Z).
Proof.
  intros HE. unfold shr_fexp.
  change (Zdigits2 (2 ^ 53)) with 54%Z.
  replace (fexp (54 + E) - E)%Z with 1%Z by (rewrite fexp_eq; lia).
  reflexivity.
Qed.

(** How a rounded integer [n], counted in units of [bpow E], is
    stored. *)
Definition encode (s : bool) (n E : Z) : spec_float :=
  match n with
  | Z0 => S754_zero s
  | Zpos p =>
      if (n =? 2 ^ 53)%Z
      then if (E + 1 <=? 971)%Z
           then S754_finite s (2 ^ 52)%positive (E + 1)
           else S754_infinity s
      else if (E <=? 971)%Z then S754_finite s p E else S754_infinity s
  | Zneg _ => S754_nan
  end.

(** The integer the rounding picks lies in the range of its binade. *)
Lemma rounded_range (x : R) (k n : Z) :
  binade x k -> nearest_even (x * bpow (- fexp k)) n ->
  (0 <= n)%Z /\
  ((-1074 <= k - 53)%Z -> (2 ^ 52 <= n <= 2 ^ 53)%Z) /\
  ((k - 53 < -1074)%Z -> (n <= 2 ^ 52)%Z).
Proof.
  intros [A B] Hn.
  pose proof (bpow_pos (k - 1)). pose proof (bpow_pos (- fexp k)) as HE.
  assert (0 <= n)%Z.
  { apply (nearest_even_ge _ _ 0 Hn). nra. }
  split; [assumption |]. split; intros Hk.
  - assert (Ek : fexp k = (k - 53)%Z) by (rewrite fexp_eq; lia).
    rewrite Ek in *. split.
    + apply (nearest_even_ge _ _ (2 ^ 52) Hn).
      rewrite IZR_pow2 by lia.
      assert (P : bpow 52 = bpow (k - 1) * bpow (- (k - 53))).
      { rewrite <- bpow_add. f_equal. lia. }
      rewrite P. apply Rmult_le_compat_r; lra.
    + apply (nearest_even_le _ _ (2 ^ 53) Hn).
      rewrite IZR_pow2 by lia.
      assert (P : bpow 53 = bpow k * bpow (- (k - 53))).
      { rewrite <- bpow_add. f_equal. lia. }
      rewrite P. apply Rmult_le_compat_r; lra.
  - assert (Ek : fexp k = (-1074)%Z) by (rewrite fexp_eq; lia).
    rewrite Ek in *.
    apply (nearest_even_le _ _ (2 ^ 52) Hn).
    rewrite IZR_pow2 by lia.
    apply Rle_trans with (bpow k * bpow (- -1074)).
    + apply Rmult_le_compat_r; lra.
    + rewrite <- bpow_add. apply bpow_le. lia.
Qed.

(** The rounding step. *)
Lemma binary_round_aux_correct (s : bool) (x : R) (m e k : Z) (l : location) :
  (0 <= m)%Z -> located (x * bpow (- e)) m l -> binade x k ->
  (e <= fexp k)%Z ->
  exists n : Z,
    nearest_even (x * bpow (- fexp k)) n /\
    binary_round_aux prec emax s m e l = encode s n (fexp k).
Proof.
  intros Hm Hx Hk He.
  destruct (shr_fexp_located x m e k l Hm Hx Hk He) as [E1 [L1 M1]].
  unfold binary_round_aux.
  destruct (shr_fexp prec emax m e l) as [mrs' e'].
  cbn [fst snd] in E1, L1, M1. subst e'.
  set (n := round_nearest_even (shr_m mrs') (loc_of_shr_record mrs')).
  assert (Hn : nearest_even (x * bpow (- fexp k)) n)
    by (apply round_nearest_even_correct; exact L1).
  exists n. split; [exact Hn |].
  destruct (rounded_range x k n Hk Hn) as [N0 [Nn Ns]].
  assert (HE : (-1074 <= fexp k)%Z) by (rewrite fexp_eq; lia).
  destruct n as [| p | p] eqn:En; [| | lia].
  - rewrite (shr_fexp_zero _ HE). reflexivity.
  - unfold encode.
    destruct (Z.eqb_spec (Zpos p) (2 ^ 53)) as [C | C].
    + rewrite C, (shr_fexp_carry _ HE). cbn [shr_m]. reflexivity.
    + rewrite shr_fexp_fits; [reflexivity | | exact HE |].
      * destruct (Z_le_gt_dec (-1074) (k - 53)) as [C' | C'];
          [specialize (Nn C') | specialize (Ns ltac:(lia))]; lia.
      * destruct (Z_le_gt_dec (-1074) (k - 53)) as [C' | C'];
          [left; specialize (Nn C'); lia | right; rewrite fexp_eq; lia].
Qed.

(** ** What a rounded result holds *)

(** [r] is the float of sign [s] and magnitude [v]. *)
Definition stores (r : spec_float) (s : bool) (v : R) : Prop :=
  match r with
  | S754_zero s' => s' = s /\ v = 0
  | S754_finite s' m e => s' = s /\ v = IZR (Zpos m) * bpow e
  | _ => False
  end.

Lemma canonical_digits (p : positive) (E : Z) :
  (Zpos p < 2 ^ 53)%Z -> (-1074 <= E)%Z ->
  (2 ^ 52 <= Zpos p \/ E = -1074)%Z ->
  canonical_mantissa prec emax p E = true.
Proof.
  intros Hp HE Hn. unfold canonical_mantissa. apply Z.eqb_eq.
  pose proof (digits2_bounds p) as [DA DB].
  set (d := Zpos (digits2_pos p)) in *.
  assert (Hd : (0 < d)%Z) by (unfold d; lia).
  assert (d <= 53)%Z.
  { assert (d - 1 < 53)%Z by (apply (Z.pow_lt_mono_r_iff 2); lia). lia. }
  rewrite fexp_eq. destruct Hn as [Hn | Hn]; [| lia].
  assert (52 < d)%Z by (apply (Z.pow_lt_mono_r_iff 2); lia). lia.
Qed.

Lemma encode_spec (s : bool) (x : R) (k n : Z) :
  binade x k -> nearest_even (x * bpow (- fexp k)) n ->
  (IZR n * bpow (fexp k) < bpow 1024 ->
     stores (encode s n (fexp k)) s (IZR n * bpow (fexp k)) /\
     valid_binary (encode s n (fexp k)) = true) /\
  (bpow 1024 <= IZR n * bpow (fexp k) ->
     encode s n (fexp k) = S754_infinity s).
Proof.
  intros Hk Hn.
  destruct (rounded_range x k n Hk Hn) as [N0 [Nn Ns]].
  assert (HE : (-1074 <= fexp k)%Z) by (rewrite fexp_eq; lia).
  pose proof (bpow_pos (fexp k)) as HbE.
  pose proof (bpow_pos 1024) as Hb.
  destruct n as [| p | p]; [| | lia]; unfold encode.
  - split; [intros _ | intros H; lra].
    split; [split; [reflexivity | lra] | reflexivity].
  - assert (Hcase : ((-1074 <= k - 53 /\ 2 ^ 52 <= Zpos p <= 2 ^ 53 /\
                      fexp k = k - 53) \/
                     (Zpos p <= 2 ^ 52 /\ fexp k = -1074))%Z).
    { destruct (Z_le_gt_dec (-1074) (k - 53)) as [C | C].
      - left. specialize (Nn C). rewrite fexp_eq. lia.
      - right. specialize (Ns ltac:(lia)). rewrite fexp_eq. lia. }
    destruct (Z.eqb_spec (Zpos p) (2 ^ 53)) as [C | C].
    + (* the rounding carried *)
      assert (V : IZR (Zpos p) * bpow (fexp k) = bpow (fexp k + 53)).
      { rewrite C, IZR_pow2 by lia. rewrite bpow_add. lra. }
      rewrite V.
      destruct (Z.leb_spec (fexp k + 1) 971) as [F | F].
      * split.
        -- intros _. cbn [stores valid_binary]. split.
           ++ split; [reflexivity |].
              change (Zpos (2 ^ 52)) with (2 ^ 52)%Z.
              rewrite IZR_pow2 by lia. rewrite <- bpow_add. f_equal. lia.
           ++ unfold SpecFloat.bounded. apply andb_true_intro. split.
              ** apply canonical_digits; [reflexivity | lia | left; reflexivity].
              ** apply Z.leb_le. exact F.
        -- intros H. exfalso.
           assert (bpow (fexp k + 53) < bpow 1024) by (apply bpow_lt; lia).
           lra.
      * split; [| reflexivity].
        intros H. exfalso.
        assert (bpow 1024 <= bpow (fexp k + 53)) by (apply bpow_le; lia).
        lra.
    + assert (Hp : (Zpos p < 2 ^ 53)%Z) by lia.
      assert (Hup : IZR (Zpos p) * bpow (fexp k) < bpow (fexp k + 53)).
      { rewrite (Z.add_comm (fexp k)), bpow_add, <- (IZR_pow2 53) by lia.
        apply Rmult_lt_compat_r; [exact HbE | apply IZR_lt; exact Hp]. }
      destruct (Z.leb_spec (fexp k) 971) as [F | F].
      * split.
        -- intros _. cbn [stores valid_binary]. split.
           ++ split; reflexivity.
           ++ unfold SpecFloat.bounded. apply andb_true_intro. split.
              ** apply canonical_digits; [exact Hp | exact HE | lia].
              ** apply Z.leb_le. exact F.
        -- intros H. exfalso.
           assert (bpow (fexp k + 53) <= bpow 1024) by (apply bpow_le; lia).
           lra.
      * split; [| reflexivity].
        intros H. exfalso.
        assert (Hlow : bpow (fexp k + 52) <= IZR (Zpos p) * bpow (fexp k)).
        { rewrite (Z.add_comm (fexp k)), bpow_add, <- (IZR_pow2 52) by lia.
          apply Rmult_le_compat_r; [lra | apply IZR_le; lia]. }
        assert (bpow 1024 <= bpow (fexp k + 52)) by (apply bpow_le; lia).
        lra.
Qed.

(** ** Rounding as a relation between reals *)

(** [v] is [x > 0] rounded to binary64, were the exponent unbounded
    above. *)
Definition RN (x v : R) : Prop :=
  exists k n : Z,
    binade x k /\ nearest_even (x * bpow (- fexp k)) n /\
    v = IZR n * bpow (fexp k).

Lemma binade_pos (x : R) (k : Z) : binade x k -> 0 < x.
Proof. intros [A _]. pose proof (bpow_pos (k - 1)). lra. Qed.

Lemma RN_nonneg (x v : R) : RN x v -> 0 <= v.
Proof.
  intros [k [n [Hk [Hn ->]]]].
  destruct (rounded_range x k n Hk Hn) as [N0 _].
  apply IZR_le in N0. pose proof (bpow_pos (fexp k)). nra.
Qed.

Lemma RN_mono (x y v w : R) : RN x v -> RN y w -> x <= y -> v <= w.
Proof.
  intros [k [n [Hk [Hn ->]]]] [k' [n' [Hk' [Hn' ->]]]] L.
  pose proof (binade_le x y k k' Hk Hk' L) as Lk.
  destruct (rounded_range x k n Hk Hn) as [N0 [Nn Ns]].
  destruct (rounded_range y k' n' Hk' Hn') as [N0' [Nn' Ns']].
  pose proof (bpow_pos (fexp k)) as HbE.
  destruct (Z.eq_dec (fexp k) (fexp k')) as [E | E].
  - rewrite <- E in *.
    assert (n <= n')%Z.
    { apply (nearest_even_mono _ _ _ _ Hn Hn').
      pose proof (bpow_pos (- fexp k)).
      apply Rmult_le_compat_r; lra. }
    apply Rmult_le_compat_r; [lra | apply IZR_le; assumption].
  - assert (Hk1 : (-1074 <= k' - 53)%Z) by (rewrite !fexp_eq in E; lia).
    assert (Ek' : fexp k' = (k' - 53)%Z) by (rewrite fexp_eq; lia).
    specialize (Nn' Hk1).
    assert (Low : bpow (k' - 1) <= IZR n' * bpow (fexp k')).
    { rewrite Ek'. replace (k' - 1)%Z with (52 + (k' - 53))%Z by lia.
      rewrite bpow_add, <- (IZR_pow2 52) by lia.
      apply Rmult_le_compat_r; [pose proof (bpow_pos (k' - 53)); lra
                               | apply IZR_le; lia]. }
    apply Rle_trans with (bpow (k' - 1)); [| exact Low].
    destruct (Z_le_gt_dec (-1074) (k - 53)) as [C | C].
    + specialize (Nn C).
      assert (Ek : fexp k = (k - 53)%Z) by (rewrite fexp_eq; lia).
      apply Rle_trans with (bpow k).
      * rewrite Ek. replace k with (53 + (k - 53))%Z at 2 by lia.
        rewrite bpow_add, <- (IZR_pow2 53) by lia.
        apply Rmult_le_compat_r; [pose proof (bpow_pos (k - 53)); lra
                                 | apply IZR_le; lia].
      * apply bpow_le. rewrite !fexp_eq in E. lia.
    + specialize (Ns ltac:(lia)).
      assert (Ek : fexp k = (-1074)%Z) by (rewrite fexp_eq; lia).
      apply Rle_trans with (bpow (-1022)).
      * rewrite Ek. replace (-1022)%Z with (52 + -1074)%Z by lia.
        rewrite bpow_add, <- (IZR_pow2 52) by lia.
        apply Rmult_le_compat_r; [pose proof (bpow_pos (-1074)); lra
                                 | apply IZR_le; lia].
      * apply bpow_le. lia.
Qed.

(** A number binary64 holds rounds to itself. *)
Lemma RN_exact (x : R) (k N : Z) :
  binade x k -> x * bpow (- fexp k) = IZR N -> RN x x.
Proof.
  intros Hk HN. exists k, N. split; [exact Hk |]. split.
  - rewrite HN. split; [lra |]. intros [E | E]; lra.
  - rewrite <- HN. rewrite scale_back. reflexivity.
Qed.

(** ** The operations *)

(** What an operation returns for the exact result [x]: the rounded
    value when it is below [2^1024], the infinity otherwise. *)
Definition outcome (s : bool) (v : R) (r : spec_float) : Prop :=
  (v < bpow 1024 /\ stores r s v /\ valid_binary r = true) \/
  (bpow 1024 <= v /\ r = S754_infinity s).

Lemma round_outcome (s : bool) (x : R) (m e k : Z) (l : location) :
  (0 <= m)%Z -> located (x * bpow (- e)) m l -> binade x k ->
  (e <= fexp k)%Z ->
  exists v : R, RN x v /\ outcome s v (binary_round_aux prec emax s m e l).
Proof.
  intros Hm Hx Hk He.
  destruct (binary_round_aux_correct s x m e k l Hm Hx Hk He) as [n [Hn E]].
  exists (IZR n * bpow (fexp k)). split.
  - exists k, n. auto.
  - rewrite E. destruct (encode_spec s x k n Hk Hn) as [F I].
    destruct (Rlt_le_dec (IZR n * bpow (fexp k)) (bpow 1024)) as [C | C].
    + left. split; [exact C | exact (F C)].
    + right. split; [exact C | exact (I C)].
Qed.

Lemma bounded_inv (m : positive) (e : Z) :
  SpecFloat.bounded prec emax m e = true ->
  (Zpos (digits2_pos m) <= 53 /\ -1074 <= e <= 971 /\
   (Zpos (digits2_pos m) = 53 \/ e = -1074))%Z.
Proof.
  unfold SpecFloat.bounded, canonical_mantissa. intros H.
  apply andb_prop in H. destruct H as [C B].
  apply Z.eqb_eq in C. apply Z.leb_le in B.
  rewrite fexp_eq in C. change (emax - prec)%Z with 971%Z in B. lia.
Qed.

Lemma exact_located (x : R) (m e : Z) :
  x = IZR m * bpow e -> located (x * bpow (- e)) m loc_Exact.
Proof.
  intros ->. cbn. rewrite Rmult_assoc, bpow_cancel. lra.
Qed.

Lemma exact_binade (x : R) (p : positive) (e : Z) :
  x = IZR (Zpos p) * bpow e -> binade x (Zpos (digits2_pos p) + e).
Proof.
  intros E. apply binade_of_digits.
  rewrite (exact_located x (Zpos p) e E). lra.
Qed.

(** Multiplication. *)
Lemma SFmul_outcome (sx sy : bool) (mx my : positive) (ex ey : Z) :
  SpecFloat.bounded prec emax mx ex = true -> SpecFloat.bounded prec emax my ey = true ->
  exists v : R,
    RN (IZR (Zpos mx) * bpow ex * (IZR (Zpos my) * bpow ey)) v /\
    outcome (xorb sx sy) v
      (SFmul prec emax (S754_finite sx mx ex) (S754_finite sy my ey)).
Proof.
  intros Bx By. cbn [SFmul].
  set (x := IZR (Zpos mx) * bpow ex * (IZR (Zpos my) * bpow ey)).
  assert (E : x = IZR (Zpos (mx * my)) * bpow (ex + ey)).
  { unfold x. rewrite Pos2Z.inj_mul, mult_IZR, bpow_add. ring. }
  apply (round_outcome _ x _ _ (Zpos (digits2_pos (mx * my)) + (ex + ey))).
  - lia.
  - apply exact_located. exact E.
  - apply exact_binade. exact E.
  - destruct (bounded_inv mx ex Bx) as [Dx [Ex Cx]].
    destruct (bounded_inv my ey By) as [Dy [Ey Cy]].
    pose proof (digits2_bounds mx) as [Lx _].
    pose proof (digits2_bounds my) as [Ly _].
    pose proof (digits2_bounds (mx * my)) as [_ U].
    set (dx := Zpos (digits2_pos mx)) in *.
    set (dy := Zpos (digits2_pos my)) in *.
    set (d := Zpos (digits2_pos (mx * my))) in *.
    assert (Hdx : (0 < dx)%Z) by (unfold dx; lia).
    assert (Hdy : (0 < dy)%Z) by (unfold dy; lia).
    assert (dx + dy - 2 < d)%Z.
    { apply (Z.pow_lt_mono_r_iff 2); [lia | unfold d; lia |].
      replace (dx + dy - 2)%Z with ((dx - 1) + (dy - 1))%Z by lia.
      rewrite Z.pow_add_r by lia.
      apply Z.le_lt_trans with (Zpos mx * Zpos my)%Z; [| rewrite <- Pos2Z.inj_mul; exact U].
      apply Z.mul_le_mono_nonneg; try assumption; apply Z.pow_nonneg; lia. }
    rewrite fexp_eq. lia.
Qed.

(** Where the remainder of a division puts the quotient. *)
Lemma new_location_located (q r d : Z) :
  (0 <= r < d)%Z -> located (IZR q + IZR r / IZR d) q (new_location d r).
Proof.
  intros [R0 Rd].
  assert (Hd : 0 < IZR d) by (apply IZR_lt; lia).
  set (f := IZR r / IZR d).
  assert (Hf : f * IZR d = IZR r) by (unfold f; field; lra).
  unfold new_location.
  destruct (Z.even d) eqn:Ev;
    unfold new_location_even, new_location_odd;
    (destruct (Z.eqb_spec r 0) as [E0 | Nr];
     [ assert (f = 0) by (unfold f; rewrite E0; field; lra); cbn; lra | ]);
    assert (0 < IZR r) by (apply IZR_lt; lia);
    assert (IZR r < IZR d) by (apply IZR_lt; lia);
    assert (F0 : 0 < f) by (unfold f; apply Rdiv_lt_0_compat; lra);
    assert (F1 : f < 1) by nra.
  - destruct (Z.compare_spec (2 * r) d) as [C | C | C]; cbn.
    + assert (2 * IZR r = IZR d) by (rewrite <- C, mult_IZR; lra). nra.
    + apply IZR_lt in C. rewrite mult_IZR in C. nra.
    + apply IZR_lt in C. rewrite mult_IZR in C. nra.
  - destruct (Z.compare_spec (2 * r + 1) d) as [C | C | C]; cbn.
    + assert (2 * IZR r + 1 = IZR d)
        by (rewrite <- C, plus_IZR, mult_IZR; lra).
      nra.
    + apply IZR_lt in C. rewrite plus_IZR, mult_IZR in C. nra.
    + assert (D : (d < 2 * r)%Z).
      { destruct (Z.eq_dec d (2 * r)) as [D | D]; [| lia].
        rewrite D, Z.even_mul in Ev. discriminate. }
      apply IZR_lt in D. rewrite mult_IZR in D. nra.
Qed.

Lemma SFdiv_core_located (mx my : positive) (ex ey : Z) :
  let x := IZR (Zpos mx) * bpow ex / (IZR (Zpos my) * bpow ey) in
  let r := SFdiv_core_binary prec emax (Zpos mx) ex (Zpos my) ey in
  (0 <= fst (fst r))%Z /\
  located (x * bpow (- snd (fst r))) (fst (fst r)) (snd r) /\
  exists k : Z, binade x k /\ (snd (fst r) <= fexp k)%Z.
Proof.
  intros x r. unfold SFdiv_core_binary in r. cbn [Zdigits2] in r.
  set (d1 := Zpos (digits2_pos mx)) in *.
  set (d2 := Zpos (digits2_pos my)) in *.
  set (e' := Z.min (fexp (d1 + ex - (d2 + ey))) (ex - ey)) in *.
  set (s := (ex - ey - e')%Z) in *.
  assert (Hs : (0 <= s)%Z) by (unfold s, e'; lia).
  set (m' := match s with
             | Zpos _ => Z.shiftl (Zpos mx) s
             | Z0 => Zpos mx
             | Zneg _ => 0%Z
             end) in *.
  assert (Hm' : m' = (Zpos mx * 2 ^ s)%Z).
  { unfold m'. destruct s as [| p | p] eqn:Es; [rewrite Z.pow_0_r; lia | | lia].
    rewrite Z.shiftl_mul_pow2 by lia. reflexivity. }
  pose proof (Z_div_mod m' (Zpos my) ltac:(lia)) as DM.
  destruct (Z.div_eucl m' (Zpos my)) as [q rem] eqn:Eq.
  destruct DM as [DM Hrem].
  subst r. cbn [fst snd].
  assert (P2 : (0 < 2 ^ s)%Z) by (apply Z.pow_pos_nonneg; lia).
  assert (Hq : (0 <= q)%Z) by nia.
  pose proof (bpow_pos ex). pose proof (bpow_pos ey).
  assert (Hmy : 0 < IZR (Zpos my)) by (apply IZR_lt; lia).
  assert (Hmx : 0 < IZR (Zpos mx)) by (apply IZR_lt; lia).
  split; [exact Hq |]. split.
  - replace (x * bpow (- e')) with (IZR q + IZR rem / IZR (Zpos my)).
    + apply new_location_located. exact Hrem.
    + assert (Es : bpow ex = bpow s * bpow ey * bpow e').
      { rewrite <- !bpow_add. f_equal. unfold s. lia. }
      assert (Em : IZR (Zpos mx) * bpow s = IZR (Zpos my) * IZR q + IZR rem).
      { rewrite <- IZR_pow2 by lia.
        rewrite <- !mult_IZR, <- plus_IZR. f_equal. lia. }
      pose proof (bpow_pos e'). pose proof (bpow_pos s).
      unfold x. rewrite Es, bpow_opp. field_simplify; [| lra | lra].
      rewrite Em. field. lra.
  - (* the binade of the quotient *)
    pose proof (exact_binade _ mx ex eq_refl) as [A1 B1].
    pose proof (exact_binade _ my ey eq_refl) as [A2 B2].
    fold d1 in A1, B1. fold d2 in A2, B2.
    set (X := IZR (Zpos mx) * bpow ex) in *.
    set (Y := IZR (Zpos my) * bpow ey) in *.
    assert (HY : 0 < Y) by (unfold Y; nra).
    pose proof (bpow_pos (d2 + ey - 1)). pose proof (bpow_pos (d2 + ey)).
    set (D := (d1 + ex - (d2 + ey))%Z).
    assert (Lo : bpow (D - 1) < x).
    { unfold x. fold X Y.
      apply Rmult_lt_reg_r with Y; [exact HY |].
      replace (X / Y * Y) with X by (field; lra).
      apply Rlt_le_trans with (bpow (D - 1) * bpow (d2 + ey)).
      - apply Rmult_lt_compat_l; [apply bpow_pos | lra].
      - rewrite <- bpow_add. replace (D - 1 + (d2 + ey))%Z with (d1 + ex - 1)%Z
          by (unfold D; lia). exact A1. }
    assert (Hi : x < bpow (D + 1)).
    { unfold x. fold X Y.
      apply Rmult_lt_reg_r with Y; [exact HY |].
      replace (X / Y * Y) with X by (field; lra).
      apply Rlt_le_trans with (bpow (D + 1) * bpow (d2 + ey - 1)).
      - rewrite <- bpow_add. replace (D + 1 + (d2 + ey - 1))%Z with (d1 + ex)%Z
          by (unfold D; lia). exact B1.
      - apply Rmult_le_compat_l; [pose proof (bpow_pos (D + 1)); lra | lra]. }
    destruct (Rlt_le_dec x (bpow D)) as [C | C].
    + exists D. split; [split; lra |].
      unfold e'. fold D. lia.
    + exists (D + 1)%Z. split.
      * unfold binade. replace (D + 1 - 1)%Z with D by lia. split; lra.
      * unfold e'. fold D. rewrite !fexp_eq. lia.
Qed.

(** Division. *)
Lemma SFdiv_outcome (sx sy : bool) (mx my : positive) (ex ey : Z) :
  exists v : R,
    RN (IZR (Zpos mx) * bpow ex / (IZR (Zpos my) * bpow ey)) v /\
    outcome (xorb sx sy) v
      (SFdiv prec emax (S754_finite sx mx ex) (S754_finite sy my ey)).
Proof.
  cbn [SFdiv].
  destruct (SFdiv_core_located mx my ex ey) as [Hq [L [k [Hk He]]]].
  destruct (SFdiv_core_binary prec emax (Zpos mx) ex (Zpos my) ey)
    as [[q e'] l].
  cbn [fst snd] in *.
  exact (round_outcome _ _ q e' k l Hq L Hk He).
Qed.

(** Conversion of a positive integer scaled by a power of two. *)
Lemma iter_xO (d m : positive) :
  Zpos (Pos.iter xO m d) = (Zpos m * 2 ^ Zpos d)%Z.
Proof.
  induction d as [| d IH] using Pos.peano_ind.
  - cbn [Pos.iter]. rewrite (Pos2Z.inj_xO m). lia.
  - rewrite Pos.iter_succ, (Pos2Z.inj_xO (Pos.iter xO m d)), IH.
    rewrite Pos2Z.inj_succ, Z.pow_succ_r by lia. lia.
Qed.

Lemma binary_round_outcome (s : bool) (m : positive) (e : Z) :
  exists v : R,
    RN (IZR (Zpos m) * bpow e) v /\
    outcome s v (binary_round prec emax s m e).
Proof.
  unfold binary_round, shl_align.
  set (x := IZR (Zpos m) * bpow e).
  pose proof (exact_binade x m e eq_refl) as Hk.
  set (k := (Zpos (digits2_pos m) + e)%Z) in *.
  destruct (fexp k - e)%Z as [| d | d] eqn:Ed.
  - apply (round_outcome _ x _ _ k); [lia | | exact Hk | lia].
    apply exact_located. reflexivity.
  - apply (round_outcome _ x _ _ k); [lia | | exact Hk | lia].
    apply exact_located. reflexivity.
  - apply (round_outcome _ x _ _ k); [lia | | exact Hk | lia].
    apply exact_located. unfold x.
    rewrite iter_xO, mult_IZR, IZR_pow2 by lia.
    rewrite Rmult_assoc, <- bpow_add. f_equal. f_equal. lia.
Qed.

(** ** Operations on floats that are not negative *)

(** Rounding of a real that may be zero. *)
Definition RN0 (x v : R) : Prop := (x = 0 /\ v = 0) \/ RN x v.

Lemma RN_pos (x v : R) : RN x v -> 0 < x.
Proof. intros [k [n [Hk _]]]. exact (binade_pos x k Hk). Qed.

Lemma RN0_nonneg (x v : R) : RN0 x v -> 0 <= v.
Proof. intros [[_ ->] | H]; [lra | exact (RN_nonneg x v H)]. Qed.

Lemma RN0_mono (x y v w : R) : RN0 x v -> RN0 y w -> x <= y -> v <= w.
Proof.
  intros [[Ex ->] | Hx] Hy L.
  - exact (RN0_nonneg y w Hy).
  - destruct Hy as [[Ey ->] | Hy].
    + pose proof (RN_pos x v Hx). lra.
    + exact (RN_mono x y v w Hx Hy L).
Qed.

Lemma RN0_exact (x : R) (k N : Z) :
  binade x k -> x * bpow (- fexp k) = IZR N -> RN0 x x.
Proof. intros Hk HN. right. exact (RN_exact x k N Hk HN). Qed.

Lemma RN0_one : RN0 1 1.
Proof.
  apply (RN0_exact 1 1 (2 ^ 52)).
  - unfold binade. change (1 - 1)%Z with 0%Z. rewrite bpow_0, bpow_1. lra.
  - rewrite IZR_pow2 by lia. change (- fexp 1)%Z with 52%Z. lra.
Qed.

Lemma RN0_hundred : RN0 100 100.
Proof.
  apply (RN0_exact 100 7 (100 * 2 ^ 46)).
  - unfold binade. rewrite <- !IZR_pow2 by lia.
    split; [apply (IZR_le 64 100) | apply (IZR_lt 100 128)]; lia.
  - rewrite mult_IZR, IZR_pow2 by lia. change (- fexp 7)%Z with 46%Z. lra.
Qed.

Lemma RN0_top : RN0 (bpow 1023) (bpow 1023).
Proof.
  apply (RN0_exact (bpow 1023) 1024 (2 ^ 52)).
  - unfold binade. change (1024 - 1)%Z with 1023%Z.
    split; [lra | apply bpow_lt; lia].
  - rewrite IZR_pow2 by lia. change (- fexp 1024)%Z with (-971)%Z.
    rewrite <- bpow_add. reflexivity.
Qed.

(** A float that stores a positive value is finite. *)
Lemma outcome_stored (s : bool) (v : R) (r : spec_float) :
  outcome s v r -> v < bpow 1024 ->
  stores r s v /\ valid_binary r = true.
Proof. intros [[_ H] | [H _]] L; [exact H | lra]. Qed.

Lemma outcome_valid (s : bool) (v : R) (r : spec_float) :
  outcome s v r -> valid_binary r = true.
Proof. intros [[_ [_ H]] | [_ ->]]; [exact H | reflexivity]. Qed.

Lemma outcome_cases (s : bool) (v : R) (r : spec_float) :
  outcome s v r ->
  (v < bpow 1024 /\ stores r s v /\ valid_binary r = true) \/
  r = S754_infinity s.
Proof. intros [H | [_ H]]; [left; exact H | right; exact H]. Qed.

Lemma zero_outcome (s : bool) : outcome s 0 (S754_zero s).
Proof.
  left. pose proof (bpow_pos 1024).
  split; [lra |]. split; [split; reflexivity | reflexivity].
Qed.

(** [float(n)] for [n >= 0]. *)
Lemma normalize_outcome (z : Z) :
  (0 <= z)%Z ->
  exists v : R,
    RN0 (IZR z) v /\ outcome false v (binary_normalize prec emax z 0 false).
Proof.
  intros Hz. destruct z as [| m | m]; [| | lia]; cbn [binary_normalize].
  - exists 0. split; [left; split; reflexivity | apply zero_outcome].
  - destruct (binary_round_outcome false m 0) as [v [Hv Ho]].
    rewrite bpow_0, Rmult_1_r in Hv.
    exists v. split; [right; exact Hv | exact Ho].
Qed.

Lemma normalize_valid (z : Z) :
  valid_binary (binary_normalize prec emax z 0 false) = true.
Proof.
  destruct z as [| m | m]; cbn [binary_normalize]; [reflexivity | |].
  - destruct (binary_round_outcome false m 0) as [v [_ Ho]].
    exact (outcome_valid _ _ _ Ho).
  - destruct (binary_round_outcome true m 0) as [v [_ Ho]].
    exact (outcome_valid _ _ _ Ho).
Qed.

(** Division of a float that is not negative by a positive one. *)
Lemma SFdiv_nonneg (a b : spec_float) (va vb : R) :
  stores a false va -> stores b false vb -> 0 < vb ->
  exists v : R, RN0 (va / vb) v /\ outcome false v (SFdiv prec emax a b).
Proof.
  intros Ha Hb Pb.
  destruct b as [sb | sb | | sb mb eb]; cbn [stores] in Hb;
    try contradiction; destruct Hb as [-> Eb]; [lra |].
  destruct a as [sa | sa | | sa ma ea]; cbn [stores] in Ha;
    try contradiction; destruct Ha as [-> Ea].
  - exists 0. split; [left; split; [rewrite Ea; field; lra | reflexivity] |].
    apply (zero_outcome false).
  - destruct (SFdiv_outcome false false ma mb ea eb) as [v [Hv Ho]].
    exists v. rewrite Ea, Eb. split; [right; exact Hv | exact Ho].
Qed.

(** Multiplication of two floats that are not negative. *)
Lemma SFmul_nonneg (a b : spec_float) (va vb : R) :
  stores a false va -> valid_binary a = true ->
  stores b false vb -> valid_binary b = true ->
  exists v : R, RN0 (va * vb) v /\ outcome false v (SFmul prec emax a b).
Proof.
  intros Ha Va Hb Vb.
  destruct a as [sa | sa | | sa ma ea]; cbn [stores] in Ha;
    try contradiction; destruct Ha as [-> Ea];
    destruct b as [sb | sb | | sb mb eb]; cbn [stores] in Hb;
    try contradiction; destruct Hb as [-> Eb];
    try (exists 0; split;
         [left; split; [rewrite ?Ea, ?Eb; ring | reflexivity]
         | apply (zero_outcome false)]).
  cbn [valid_binary] in Va, Vb.
  destruct (SFmul_outcome false false ma mb ea eb Va Vb) as [v [Hv Ho]].
  exists v. rewrite Ea, Eb. split; [right; exact Hv | exact Ho].
Qed.

(** Cutting a stored value to an integer. *)
Lemma shiftl_floor (m : positive) (e : Z) :
  IZR (Z.shiftl (Zpos m) e) <= IZR (Zpos m) * bpow e
  < IZR (Z.shiftl (Zpos m) e) + 1.
Proof.
  destruct (Z_le_gt_dec 0 e) as [He | He].
  - rewrite Z.shiftl_mul_pow2 by lia.
    rewrite mult_IZR, IZR_pow2 by lia. lra.
  - rewrite Z.shiftl_div_pow2 by lia.
    set (d := (2 ^ (- e))%Z).
    assert (Hd : (0 < d)%Z) by (apply Z.pow_pos_nonneg; lia).
    pose proof (Z.mul_div_le (Zpos m) d Hd) as Lo.
    pose proof (Z.mul_succ_div_gt (Zpos m) d Hd) as Hi.
    set (q := (Zpos m / d)%Z) in *.
    assert (Ed : bpow e = / IZR d).
    { unfold d. rewrite IZR_pow2, bpow_opp, Rinv_inv by lia. reflexivity. }
    assert (Pd : 0 < IZR d) by (apply IZR_lt; exact Hd).
    apply IZR_le in Lo. apply IZR_lt in Hi.
    rewrite mult_IZR in Lo, Hi. unfold Z.succ in Hi. rewrite plus_IZR in Hi.
    rewrite Ed.
    assert (F : IZR (Zpos m) * / IZR d * IZR d = IZR (Zpos m)) by (field; lra).
    split.
    + apply Rmult_le_reg_r with (IZR d); [exact Pd |]. rewrite F. lra.
    + apply Rmult_lt_reg_r with (IZR d); [exact Pd |]. rewrite F. lra.
Qed.

End Binary64.

(** * Python's arithmetic on floats *)

Module FloatFacts.
Import Binary64.

Local Open Scope R_scope.

(** ** From primitive floats to their specification *)

Lemma Prim2SF_zero : Prim2SF 0 = S754_zero false.
Proof. reflexivity. Qed.

Lemma Prim2SF_hundred :
  Prim2SF Py.lit_100 = S754_finite false 7036874417766400 (-46).
Proof. reflexivity. Qed.

Lemma Prim2SF_float_of_int (n : Z) :
  Prim2SF (Py.float_of_int n) = binary_normalize prec emax n 0 false.
Proof. apply Prim2SF_SF2Prim, normalize_valid. Qed.

Lemma hundred_stored :
  stores (Prim2SF Py.lit_100) false 100 /\
  valid_binary (Prim2SF Py.lit_100) = true.
Proof.
  rewrite Prim2SF_hundred. split; [| reflexivity].
  split; [reflexivity |].
  change (Zpos 7036874417766400) with (100 * 2 ^ 46)%Z.
  rewrite mult_IZR, IZR_pow2 by lia.
  rewrite Rmult_assoc, bpow_cancel. lra.
Qed.

(** [int(x)] of a stored value is its integer part. *)
Lemma int_of_stored (r : spec_float) (v : R) :
  stores r false v ->
  exists z : Z, Py.int_of_SF r = Ok z /\ IZR z <= v < IZR z + 1.
Proof.
  destruct r as [s | s | | s m e]; cbn [stores]; try contradiction.
  - intros [_ ->]. exists 0%Z. split; [reflexivity | lra].
  - intros [-> ->]. exists (Z.shiftl (Zpos m) e).
    split; [reflexivity | apply shiftl_floor].
Qed.

(** The float [int(a / b * 100)] is computed from, for two [int]s. *)
Definition scaled (a b : Z) : spec_float :=
  SFmul prec emax
    (SFdiv prec emax (binary_normalize prec emax a 0 false)
                     (binary_normalize prec emax b 0 false))
    (Prim2SF Py.lit_100).

Lemma Prim2SF_scaled (a b : Z) :
  Prim2SF (Py.truediv a b * Py.lit_100)%float = scaled a b.
Proof.
  unfold Py.truediv, scaled.
  rewrite mul_spec, div_spec, !Prim2SF_float_of_int. reflexivity.
Qed.

(** The reals the computation goes through: [a] and [b] rounded, their
    quotient rounded, and a hundred times that rounded. *)
Definition scaled_value (a b : Z) (w : R) : Prop :=
  exists va vb q : R,
    RN0 (IZR a) va /\ RN0 (IZR b) vb /\ 0 < vb /\
    RN0 (va / vb) q /\ RN0 (q * 100) w.

Lemma RN0_fun (x v w : R) : RN0 x v -> RN0 x w -> v = w.
Proof.
  intros H1 H2. apply Rle_antisym; eapply RN0_mono; eauto; lra.
Qed.

Lemma RN0_ge_one (z : Z) (v : R) : (1 <= z)%Z -> RN0 (IZR z) v -> 1 <= v.
Proof.
  intros Hz Hv. apply (RN0_mono 1 (IZR z) 1 v RN0_one Hv).
  apply IZR_le. exact Hz.
Qed.






(** Within [0 .. b] nothing overflows, and the value stays within
    [0 .. 100]. *)
Lemma scaled_int_within (a b : Z) :
  (0 <= a <= b)%Z -> (0 < b < 2 ^ 1023)%Z ->
  exists (z : Z) (w : R),
    Py.int_of_SF (scaled a b) = Ok z /\ scaled_value a b w /\
    IZR z <= w < IZR z + 1 /\ 0 <= w <= 100.
Proof.
  intros [Ha L] [Hb Ub]. unfold scaled.
  destruct (normalize_outcome a Ha) as [va [RA OA]].
  destruct (normalize_outcome b ltac:(lia)) as [vb [RB OB]].
  pose proof (RN0_ge_one b vb ltac:(lia) RB) as Pb.
  destruct hundred_stored as [SC VC].
  assert (Tb : vb <= bpow 1023).
  { apply (RN0_mono _ _ _ _ RB RN0_top).
    rewrite <- IZR_pow2 by lia. apply IZR_le. lia. }
  assert (Top : bpow 1023 < bpow 1024) by (apply bpow_lt; lia).
  assert (Lab : va <= vb) by (apply (RN0_mono _ _ _ _ RA RB), IZR_le, L).
  assert (B100 : 100 < bpow 1024).
  { apply Rlt_trans with (bpow 7); [| apply bpow_lt; lia].
    rewrite <- IZR_pow2 by lia. apply (IZR_lt 100 128). lia. }
  destruct (outcome_stored _ _ _ OB ltac:(lra)) as [SB VB].
  destruct (outcome_stored _ _ _ OA ltac:(lra)) as [SA VA].
  destruct (SFdiv_nonneg _ _ va vb SA SB ltac:(lra)) as [q [RQ OQ]].
  assert (Q1 : q <= 1).
  { apply (RN0_mono _ _ _ _ RQ RN0_one).
    apply Rmult_le_reg_r with vb; [lra |].
    replace (va / vb * vb) with va by (field; lra). lra. }
  pose proof (RN0_nonneg _ _ RQ) as Q0.
  destruct (outcome_stored _ _ _ OQ ltac:(lra)) as [SQ VQ].
  destruct (SFmul_nonneg _ _ q 100 SQ VQ SC VC) as [w [RW OW]].
  assert (W100 : w <= 100) by (apply (RN0_mono _ _ _ _ RW RN0_hundred); lra).
  pose proof (RN0_nonneg _ _ RW) as W0.
  destruct (outcome_stored _ _ _ OW ltac:(lra)) as [SW VW].
  destruct (int_of_stored _ w SW) as [z [E B]].
  exists z, w. split; [exact E |]. split; [| split; [exact B | lra]].
  exists va, vb, q. repeat split; auto; lra.
Qed.

(** Within [0 .. b] the result is a percentage. *)
Lemma scaled_int_percent (a b : Z) :
  (0 <= a <= b)%Z -> (0 < b < 2 ^ 1023)%Z ->
  exists z : Z, Py.int_of_SF (scaled a b) = Ok z /\ (0 <= z <= 100)%Z.
Proof.
  intros Ha Hb.
  destruct (scaled_int_within a b Ha Hb) as [z [w [E [_ [[B1 B2] [W0 W1]]]]]].
  exists z. split; [exact E |].
  assert (IZR (-1) < IZR z) by (change (IZR (-1)) with (-1); lra).
  assert (IZR z < IZR 101) by (change (IZR 101) with 101; lra).
  apply lt_IZR in H, H0. lia.
Qed.



(** ** Signs *)







(** A float that is not below zero. *)
Definition unsigned (r : spec_float) : Prop :=
  match r with
  | S754_finite s _ _ => s = false
  | _ => True
  end.

Lemma int_floor_unsigned (r : spec_float) :
  unsigned r -> Py.int_of_SF r = Py.floor_of_SF r.
Proof. destruct r; cbn; intros; subst; reflexivity. Qed.

Lemma binary_round_aux_unsigned (m e : Z) (l : location) :
  unsigned (binary_round_aux prec emax false m e l).
Proof.
  unfold binary_round_aux.
  destruct (shr_fexp prec emax m e l) as [mrs' e'].
  destruct (shr_fexp prec emax _ e' loc_Exact) as [mrs'' e''].
  destruct (shr_m mrs''); [exact I | | exact I].
  destruct (Z.leb _ _); [reflexivity | exact I].
Qed.

Lemma SFdiv_unsigned (a b : spec_float) :
  unsigned a -> unsigned b -> unsigned (SFdiv prec emax a b).
Proof.
  destruct a as [sa | sa | | sa ma ea], b as [sb | sb | | sb mb eb];
    cbn [SFdiv unsigned]; auto.
  intros -> ->.
  destruct (SFdiv_core_binary prec emax (Zpos ma) ea (Zpos mb) eb)
    as [[q e'] l].
  apply binary_round_aux_unsigned.
Qed.

Lemma SFmul_unsigned (a b : spec_float) :
  unsigned a -> unsigned b -> unsigned (SFmul prec emax a b).
Proof.
  destruct a as [sa | sa | | sa ma ea], b as [sb | sb | | sb mb eb];
    cbn [SFmul unsigned]; auto.
  intros -> ->. apply binary_round_aux_unsigned.
Qed.

Lemma normalize_unsigned (z : Z) :
  (0 <= z)%Z -> unsigned (binary_normalize prec emax z 0 false).
Proof.
  destruct z as [| m | m]; [cbn; auto | | lia]. intros _.
  cbn [binary_normalize]. unfold binary_round.
  destruct (shl_align m 0 _) as [mz ez]. apply binary_round_aux_unsigned.
Qed.

Lemma scaled_unsigned (a b : Z) :
  (0 <= a)%Z -> (0 <= b)%Z -> unsigned (scaled a b).
Proof.
  intros Ha Hb. unfold scaled.
  apply SFmul_unsigned.
  - apply SFdiv_unsigned; apply normalize_unsigned; assumption.
  - rewrite Prim2SF_hundred. reflexivity.
Qed.

(** Comparisons with zero. *)
Lemma leb_zero_not_positive (x : float) :
  (x <=? 0)%float = true -> (0 <? x)%float = false.
Proof.
  rewrite leb_spec, ltb_spec, Prim2SF_zero.
  destruct (Prim2SF x) as [s | s | | s m e]; try destruct s; cbn; congruence.
Qed.

Lemma positive_not_leb_zero (x : float) :
  (0 <? x)%float = true -> (x <=? 0)%float = false /\ unsigned (Prim2SF x).
Proof.
  rewrite leb_spec, ltb_spec, Prim2SF_zero.
  destruct (Prim2SF x) as [s | s | | s m e]; try destruct s; cbn;
    intros H; try discriminate; split; reflexivity.
Qed.

(** [int] of the quotient of two positive floats is its floor. *)
Lemma int_div_positive (a b : float) :
  (0 <? a)%float = true -> (0 <? b)%float = true ->
  Py.int (a / b) = Py.floor (a / b).
Proof.
  intros Ha Hb. unfold Py.int, Py.floor. rewrite div_spec.
  apply int_floor_unsigned, SFdiv_unsigned;
    now apply positive_not_leb_zero.
Qed.

(** [int(a / b * 100)] for two [int]s. *)
Lemma int_scaled (a b : Z) :
  Py.int (Py.truediv a b * Py.lit_100)%float = Py.int_of_SF (scaled a b).
Proof. unfold Py.int. now rewrite Prim2SF_scaled. Qed.

Lemma floor_scaled (a b : Z) :
  Py.floor (Py.truediv a b * Py.lit_100)%float = Py.floor_of_SF (scaled a b).
Proof. unfold Py.floor. now rewrite Prim2SF_scaled. Qed.

End FloatFacts.

(** * Properties of the review dialog *)

Module ReviewFacts.
Import Review.

(** What a slot leaves alone. *)
Lemma update_position_info_keeps (d : ReviewDialog) :
  image_files (fst (update_position_info d)) = image_files d /\
  current_index (fst (update_position_info d)) = current_index d.
Proof.
  unfold update_position_info; cbn.
  destruct (percent (current_index d) (len (set_label d _))); cbn; auto.
Qed.

Lemma show_images_keeps (d : ReviewDialog) :
  image_files (fst (show_images d)) = image_files d /\
  current_index (fst (show_images d)) = current_index d.
Proof.
  unfold show_images.
  destruct (show_loop _ _ range10 []) as [g [[]|e]].
  - apply (update_position_info_keeps (set_grid (set_grid d []) g)).
  - split; reflexivity.
Qed.

Lemma show_images_at (d : ReviewDialog) (c : Z) :
  image_files (fst (show_images (set_index d c))) = image_files d /\
  current_index (fst (show_images (set_index d c))) = c.
Proof. apply (show_images_keeps (set_index d c)). Qed.

Lemma jump_amount_positive (n amount : Z) :
  jump_amount n = Ok amount -> 1 <= amount.
Proof.
  unfold jump_amount.
  destruct (Py.int _); cbn; intros E; inversion E; lia.
Qed.

(** The cursor after each slot, as a function of the cursor before. *)
Definition next_index (b : nav) (n c : Z) : Z :=
  match b with
  | Next => if c + 10 <? n then c + 10 else c
  | Previous => if 0 <=? c - 10 then c - 10 else c
  | JumpForward =>
      match jump_amount n with
      | Ok amount => Z.min (c + amount) (n - 10)
      | Raise _ => c
      end
  | JumpBack =>
      match jump_amount n with
      | Ok amount => Z.max (c - amount) 0
      | Raise _ => c
      end
  | JumpToStart => 0
  | JumpToEnd => Z.max 0 (n - 10)
  end.

Lemma click_keeps_files (b : nav) (d : ReviewDialog) :
  image_files (fst (click b d)) = image_files d.
Proof.
  destruct b; cbn;
    unfold show_next, show_previous, jump_forward, jump_back,
           jump_to_start, jump_to_end;
    repeat match goal with
           | |- context [if ?c then _ else _] => destruct c
           | |- context [match jump_amount ?n with _ => _ end] =>
               destruct (jump_amount n)
           end;
    try reflexivity; apply show_images_at.
Qed.

Lemma click_index (b : nav) (d : ReviewDialog) :
  current_index (fst (click b d)) = next_index b (len d) (current_index d).
Proof.
  destruct b; cbn;
    unfold show_next, show_previous, jump_forward, jump_back,
           jump_to_start, jump_to_end;
    repeat match goal with
           | |- context [if ?c then _ else _] => destruct c
           | |- context [match jump_amount ?n with _ => _ end] =>
               destruct (jump_amount n)
           end;
    try reflexivity; apply show_images_at.
Qed.

Lemma click_keeps_len (b : nav) (d : ReviewDialog) :
  len (fst (click b d)) = len d.
Proof. unfold len; now rewrite click_keeps_files. Qed.

Lemma init_state (files : list string) :
  image_files (fst (init files)) = files /\
  current_index (fst (init files)) = 0.
Proof. apply (show_images_keeps (mkDialog files 0 [] EmptyString None)). Qed.

(** The bound the cursor keeps: inside the list, or 0 on an empty one. *)
Definition in_list (n c : Z) : Prop := 0 <= c <= Z.max 0 (n - 1).

Lemma next_index_in_list (b : nav) (n c : Z) :
  10 <= n \/ b <> JumpForward ->
  in_list n c -> in_list n (next_index b n c).
Proof.
  unfold in_list; intros Hb Hc.
  destruct b; cbn.
  - destruct (Z.ltb_spec (c + 10) n); lia.
  - destruct (Z.leb_spec 0 (c - 10)); lia.
  - destruct Hb as [Hn | Hb]; [| congruence].
    destruct (jump_amount n) as [amount|] eqn:E; [| lia].
    apply jump_amount_positive in E; lia.
  - destruct (jump_amount n) as [amount|] eqn:E; [| lia].
    apply jump_amount_positive in E; lia.
  - lia.
  - lia.
Qed.

Lemma session_in_list (bs : list nav) : forall d : ReviewDialog,
  10 <= len d \/ ~ In JumpForward bs ->
  in_list (len d) (current_index d) ->
  Forall (in_list (len d)) (map current_index (session d bs)).
Proof.
  induction bs as [| b bs IH]; intros d Hb Hc; cbn.
  - constructor.
  - assert (Hstep : in_list (len d) (current_index (fst (click b d)))).
    { rewrite click_index. apply next_index_in_list; [| exact Hc].
      destruct Hb as [Hn | Hb]; [now left | right].
      intros ->. apply Hb. now left. }
    constructor; [exact Hstep |].
    rewrite <- (click_keeps_len b d).
    apply IH.
    + rewrite click_keeps_len.
      destruct Hb as [Hn | Hb]; [now left | right].
      intros Hin. apply Hb. now right.
    + now rewrite click_keeps_len.
Qed.

(** Fifteen and three file names, for the examples. *)
Definition fifteen_files : list string :=
  map (fun i => Sampler.os_path_join "out" (Sampler.snapshot_name i))
      (List.seq 0 15).

Definition three_files : list string :=
  map (fun i => Sampler.os_path_join "out" (Sampler.snapshot_name i))
      (List.seq 0 3).

(** C1, as amended.  From a fresh dialog over [files], after every
    click of a session the cursor is at least 0 and at most
    [max(0, len - 1)]: it stays inside the list.  This holds for every
    session when the list has ten files or more, and for the sessions
    without Jump Forward on a shorter list. *)
Theorem cursor_stays_in_list (files : list string) (bs : list nav) :
  10 <= Z.of_nat (List.length files) \/ ~ In JumpForward bs ->
  Forall (fun c => 0 <= c <= Z.max 0 (Z.of_nat (List.length files) - 1))
         (cursors files bs).
Proof.
  intros Hb. unfold cursors.
  destruct (init_state files) as [Hf Hc].
  assert (Hlen : len (fst (init files)) = Z.of_nat (List.length files))
    by (unfold len; now rewrite Hf).
  rewrite <- Hlen.
  apply (session_in_list bs (fst (init files))).
  - now rewrite Hlen.
  - unfold in_list. rewrite Hc. lia.
Qed.

Lemma cursor_stays_in_list_witness :
  Forall (fun c => 0 <= c <= Z.max 0 (Z.of_nat (List.length fifteen_files) - 1))
         (cursors fifteen_files
                  [Next; JumpForward; JumpBack; Previous; JumpToEnd]).
Proof.
  apply (cursor_stays_in_list fifteen_files
           [Next; JumpForward; JumpBack; Previous; JumpToEnd]).
  left. vm_compute. discriminate.
Defined.

(** C1 as stated fails: with fifteen files one click on Next puts the
    cursor on 10, above [max(0, 15 - 10) = 5]. *)
Lemma next_passes_last_full_page :
  cursors fifteen_files [Next] = [10] /\
  Z.max 0 (Z.of_nat (List.length fifteen_files) - 10) = 5 /\
  5 < 10.
Proof. repeat split. Qed.

(** On a list of ten files or more, Jump Forward from where Jump to End
    put the cursor leaves it there. *)
Lemma jump_forward_at_end (d : ReviewDialog) :
  10 <= len d ->
  current_index (fst (jump_forward (fst (jump_to_end d))))
  = current_index (fst (jump_to_end d)).
Proof.
  intros Hn.
  rewrite (click_index JumpForward), (click_keeps_len JumpToEnd),
          (click_index JumpToEnd).
  cbn [next_index].
  destruct (jump_amount (len d)) as [amount |] eqn:E; [| reflexivity].
  apply jump_amount_positive in E. lia.
Qed.

(** C2 at its failing input.  With three files, Jump to End leaves the
    cursor on 0 and Jump Forward then moves it to [3 - 10 = -7]; the
    redraw that follows subscripts the list at -7 and raises. *)
Theorem jump_forward_leaves_short_list :
  cursors three_files [JumpToEnd; JumpForward] = [0; -7] /\
  snd (jump_forward (fst (jump_to_end (fst (init three_files)))))
    = Raise IndexError.
Proof. split; vm_compute; reflexivity. Qed.

(** C8.  [show_next] changes nothing and raises nothing when
    [cursor + 10 >= len], and moves the cursor to [cursor + 10]
    otherwise; [show_previous] changes nothing and raises nothing when
    [cursor - 10 < 0], and moves the cursor to [cursor - 10]
    otherwise. *)
Theorem next_previous_by_whole_pages (d : ReviewDialog) :
  (len d <= current_index d + 10 -> show_next d = (d, Ok tt)) /\
  (current_index d + 10 < len d ->
     current_index (fst (show_next d)) = current_index d + 10) /\
  (current_index d - 10 < 0 -> show_previous d = (d, Ok tt)) /\
  (0 <= current_index d - 10 ->
     current_index (fst (show_previous d)) = current_index d - 10).
Proof.
  unfold show_next, show_previous.
  destruct (Z.ltb_spec (current_index d + 10) (len d));
    destruct (Z.leb_spec 0 (current_index d - 10));
    repeat split; intros; try lia; try reflexivity;
    apply show_images_at.
Qed.

(** C10.  No navigation slot touches the list of files: it is the same
    list, in the same order, after every click, and so throughout a
    session. *)
Theorem navigation_keeps_image_files :
  (forall (b : nav) (d : ReviewDialog),
      image_files (fst (click b d)) = image_files d) /\
  (forall (files : list string) (bs : list nav),
      Forall (fun d => image_files d = files)
             (session (fst (init files)) bs)).
Proof.
  split; [exact click_keeps_files |].
  intros files bs.
  assert (H : forall d, image_files d = files ->
                        Forall (fun d' => image_files d' = files)
                               (session d bs)).
  { induction bs as [| b bs IH]; intros d Hd; cbn; constructor.
    - now rewrite click_keeps_files.
    - apply IH. now rewrite click_keeps_files. }
  apply H, init_state.
Qed.

(** The scenarios the specification works through. *)
Definition twenty_three_files : list string :=
  map (fun i => Sampler.os_path_join "out" (Sampler.snapshot_name i))
      (List.seq 0 23).

Example scenario_twenty_three :
  cursors twenty_three_files [JumpForward; Next; Next; Next; JumpToEnd]
  = [1; 11; 21; 21; 13].
Proof. vm_compute. reflexivity. Qed.

Example scenario_empty :
  init []
  = (mkDialog [] 0 [] "Viewing frames 1-0 of 0" (Some 0), Ok tt).
Proof. vm_compute. reflexivity. Qed.

(** The percentage is computed in binary64: 29 of 100 shows 28, since
    [29 / 100 * 100] is [28.999999999999996] there. *)
Example percent_is_rounded : percent 29 100 = Ok 28.
Proof. vm_compute. reflexivity. Qed.

End ReviewFacts.

(** * Properties of the frame sampler *)

Module SamplerFacts.
Import Sampler.

(** ** File names *)

Lemma zeros_length (n : nat) : String.length (zeros n) = n.
Proof. induction n; cbn; congruence. Qed.

Lemma string_length_app (a b : string) :
  String.length (a ++ b) = (String.length a + String.length b)%nat.
Proof. induction a; cbn; congruence. Qed.

Lemma format_04_length (count : nat) :
  String.length (format_04 count)
  = Nat.max 4 (String.length (NilEmpty.string_of_uint (Nat.to_uint count))).
Proof.
  unfold format_04. rewrite string_length_app, zeros_length. lia.
Qed.

(** Reading a numeral with zeros in front. *)
Lemma uint_of_zeros (n : nat) (s : string) (d : Decimal.uint) :
  NilEmpty.uint_of_string s = Some d ->
  exists d', NilEmpty.uint_of_string (zeros n ++ s) = Some d' /\
             Nat.of_uint d' = Nat.of_uint d.
Proof.
  intros Hs. induction n as [| n [d' [E V]]]; cbn.
  - now exists d.
  - exists (Decimal.D0 d'). rewrite E. split; [reflexivity | exact V].
Qed.

(** The digits [format_04] prints read back as the count. *)
Lemma format_04_reads_back (count : nat) :
  option_map Nat.of_uint (NilEmpty.uint_of_string (format_04 count))
  = Some count.
Proof.
  unfold format_04.
  destruct (uint_of_zeros
              (4 - String.length (NilEmpty.string_of_uint (Nat.to_uint count)))
              (NilEmpty.string_of_uint (Nat.to_uint count))
              (Nat.to_uint count)
              (NilEmpty.usu (Nat.to_uint count))) as [d' [E V]].
  rewrite E. cbn. now rewrite V, DecimalNat.Unsigned.of_to.
Qed.

(** ** Progress values *)


Lemma progress_value_percent (p total : Z) :
  0 <= p <= total -> 0 < total < 2 ^ 1023 ->
  exists v : Z, progress_value p total = Ok v /\ 0 <= v <= 100.
Proof.
  unfold progress_value. rewrite FloatFacts.int_scaled.
  apply FloatFacts.scaled_int_percent.
Qed.

Section Traces.

Context {Image : Type}.
Variable imwrite : string -> Image -> result bool.

Lemma written_files_app (a b : list (event Image)) :
  written_files (a ++ b) = written_files a ++ written_files b.
Proof. apply flat_map_app. Qed.

Lemma written_frames_app (a b : list (event Image)) :
  written_frames (a ++ b) = written_frames a ++ written_frames b.
Proof. apply flat_map_app. Qed.


Lemma releases_app (a b : list (event Image)) :
  releases (a ++ b) = (releases a + releases b)%nat.
Proof. unfold releases. now rewrite filter_app, length_app. Qed.

Lemma finishes_app (a b : list (event Image)) :
  finishes (a ++ b) = (finishes a + finishes b)%nat.
Proof. unfold finishes. now rewrite filter_app, length_app. Qed.

(** One turn of the loop, by cases on what the turn meets. *)
Ltac loop_turn interval pos total :=
  cbn [read_loop]; unfold and_then, cv2_imwrite, ret, lift, emit;
  destruct (selected interval pos) eqn:Hsel;
  [ destruct (imwrite _ _) eqn:Hw | ];
  ( destruct (0 <? total) eqn:Htot;
    [ destruct (progress_value pos total) eqn:Hpv | ] ).

(** The file names the loop passes to [imwrite] count up from [count]. *)
Lemma read_loop_names (interval total : Z) (dir : string)
    (frames : list (Image * Z)) : forall count : nat,
  let evs := fst (read_loop imwrite interval total dir frames count) in
  written_files evs
  = map (fun i => os_path_join dir (snapshot_name i))
        (List.seq count (List.length (written_files evs))).
Proof.
  induction frames as [| [frame pos] rest IH]; intros count; [reflexivity |].
  loop_turn interval pos total;
    try reflexivity;
    match goal with
    | |- context [read_loop imwrite interval total dir rest ?c] =>
        specialize (IH c);
        destruct (read_loop imwrite interval total dir rest c) as [evs r]
    end;
    cbn [fst snd app written_files flat_map List.length List.seq map] in *;
    rewrite ?app_nil_r;
    first [ exact IH | f_equal; exact IH ].
Qed.

Ltac loop_rest interval total dir rest IH :=
  match goal with
  | |- context [read_loop imwrite interval total dir rest ?c] =>
      specialize (IH c);
      destruct (read_loop imwrite interval total dir rest c) as [evs r]
  end.

(** The frames written are the kept frames, in decode order: all of
    them when the loop ends by itself, the first of them when something
    raised. *)
Lemma read_loop_frames (interval total : Z) (dir : string)
    (frames : list (Image * Z)) : forall count : nat,
  exists later : list Image,
    kept interval frames
    = written_frames (fst (read_loop imwrite interval total dir frames count))
        ++ later /\
    (snd (read_loop imwrite interval total dir frames count) = Ok tt ->
     later = []).
Proof.
  induction frames as [| [frame pos] rest IH]; intros count.
  - exists []. split; reflexivity.
  - unfold kept in *. cbn [filter snd]. fold (selected interval pos).
    loop_turn interval pos total; cbn [map fst];
      try loop_rest interval total dir rest IH;
      try (destruct IH as [later [E L]]; exists later;
           cbn [fst snd app written_frames flat_map] in *;
           rewrite ?app_nil_r, ?E; split; [reflexivity | exact L]);
      eexists;
      (split; [cbn [fst written_frames flat_map app]; reflexivity
              | cbn [snd]; discriminate]).
Qed.

(** The loop itself neither releases the capture nor signals the end. *)
Lemma read_loop_holds_capture (interval total : Z) (dir : string)
    (frames : list (Image * Z)) : forall count : nat,
  releases (fst (read_loop imwrite interval total dir frames count)) = 0%nat /\
  finishes (fst (read_loop imwrite interval total dir frames count)) = 0%nat.
Proof.
  induction frames as [| [frame pos] rest IH]; intros count.
  - split; reflexivity.
  - loop_turn interval pos total;
      try loop_rest interval total dir rest IH;
      cbn [fst snd app] in *; rewrite ?app_nil_r;
      first [ exact IH | split; reflexivity ].
Qed.



(** [run] is the loop between computing the interval and releasing the
    capture. *)
Lemma run_unfold (self : FrameExtractor) (video : Capture) :
  run imwrite self video
  = match interval_of (cap_fps video) (fps self) with
    | Ok interval =>
        match read_loop imwrite interval (cap_frame_count video)
                (output_dir self) (cap_frames video) 0 with
        | (evs, Ok _) => (evs ++ [Release; FinishedEmit], Ok tt)
        | (evs, Raise e) => (evs, Raise e)
        end
    | Raise e => ([], Raise e)
    end.
Proof.
  unfold run, and_then, lift, emit.
  destruct (interval_of (cap_fps video) (fps self)) as [interval | e];
    [| reflexivity].
  destruct (read_loop imwrite interval (cap_frame_count video)
              (output_dir self) (cap_frames video) 0) as [evs [[] | e]];
    reflexivity.
Qed.

Lemma run_frames (self : FrameExtractor) (video : Capture) (interval : Z) :
  interval_of (cap_fps video) (fps self) = Ok interval ->
  exists later : list Image,
    kept interval (cap_frames video)
    = written_frames (fst (run imwrite self video)) ++ later /\
    (snd (run imwrite self video) = Ok tt -> later = []).
Proof.
  intros Hi. rewrite run_unfold, Hi.
  destruct (read_loop_frames interval (cap_frame_count video)
              (output_dir self) (cap_frames video) 0) as [later [E L]].
  destruct (read_loop imwrite interval (cap_frame_count video)
              (output_dir self) (cap_frames video) 0) as [evs [[] | e]];
    cbn [fst snd] in *; exists later.
  - rewrite written_frames_app, app_nil_r. split; [exact E | intros _; auto].
  - split; [exact E | discriminate].
Qed.

Lemma run_names (self : FrameExtractor) (video : Capture) :
  written_files (fst (run imwrite self video))
  = map (fun i => os_path_join (output_dir self) (snapshot_name i))
        (List.seq 0 (List.length
                       (written_files (fst (run imwrite self video))))).
Proof.
  rewrite run_unfold.
  destruct (interval_of (cap_fps video) (fps self)) as [interval | e];
    [| reflexivity].
  pose proof (read_loop_names interval (cap_frame_count video)
                (output_dir self) (cap_frames video) 0) as N.
  destruct (read_loop imwrite interval (cap_frame_count video)
              (output_dir self) (cap_frames video) 0) as [evs [[] | e]];
    cbn [fst snd] in *; [| exact N].
  rewrite written_files_app, app_nil_r. exact N.
Qed.

Lemma written_same_length (evs : list (event Image)) :
  List.length (written_files evs) = List.length (written_frames evs).
Proof.
  unfold written_files, written_frames.
  induction evs as [| [f x | v | |] evs IH]; cbn; congruence.
Qed.

(** With interval 1 every frame is kept. *)
Lemma kept_all (frames : list (Image * Z)) : kept 1 frames = map fst frames.
Proof.
  unfold kept. f_equal.
  induction frames as [| [x p] rest IH]; [reflexivity |].
  cbn [filter snd]. unfold selected at 1. rewrite Z.mod_1_r. cbn.
  now rewrite IH.
Qed.

(** When nothing raises, the loop ends by itself once the frames are
    used up: [imwrite] returns on every call, and either there is no
    progress to compute or every position lies within the total. *)
Lemma read_loop_returns (interval total : Z) (dir : string)
    (frames : list (Image * Z)) :
  (forall file frame, is_ok (imwrite file frame) = true) ->
  total <= 0 \/
  (total < 2 ^ 1023 /\ Forall (fun fp => 0 <= snd fp <= total) frames) ->
  forall count : nat,
    snd (read_loop imwrite interval total dir frames count) = Ok tt.
Proof.
  intros Hwr Ht.
  induction frames as [| [frame pos] rest IH]; intros count; [reflexivity |].
  assert (Ht' : total <= 0 \/
                (total < 2 ^ 1023 /\
                 Forall (fun fp => 0 <= snd fp <= total) rest)).
  { destruct Ht as [Ht | [Hb Hf]]; [now left | right].
    inversion Hf; subst. now split. }
  specialize (IH Ht').
  loop_turn interval pos total;
    try (specialize (Hwr (os_path_join dir (snapshot_name count)) frame);
         rewrite Hw in Hwr; discriminate);
    try (exfalso; apply Z.ltb_lt in Htot;
         destruct Ht as [Ht | [Hb Hf]]; [lia |];
         inversion Hf as [| ? ? Hp _]; subst; cbn [snd] in Hp;
         destruct (progress_value_percent pos total Hp ltac:(lia))
           as [v [E _]];
         rewrite E in Hpv; discriminate);
    match goal with
    | |- context [read_loop imwrite interval total dir rest ?c] =>
        specialize (IH c);
        destruct (read_loop imwrite interval total dir rest c) as [evs r]
    end;
    exact IH.
Qed.

Lemma run_returns (self : FrameExtractor) (video : Capture) :
  (forall file frame, is_ok (imwrite file frame) = true) ->
  is_ok (interval_of (cap_fps video) (fps self)) = true ->
  cap_frame_count video <= 0 \/
  (cap_frame_count video < 2 ^ 1023 /\
   Forall (fun fp => 0 <= snd fp <= cap_frame_count video)
          (cap_frames video)) ->
  snd (run imwrite self video) = Ok tt.
Proof.
  intros Hw Hi Ht. rewrite run_unfold.
  destruct (interval_of (cap_fps video) (fps self)) as [interval | e];
    [| discriminate].
  pose proof (read_loop_returns interval (cap_frame_count video)
                (output_dir self) (cap_frames video) Hw Ht 0) as R.
  destruct (read_loop imwrite interval (cap_frame_count video)
              (output_dir self) (cap_frames video) 0) as [evs [[] | e]];
    [reflexivity | discriminate].
Qed.

End Traces.


Lemma StronglySorted_prefix {A : Type} (R : A -> A -> Prop) (l l' : list A) :
  StronglySorted R (l ++ l') -> StronglySorted R l.
Proof.
  induction l as [| a l IH]; cbn; intros H; [constructor |].
  inversion H as [| ? ? S F]; subst.
  constructor; [now apply IH |].
  apply Forall_app in F. tauto.
Qed.


(** ** The claims about the sampler *)

Local Open Scope string_scope.

(** A capture of four frames at 30 frames a second, the frames named by
    numbers, and the two ways [imwrite] can go. *)
Definition four_frames : Capture :=
  mkCapture 30%float 4 [(10%nat, 1); (11%nat, 2); (12%nat, 3); (13%nat, 4)].

Definition write_ok (file : string) (frame : nat) : result bool := Ok true.

Definition write_fails (file : string) (frame : nat) : result bool :=
  Raise CvError.

(** [float(text)] on the texts made of decimal digits only, which is
    all the examples below type into the window. *)
Definition float_of_digits (text : string) : result float :=
  match text, NilEmpty.uint_of_string text with
  | String _ _, Some d => Ok (Py.float_of_int (Z.of_uint d))
  | _, _ => Raise ValueError
  end.

(** A case that does not arise. *)
Ltac no_such H :=
  repeat match type of H with
         | exists _, _ => destruct H as [? H]
         | _ /\ _ => let H' := fresh in destruct H as [H' H]
         end;
  congruence.

(** What stops [process_video] and what does not. *)
Lemma process_video_cases (py_float : string -> result float)
    (w : Snatcher.VideoFrameSnatcher) :
  (Snatcher.process_video py_float w = Snatcher.MissingInfo <->
   Snatcher.video_path w = None \/ Snatcher.video_path w = Some "" \/
   Snatcher.output_dir w = None \/ Snatcher.output_dir w = Some "" \/
   Snatcher.fps_input w = "") /\
  (Snatcher.process_video py_float w = Snatcher.InvalidValue <->
   exists (v o : string) (e : exn),
     Snatcher.video_path w = Some v /\ Snatcher.output_dir w = Some o /\
     v <> "" /\ o <> "" /\ Snatcher.fps_input w <> "" /\
     py_float (Snatcher.fps_input w) = Raise e) /\
  (forall job : FrameExtractor,
     Snatcher.process_video py_float w = Snatcher.Started job <->
     exists (v o : string) (seconds : float),
       Snatcher.video_path w = Some v /\ Snatcher.output_dir w = Some o /\
       v <> "" /\ o <> "" /\ Snatcher.fps_input w <> "" /\
       py_float (Snatcher.fps_input w) = Ok seconds /\
       job = mkExtractor v o (if (0 <? seconds)%float
                              then (1 / seconds)%float else 0%float)).
Proof.
  destruct w as [vp od text].
  unfold Snatcher.process_video.
  cbn [Snatcher.video_path Snatcher.output_dir Snatcher.fps_input].
  destruct vp as [[| c v] |], od as [[| c' o] |], text as [| c'' text];
    cbn [Snatcher.nonempty andb negb];
    try (split; [| split; [| intros job]]; split; intros H;
         first [ reflexivity | discriminate H | tauto | no_such H ]).
  destruct (py_float (String c'' text)) as [seconds | e] eqn:Hp;
    (split; [| split; [| intros job]]); split; intros H;
    try discriminate H; try no_such H;
    try (destruct H as [? | [? | [? | [? | ?]]]]; discriminate).
  - inversion H. exists (String c v), (String c' o), seconds.
    repeat split; discriminate || reflexivity.
  - destruct H as (v' & o' & x & Ev & Eo & _ & _ & _ & Ef & ->).
    assert (x = seconds) by congruence. subst x.
    inversion Ev. inversion Eo. reflexivity.
  - exists (String c v), (String c' o), e.
    repeat split; discriminate || reflexivity.
Qed.

(** C3, as amended.  A spacing that is not positive is not rejected.
    [process_video] stops before sampling exactly when a path is
    missing or empty or the text is empty (its "Missing Info" warning)
    or [float] rejects the text (its "Invalid Value" warning).  For
    every number [float] returns it starts the extractor: with rate
    [1 / seconds] when [seconds > 0] and with rate 0 otherwise, so with
    rate 0 for [seconds <= 0].  An extractor whose rate is [<= 0] takes
    interval 1: when the write never raises and the positions lie
    within the frame count (or there is no frame count) its run
    returns, and a run that returns has passed every decoded frame to
    [imwrite]. *)
Theorem nonpositive_spacing_keeps_every_frame
    {Image : Type} (py_float : string -> result float)
    (imwrite : string -> Image -> result bool)
    (w : Snatcher.VideoFrameSnatcher) :
  (Snatcher.process_video py_float w = Snatcher.MissingInfo <->
   Snatcher.video_path w = None \/ Snatcher.video_path w = Some "" \/
   Snatcher.output_dir w = None \/ Snatcher.output_dir w = Some "" \/
   Snatcher.fps_input w = "") /\
  (Snatcher.process_video py_float w = Snatcher.InvalidValue <->
   exists (v o : string) (e : exn),
     Snatcher.video_path w = Some v /\ Snatcher.output_dir w = Some o /\
     v <> "" /\ o <> "" /\ Snatcher.fps_input w <> "" /\
     py_float (Snatcher.fps_input w) = Raise e) /\
  (forall job : FrameExtractor,
     Snatcher.process_video py_float w = Snatcher.Started job <->
     exists (v o : string) (seconds : float),
       Snatcher.video_path w = Some v /\ Snatcher.output_dir w = Some o /\
       v <> "" /\ o <> "" /\ Snatcher.fps_input w <> "" /\
       py_float (Snatcher.fps_input w) = Ok seconds /\
       job = mkExtractor v o (if (0 <? seconds)%float
                              then (1 / seconds)%float else 0%float)) /\
  (forall (v o : string) (seconds : float),
     Snatcher.video_path w = Some v -> Snatcher.output_dir w = Some o ->
     v <> "" -> o <> "" -> Snatcher.fps_input w <> "" ->
     py_float (Snatcher.fps_input w) = Ok seconds ->
     (seconds <=? 0)%float = true ->
     Snatcher.process_video py_float w
     = Snatcher.Started (mkExtractor v o 0)) /\
  (forall (job : FrameExtractor) (video : Capture),
     (fps job <=? 0)%float = true ->
     interval_of (cap_fps video) (fps job) = Ok 1 /\
     (snd (run imwrite job video) = Ok tt ->
      written_frames (fst (run imwrite job video))
      = map fst (cap_frames video)) /\
     ((forall file frame, is_ok (imwrite file frame) = true) ->
      cap_frame_count video <= 0 \/
      (cap_frame_count video < 2 ^ 1023 /\
       Forall (fun fp => 0 <= snd fp <= cap_frame_count video)
              (cap_frames video)) ->
      snd (run imwrite job video) = Ok tt)).
Proof.
  destruct (process_video_cases py_float w) as [M [I S]].
  split; [exact M |]. split; [exact I |]. split; [exact S |]. split.
  - intros v o seconds Hv Ho Nv No Nt Hp Hs.
    apply S. exists v, o, seconds.
    rewrite (FloatFacts.leb_zero_not_positive seconds Hs). auto 10.
  - intros job video Hj.
    assert (Hi : interval_of (cap_fps video) (fps job) = Ok 1).
    { unfold interval_of. rewrite Hj, orb_true_r. reflexivity. }
    split; [exact Hi |]. split.
    + intros Hr.
      destruct (run_frames imwrite job video 1 Hi) as [later [E L]].
      rewrite (L Hr), app_nil_r, kept_all in E. now symmetry.
    + intros Hw Hb. apply run_returns; [exact Hw | now rewrite Hi | exact Hb].
Qed.

Lemma nonpositive_spacing_keeps_every_frame_witness :
  Snatcher.process_video float_of_digits
    (Snatcher.mkWindow (Some "in.mp4") (Some "out") "0")
  = Snatcher.Started (mkExtractor "in.mp4" "out" 0) /\
  interval_of (cap_fps four_frames) (fps (mkExtractor "in.mp4" "out" 0))
  = Ok 1 /\
  snd (run write_ok (mkExtractor "in.mp4" "out" 0) four_frames) = Ok tt /\
  written_frames (fst (run write_ok (mkExtractor "in.mp4" "out" 0) four_frames))
  = map fst (cap_frames four_frames).
Proof.
  destruct (nonpositive_spacing_keeps_every_frame float_of_digits write_ok
              (Snatcher.mkWindow (Some "in.mp4") (Some "out") "0"))
    as [_ [_ [_ [Z0 R]]]].
  split.
  - apply (Z0 "in.mp4" "out" 0%float); try reflexivity; discriminate.
  - destruct (R (mkExtractor "in.mp4" "out" 0) four_frames eq_refl)
      as [Hi [Hf Hr]].
    assert (Hret : snd (run write_ok (mkExtractor "in.mp4" "out" 0) four_frames)
                   = Ok tt).
    { apply Hr; [reflexivity |]. right. split; [reflexivity |].
      repeat constructor; cbn; discriminate. }
    split; [exact Hi |]. split; [exact Hret | exact (Hf Hret)].
Defined.

(** C3 as stated fails: the job with rate 0 is run, and all four frames
    of the capture are written. *)
Lemma zero_rate_job_is_run :
  (fps (mkExtractor "in.mp4" "out" 0) <=? 0)%float = true /\
  Snatcher.process_video float_of_digits
    (Snatcher.mkWindow (Some "in.mp4") (Some "out") "0")
  = Snatcher.Started (mkExtractor "in.mp4" "out" 0) /\
  run write_ok (mkExtractor "in.mp4" "out" 0) four_frames
  = ([Imwrite "out/snapshot_0000.jpg" 10%nat; ProgressEmit 25;
      Imwrite "out/snapshot_0001.jpg" 11%nat; ProgressEmit 50;
      Imwrite "out/snapshot_0002.jpg" 12%nat; ProgressEmit 75;
      Imwrite "out/snapshot_0003.jpg" 13%nat; ProgressEmit 100;
      Release; FinishedEmit], Ok tt).
Proof. repeat split; vm_compute; reflexivity. Qed.

(** A capture whose backend counts positions from 0. *)
Definition counted_from_zero : Capture :=
  mkCapture 30%float 3 [(10%nat, 0); (11%nat, 1); (12%nat, 2)].

Lemma interval_at_least_one (actual target : float) (interval : Z) :
  interval_of actual target = Ok interval -> 1 <= interval.
Proof.
  unfold interval_of.
  destruct ((actual <=? 0) || (target <=? 0))%float.
  - intros E; inversion E; lia.
  - destruct (Py.int (actual / target)); cbn; intros E; inversion E; lia.
Qed.

(** C4, as amended.  When the reported rate or the target rate is
    [<= 0] the interval is 1.  When both are positive the interval is
    [max(1, floor(actual / target))], the quotient being the binary64
    one (where it is infinite, [int] raises and the run ends before the
    first read).  A frame is written exactly when its reported position
    is a multiple of the interval: position 0, if the source reports
    it, is written, no position strictly between 0 and the interval
    is, and the position equal to the interval is. *)
Theorem interval_and_selection (actual target : float) :
  (((actual <=? 0) || (target <=? 0))%float = true ->
   interval_of actual target = Ok 1) /\
  ((0 <? actual)%float = true -> (0 <? target)%float = true ->
   interval_of actual target
   = (q <- Py.floor (actual / target)%float ;; Ok (Z.max 1 q))) /\
  (forall interval : Z,
     interval_of actual target = Ok interval ->
     1 <= interval /\
     (forall p : Z, selected interval p = true <-> p mod interval = 0) /\
     selected interval 0 = true /\
     (forall p : Z, 0 < p < interval -> selected interval p = false) /\
     selected interval interval = true /\
     (forall (Image : Type) (imwrite : string -> Image -> result bool)
             (self : FrameExtractor) (video : Capture),
        cap_fps video = actual -> fps self = target ->
        snd (run imwrite self video) = Ok tt ->
        written_frames (fst (run imwrite self video))
        = kept interval (cap_frames video))).
Proof.
  split; [| split].
  - intros H. unfold interval_of. now rewrite H.
  - intros Ha Ht. unfold interval_of.
    destruct (FloatFacts.positive_not_leb_zero actual Ha) as [-> _].
    destruct (FloatFacts.positive_not_leb_zero target Ht) as [-> _].
    cbn [orb]. now rewrite (FloatFacts.int_div_positive actual target Ha Ht).
  - intros interval Hi.
    pose proof (interval_at_least_one actual target interval Hi) as H1.
    split; [exact H1 |]. split; [| split; [| split; [| split]]].
    + intros p. unfold selected. apply Z.eqb_eq.
    + unfold selected. now rewrite Zmod_0_l.
    + intros p Hp. unfold selected. rewrite Z.mod_small by lia.
      apply Z.eqb_neq. lia.
    + unfold selected. now rewrite Z_mod_same_full.
    + intros Image imwrite self video Ea Et Hr. subst actual target.
      destruct (run_frames imwrite self video interval Hi) as [later [E L]].
      rewrite (L Hr), app_nil_r in E. now symmetry.
Qed.

(** C4 as stated fails on position 0: at 30 frames a second and one
    snapshot a second the interval is 30, and the frame the source
    reports at position 0 is written. *)
Lemma position_zero_is_written :
  interval_of 30 1 = Ok 30 /\
  selected 30 0 = true /\
  run write_ok (mkExtractor "in.mp4" "out" 1) counted_from_zero
  = ([Imwrite "out/snapshot_0000.jpg" 10%nat; ProgressEmit 0;
      ProgressEmit 33; ProgressEmit 66; Release; FinishedEmit], Ok tt).
Proof. repeat split; vm_compute; reflexivity. Qed.

(** File names are told apart by their index. *)
Lemma append_cancel_l (a b c : string) : a ++ b = a ++ c -> b = c.
Proof.
  induction a as [| x a IH]; cbn; intros H; [exact H |].
  inversion H. auto.
Qed.

Lemma append_cancel_r (a b c : string) : a ++ c = b ++ c -> a = b.
Proof.
  intros H.
  assert (L : String.length a = String.length b).
  { apply (f_equal String.length) in H.
    rewrite !string_length_app in H. lia. }
  revert b H L.
  induction a as [| x a IH]; intros [| y b] H L; cbn in L;
    try discriminate L; [reflexivity |].
  cbn in H. inversion H. f_equal. apply IH; [assumption | lia].
Qed.

Lemma snapshot_name_inj (i j : nat) :
  snapshot_name i = snapshot_name j -> i = j.
Proof.
  unfold snapshot_name. intros H.
  apply append_cancel_l, append_cancel_r in H.
  pose proof (format_04_reads_back i) as R.
  rewrite H, format_04_reads_back in R. congruence.
Qed.

Lemma os_path_join_inj (dir a b : string) :
  os_path_join dir a = os_path_join dir b -> a = b.
Proof.
  unfold os_path_join. destruct dir as [| c dir]; [auto |].
  destruct (ends_with_slash (String c dir)); intros H.
  - exact (append_cancel_l _ _ _ H).
  - apply append_cancel_l in H. exact (append_cancel_l "/" _ _ H).
Qed.

Lemma saved_files_app {Image : Type}
    (imwrite : string -> Image -> result bool) (a b : list (event Image)) :
  saved_files imwrite (a ++ b)
  = (saved_files imwrite a ++ saved_files imwrite b)%list.
Proof. apply flat_map_app. Qed.

(** When every write succeeds the files that exist are the files asked
    for. *)
Lemma saved_all {Image : Type} (imwrite : string -> Image -> result bool)
    (evs : list (event Image)) :
  (forall file frame, imwrite file frame = Ok true) ->
  saved_files imwrite evs = written_files evs.
Proof.
  intros Hw. unfold saved_files, written_files.
  induction evs as [| [f x | v | |] evs IH]; cbn [flat_map];
    rewrite ?Hw, ?IH; reflexivity.
Qed.

(** An [imwrite] that cannot write the frame numbered 11: it returns
    [False], as [cv2.imwrite] does for a file it could not save. *)
Definition write_skips (file : string) (frame : nat) : result bool :=
  Ok (negb (Nat.eqb frame 11)).

(** C5, as amended.  Whatever the run meets, the files it passes to
    [imwrite] are [snapshot_NNNN.jpg] in the output directory with
    [NNNN] running through 0, 1, 2, ... in the order of the calls, no
    two of them the same; [NNNN] is the decimal index filled with zeros
    to four characters, never cut.  There is one call per kept frame,
    in decode order: for all of the kept frames when the run reaches
    the end, for the first of them when it was cut short.  When every
    call of [imwrite] returns [True] (and the positions lie within the
    frame count, or there is no frame count) the run returns and the
    files that exist are those of the calls: [snapshot_0000.jpg] and
    so on without a gap, one per kept frame. *)
Theorem snapshots_numbered_from_zero
    {Image : Type} (imwrite : string -> Image -> result bool)
    (self : FrameExtractor) (video : Capture) :
  written_files (fst (run imwrite self video))
  = map (fun i => os_path_join (output_dir self) (snapshot_name i))
        (List.seq 0 (List.length (written_frames (fst (run imwrite self video)))))
  /\
  NoDup (written_files (fst (run imwrite self video)))
  /\
  (forall i : nat,
     snapshot_name i = "snapshot_" ++ format_04 i ++ ".jpg" /\
     String.length (format_04 i)
     = Nat.max 4 (String.length (NilEmpty.string_of_uint (Nat.to_uint i))) /\
     option_map Nat.of_uint (NilEmpty.uint_of_string (format_04 i)) = Some i)
  /\
  (forall interval : Z,
     interval_of (cap_fps video) (fps self) = Ok interval ->
     (exists later : list Image,
        kept interval (cap_frames video)
        = (written_frames (fst (run imwrite self video)) ++ later)%list /\
        (snd (run imwrite self video) = Ok tt -> later = [])) /\
     ((forall file frame, imwrite file frame = Ok true) ->
      cap_frame_count video <= 0 \/
      (cap_frame_count video < 2 ^ 1023 /\
       Forall (fun fp => 0 <= snd fp <= cap_frame_count video)
              (cap_frames video)) ->
      snd (run imwrite self video) = Ok tt /\
      saved_files imwrite (fst (run imwrite self video))
      = map (fun i => os_path_join (output_dir self) (snapshot_name i))
            (List.seq 0 (List.length (kept interval (cap_frames video)))))).
Proof.
  assert (N : written_files (fst (run imwrite self video))
              = map (fun i => os_path_join (output_dir self) (snapshot_name i))
                    (List.seq 0 (List.length
                       (written_frames (fst (run imwrite self video)))))).
  { rewrite <- written_same_length. apply run_names. }
  split; [exact N |]. split; [| split].
  - rewrite N. apply NoDup_map_NoDup_ForallPairs; [| apply seq_NoDup].
    intros i j _ _ H. exact (snapshot_name_inj i j (os_path_join_inj _ _ _ H)).
  - intros i. split; [reflexivity |].
    split; [apply format_04_length | apply format_04_reads_back].
  - intros interval Hi.
    split; [exact (run_frames imwrite self video interval Hi) |].
    intros Hw Hb.
    assert (R : snd (run imwrite self video) = Ok tt).
    { apply run_returns; [| now rewrite Hi | exact Hb].
      intros file frame. now rewrite Hw. }
    split; [exact R |].
    destruct (run_frames imwrite self video interval Hi) as [later [E L]].
    rewrite (saved_all imwrite _ Hw), N, E, (L R), app_nil_r. reflexivity.
Qed.

Lemma snapshots_numbered_from_zero_witness :
  snd (run write_ok (mkExtractor "in.mp4" "out" 15) four_frames) = Ok tt /\
  saved_files write_ok
    (fst (run write_ok (mkExtractor "in.mp4" "out" 15) four_frames))
  = map (fun i => os_path_join "out" (snapshot_name i))
        (List.seq 0 (List.length (kept 2 (cap_frames four_frames)))).
Proof.
  destruct (snapshots_numbered_from_zero write_ok
              (mkExtractor "in.mp4" "out" 15) four_frames)
    as [_ [_ [_ H]]].
  destruct (H 2 eq_refl) as [_ S].
  apply S; [reflexivity |]. right. split; [reflexivity |].
  repeat constructor; cbn; discriminate.
Defined.

(** C5 as stated fails on the files that come to exist: the run drops
    the flag [imwrite] returns and counts the call all the same.  With
    every frame kept and a second write that returns [False], the run
    returns after four calls and leaves three files, numbered 0, 2 and
    3: one file less than kept frames, and a gap at 1. *)
Lemma unwritten_snapshot_leaves_gap :
  interval_of (cap_fps four_frames) (fps (mkExtractor "in.mp4" "out" 0))
  = Ok 1 /\
  kept 1 (cap_frames four_frames) = [10%nat; 11%nat; 12%nat; 13%nat] /\
  snd (run write_skips (mkExtractor "in.mp4" "out" 0) four_frames) = Ok tt /\
  written_files
    (fst (run write_skips (mkExtractor "in.mp4" "out" 0) four_frames))
  = ["out/snapshot_0000.jpg"; "out/snapshot_0001.jpg";
     "out/snapshot_0002.jpg"; "out/snapshot_0003.jpg"] /\
  saved_files write_skips
    (fst (run write_skips (mkExtractor "in.mp4" "out" 0) four_frames))
  = ["out/snapshot_0000.jpg"; "out/snapshot_0002.jpg";
     "out/snapshot_0003.jpg"].
Proof. repeat split; vm_compute; reflexivity. Qed.

(** C7, as amended.  The capture is released, once, exactly when the
    run returns: the release then comes after every write and every
    progress value of the run.  A run that an exception cuts short has
    not released the capture.  The run does return when the frames are
    used up and nothing raised on the way: a read that fails is a read
    that returns no frame, so it ends the loop like the end of the
    video. *)
Theorem released_when_run_returns
    {Image : Type} (imwrite : string -> Image -> result bool)
    (self : FrameExtractor) (video : Capture) :
  releases (fst (run imwrite self video))
  = (if is_ok (snd (run imwrite self video)) then 1 else 0)%nat /\
  (snd (run imwrite self video) = Ok tt ->
   exists evs after : list (event Image),
     fst (run imwrite self video) = (evs ++ Release :: after)%list /\
     releases evs = 0%nat /\ releases after = 0%nat /\
     written_files after = [] /\ progress_values after = []) /\
  ((forall file frame, is_ok (imwrite file frame) = true) ->
   is_ok (interval_of (cap_fps video) (fps self)) = true ->
   cap_frame_count video <= 0 \/
   (cap_frame_count video < 2 ^ 1023 /\
    Forall (fun fp => 0 <= snd fp <= cap_frame_count video)
           (cap_frames video)) ->
   snd (run imwrite self video) = Ok tt).
Proof.
  split; [| split]; [| | apply run_returns];
    rewrite run_unfold;
    (destruct (interval_of (cap_fps video) (fps self)) as [interval | e];
     [| cbn; try reflexivity; discriminate]);
    destruct (read_loop_holds_capture imwrite interval
                (cap_frame_count video) (output_dir self)
                (cap_frames video) 0) as [Hr Hf];
    destruct (read_loop imwrite interval (cap_frame_count video)
                (output_dir self) (cap_frames video) 0) as [evs [[] | e]];
    cbn [fst snd is_ok] in *;
    rewrite ?releases_app, ?Hr;
    try reflexivity; try assumption; try discriminate.
  intros _. exists evs, [FinishedEmit]. auto.
Qed.

(** C7 as stated fails: when [imwrite] raises on the first kept frame
    the run stops there, and the capture has not been released. *)
Lemma failed_write_leaves_capture_open :
  run write_fails (mkExtractor "in.mp4" "out" 15) four_frames
  = ([ProgressEmit 25; Imwrite "out/snapshot_0000.jpg" 11%nat],
     Raise CvError) /\
  releases (fst (run write_fails (mkExtractor "in.mp4" "out" 15) four_frames))
  = 0%nat.
Proof. split; vm_compute; reflexivity. Qed.

(** The scenarios the specification works through: a 30 frames a second
    source sampled once a second, and a source that reports no rate. *)
Example scenario_thirty : interval_of 30 1 = Ok 30.
Proof. vm_compute. reflexivity. Qed.

Example scenario_no_rate : interval_of 0 1 = Ok 1.
Proof. vm_compute. reflexivity. Qed.

(** A quotient beyond the range of binary64 is infinite, and [int]
    refuses it: the run ends before it has read a frame.  The rate
    [2^-1024] is the one the window computes for the largest spacing a
    float can hold. *)
Example interval_overflow :
  (1 / 0x1.fffffffffffffp1023 = 0x1p-1024)%float /\
  run write_ok (mkExtractor "in.mp4" "out" 0x1p-1024) four_frames
  = ([], Raise OverflowError).
Proof. split; vm_compute; reflexivity. Qed.

End SamplerFacts.


(** * Floats that are exact *)

Module Exact.

Import Binary64 FloatFacts Builtins.
Local Open Scope R_scope.

(** A number [p * 2^e] with [p] below [2^53] is a float. *)
Lemma dyadic_exact (p : positive) (e : Z) :
  (Zpos p < 2 ^ 53)%Z -> (-1074 <= e)%Z ->
  RN (IZR (Zpos p) * bpow e) (IZR (Zpos p) * bpow e).
Proof.
  intros Hp He.
  pose proof (exact_binade _ p e eq_refl) as Hk.
  pose proof (digits2_bounds p) as [DA DB].
  set (d := Zpos (digits2_pos p)) in *.
  assert (Hd : (d <= 53)%Z).
  { assert (d - 1 < 53)%Z by (apply (Z.pow_lt_mono_r_iff 2); lia). lia. }
  assert (Hf : (fexp (d + e) <= e)%Z) by (rewrite fexp_eq; lia).
  apply (RN_exact _ (d + e) (Zpos p * 2 ^ (e - fexp (d + e)))); [exact Hk |].
  rewrite mult_IZR, IZR_pow2 by lia.
  rewrite Rmult_assoc, <- bpow_add. do 2 f_equal; lia.
Qed.

Lemma RN0_dyadic (n e : Z) :
  (0 <= n < 2 ^ 53)%Z -> (-1074 <= e)%Z ->
  RN0 (IZR n * bpow e) (IZR n * bpow e).
Proof.
  intros [Hn Hb] He. destruct n as [| p | p]; [| | lia].
  - left. split; ring.
  - right. apply dyadic_exact; assumption.
Qed.

Lemma RN0_int (n : Z) : (0 <= n < 2 ^ 53)%Z -> RN0 (IZR n) (IZR n).
Proof.
  intros Hn. pose proof (RN0_dyadic n 0 Hn ltac:(lia)) as H.
  rewrite bpow_0, Rmult_1_r in H. exact H.
Qed.

(** A real within [k .. k + 1 - 2^-j] rounds to a float within
    [k .. k + 1), as long as the floats are that fine there. *)
Lemma RN0_between (x v : R) (k j : Z) :
  RN0 x v -> (0 <= k)%Z -> (0 <= j <= 1074)%Z ->
  ((k + 1) * 2 ^ j <= 2 ^ 53)%Z ->
  IZR k <= x <= IZR k + 1 - bpow (- j) ->
  IZR k <= v < IZR k + 1.
Proof.
  intros Hv Hk Hj Hb [Lo Hi].
  assert (P2 : (0 < 2 ^ j)%Z) by (apply Z.pow_pos_nonneg; lia).
  assert (K53 : (k < 2 ^ 53)%Z) by nia.
  split.
  - exact (RN0_mono _ _ _ _ (RN0_int k ltac:(lia)) Hv Lo).
  - pose proof (RN0_dyadic ((k + 1) * 2 ^ j - 1) (- j) ltac:(lia) ltac:(lia))
      as Hf.
    assert (E : IZR ((k + 1) * 2 ^ j - 1) * bpow (- j)
                = IZR k + 1 - bpow (- j)).
    { rewrite minus_IZR, mult_IZR, plus_IZR, IZR_pow2 by lia.
      pose proof (bpow_cancel j) as C.
      transitivity ((IZR k + 1) * (bpow j * bpow (- j)) - bpow (- j));
        [ring | rewrite C; ring]. }
    rewrite E in Hf.
    pose proof (RN0_mono _ _ _ _ Hv Hf Hi).
    pose proof (bpow_pos (- j)). lra.
Qed.

(** A float holds its own value exactly. *)
Lemma valid_exact (m : positive) (e : Z) :
  SpecFloat.bounded prec emax m e = true ->
  RN (IZR (Zpos m) * bpow e) (IZR (Zpos m) * bpow e).
Proof.
  intros B. destruct (bounded_inv m e B) as [D [E _]].
  apply dyadic_exact; [| lia].
  pose proof (digits2_bounds m) as [_ DB].
  apply Z.lt_le_trans with (2 ^ Zpos (digits2_pos m))%Z; [exact DB |].
  apply Z.pow_le_mono_r; lia.
Qed.

Lemma stored_exact (r : spec_float) (v : R) :
  stores r false v -> valid_binary r = true -> RN0 v v.
Proof.
  destruct r as [s | s | | s m e]; cbn [stores]; try contradiction.
  - intros [_ ->] _. left. split; reflexivity.
  - intros [_ ->] B. right. apply valid_exact. exact B.
Qed.

Lemma stored_below_top (r : spec_float) (v : R) :
  stores r false v -> valid_binary r = true -> v < bpow 1024.
Proof.
  destruct r as [s | s | | s m e]; cbn [stores]; try contradiction.
  - intros [_ ->] _. apply bpow_pos.
  - intros [_ ->] B. destruct (bounded_inv m e B) as [D [E _]].
    pose proof (digits2_bounds m) as [_ DB].
    apply Rlt_le_trans with (bpow (Zpos (digits2_pos m)) * bpow e).
    + apply Rmult_lt_compat_r; [apply bpow_pos |].
      rewrite <- IZR_pow2 by lia. apply IZR_lt. exact DB.
    + rewrite <- bpow_add. apply bpow_le. lia.
Qed.

(** Addition of two floats that are not negative. *)
Lemma shl_align_value (m : positive) (e e' : Z) :
  (e' <= e)%Z ->
  IZR (Zpos (fst (shl_align m e e'))) * bpow e' = IZR (Zpos m) * bpow e.
Proof.
  intros L. unfold shl_align.
  destruct (e' - e)%Z as [| d | d] eqn:Ed; cbn [fst].
  - replace e' with e by lia. reflexivity.
  - lia.
  - rewrite iter_xO, mult_IZR, IZR_pow2 by lia.
    rewrite Rmult_assoc, <- bpow_add. f_equal. f_equal. lia.
Qed.

Lemma SFadd_nonneg (a b : spec_float) (va vb : R) :
  stores a false va -> valid_binary a = true ->
  stores b false vb -> valid_binary b = true ->
  exists v : R, RN0 (va + vb) v /\ outcome false v (SFadd prec emax a b).
Proof.
  intros Ha Va Hb Vb.
  pose proof (stored_exact a va Ha Va) as Xa.
  pose proof (stored_exact b vb Hb Vb) as Xb.
  pose proof (stored_below_top a va Ha Va) as Ta.
  pose proof (stored_below_top b vb Hb Vb) as Tb.
  destruct a as [sa | sa | | sa ma ea]; cbn [stores] in Ha;
    try contradiction; destruct Ha as [-> Ea];
    destruct b as [sb | sb | | sb mb eb]; cbn [stores] in Hb;
    try contradiction; destruct Hb as [-> Eb]; cbn [SFadd].
  - exists 0. split; [left; split; [lra | reflexivity] | apply zero_outcome].
  - exists vb. split; [rewrite Ea, Rplus_0_l; exact Xb |].
    left. split; [exact Tb |]. split; [| exact Vb]. split; [reflexivity | exact Eb].
  - exists va. split; [rewrite Eb, Rplus_0_r; exact Xa |].
    left. split; [exact Ta |]. split; [| exact Va]. split; [reflexivity | exact Ea].
  - cbn [cond_Zopp].
    set (ez := Z.min ea eb).
    rewrite <- Pos2Z.inj_add. cbn [binary_normalize].
    destruct (binary_round_outcome false
                (fst (shl_align ma ea ez) + fst (shl_align mb eb ez)) ez)
      as [v [Hv Ho]].
    exists v. split; [| exact Ho]. right.
    rewrite Pos2Z.inj_add, plus_IZR, Rmult_plus_distr_r in Hv.
    rewrite !shl_align_value in Hv by (unfold ez; lia).
    rewrite Ea, Eb. exact Hv.
Qed.

Lemma half_even_div_nearest (a b : Z) :
  (0 < b)%Z -> nearest_even (IZR a / IZR b) (half_even_div a b).
Proof.
  intros Hd. unfold half_even_div, nearest_even.
  pose proof (Z.div_mod a b ltac:(lia)) as DM.
  pose proof (Z.mod_pos_bound a b Hd) as MB.
  set (q := (a / b)%Z) in *. set (r := (a mod b)%Z) in *.
  assert (Pd : 0 < IZR b) by (apply IZR_lt; exact Hd).
  assert (V : IZR a / IZR b = IZR q + IZR r / IZR b).
  { rewrite DM, plus_IZR, mult_IZR. field. lra. }
  rewrite V.
  assert (Half : IZR r / IZR b * IZR b = IZR r) by (field; lra).
  destruct (Z.compare_spec (2 * r) b) as [C | C | C].
  - assert (F : IZR r / IZR b = / 2).
    { assert (IZR b = 2 * IZR r) by (rewrite <- C, mult_IZR; reflexivity).
      rewrite H. field. lra. }
    rewrite F.
    destruct (Z.even q) eqn:Ev.
    + split; [lra | auto].
    + rewrite plus_IZR. split; [lra |]. intros _.
      rewrite Z.even_add, Ev. reflexivity.
  - assert (F : IZR r / IZR b < / 2).
    { apply IZR_lt in C. rewrite mult_IZR in C.
      apply Rmult_lt_reg_r with (IZR b); [exact Pd |].
      rewrite Half. lra. }
    assert (R0 : 0 <= IZR r / IZR b).
    { apply Rmult_le_pos; [apply IZR_le; lia |].
      left. apply Rinv_0_lt_compat. exact Pd. }
    split; [lra | intros [E | E]; lra].
  - assert (F : / 2 < IZR r / IZR b).
    { apply IZR_lt in C. rewrite mult_IZR in C.
      apply Rmult_lt_reg_r with (IZR b); [exact Pd |].
      rewrite Half. lra. }
    assert (G : IZR r / IZR b < 1).
    { apply Rmult_lt_reg_r with (IZR b); [exact Pd |].
      rewrite Half, Rmult_1_l. apply IZR_lt. lia. }
    rewrite plus_IZR.
    split; [lra | intros [E | E]; lra].
Qed.

(** [round_half_even m e] is [m * 2^e] rounded to the nearest integer,
    ties to even. *)
Lemma round_half_even_nearest (m : positive) (e : Z) :
  nearest_even (IZR (Zpos m) * bpow e) (round_half_even m e).
Proof.
  unfold round_half_even.
  destruct (Z.leb_spec 0 e) as [He | He].
  - unfold nearest_even. rewrite Z.shiftl_mul_pow2 by lia.
    rewrite mult_IZR, IZR_pow2 by lia.
    split; [lra | intros [E | E]; lra].
  - replace (bpow e) with (/ IZR (2 ^ (- e))).
    + apply half_even_div_nearest. apply Z.pow_pos_nonneg; lia.
    + rewrite IZR_pow2, bpow_opp, Rinv_inv by lia. reflexivity.
Qed.

(** [round] of a stored value is the nearest integer, ties to even. *)
Lemma round_of_stored (r : spec_float) (v : R) :
  stores r false v ->
  exists n : Z, round_of_SF r = Ok n /\ nearest_even v n.
Proof.
  destruct r as [s | s | | s m e]; cbn [stores]; try contradiction.
  - intros [_ ->]. exists 0%Z. split; [reflexivity |].
    split; [lra | intros [E | E]; lra].
  - intros [-> ->]. cbn [round_of_SF cond_Zopp]. eexists.
    split; [reflexivity | apply round_half_even_nearest].
Qed.

Lemma nearest_even_unique (x : R) (n n' : Z) :
  nearest_even x n -> nearest_even x n' -> n = n'.
Proof.
  intros H H'.
  pose proof (nearest_even_mono x x n n' H H' ltac:(lra)).
  pose proof (nearest_even_mono x x n' n H' H ltac:(lra)). lia.
Qed.

(** [float(a) / float(b)] cut to an integer is the quotient of the
    integers, for operands that floats hold and a quotient small
    enough for the floats around it to be finer than [1 / b]. *)
Lemma int_truediv (a b j : Z) :
  (0 <= a < 2 ^ 53)%Z -> (0 < b < 2 ^ 53)%Z ->
  (0 <= j <= 1074)%Z -> (b <= 2 ^ j)%Z ->
  ((a / b + 1) * 2 ^ j <= 2 ^ 53)%Z ->
  Py.int (Py.truediv a b) = Ok (a / b)%Z.
Proof.
  intros Ha Hb Hj Bj Hk.
  unfold Py.int, Py.truediv. rewrite div_spec, !Prim2SF_float_of_int.
  unfold SF64div.
  destruct (normalize_outcome a ltac:(lia)) as [va [RA OA]].
  destruct (normalize_outcome b ltac:(lia)) as [vb [RB OB]].
  assert (va = IZR a) by (apply (RN0_fun (IZR a)); [exact RA | now apply RN0_int]).
  assert (vb = IZR b) by (apply (RN0_fun (IZR b)); [exact RB | apply RN0_int; lia]).
  subst va vb.
  assert (T : forall z : Z, (z < 2 ^ 53)%Z -> IZR z < bpow 1024).
  { intros z Hz. apply Rlt_trans with (bpow 53); [| apply bpow_lt; lia].
    rewrite <- IZR_pow2 by lia. apply IZR_lt. exact Hz. }
  destruct (outcome_stored _ _ _ OA (T a ltac:(lia))) as [SA VA].
  destruct (outcome_stored _ _ _ OB (T b ltac:(lia))) as [SB VB].
  assert (Pb : 0 < IZR b) by (apply IZR_lt; lia).
  destruct (SFdiv_nonneg _ _ (IZR a) (IZR b) SA SB Pb) as [q [RQ OQ]].
  pose proof (Z.div_mod a b ltac:(lia)) as DM.
  pose proof (Z.mod_pos_bound a b ltac:(lia)) as MB.
  set (k := (a / b)%Z) in *. set (r := (a mod b)%Z) in *.
  assert (K0 : (0 <= k)%Z) by (apply Z.div_pos; lia).
  assert (B : IZR k <= q < IZR k + 1).
  { apply (RN0_between (IZR a / IZR b) q k j RQ K0 Hj Hk).
    assert (E : IZR a / IZR b = IZR k + IZR r / IZR b).
    { rewrite DM, plus_IZR, mult_IZR. field. lra. }
    rewrite E.
    assert (R0 : 0 <= IZR r / IZR b).
    { apply Rmult_le_pos; [apply IZR_le; lia |].
      left. apply Rinv_0_lt_compat. exact Pb. }
    assert (R1 : IZR r / IZR b <= 1 - / IZR b).
    { apply Rmult_le_reg_r with (IZR b); [exact Pb |].
      replace (IZR r / IZR b * IZR b) with (IZR r) by (field; lra).
      replace ((1 - / IZR b) * IZR b) with (IZR b - 1) by (field; lra).
      rewrite <- minus_IZR. apply IZR_le. lia. }
    assert (J : bpow (- j) <= / IZR b).
    { rewrite bpow_opp. apply Rinv_le_contravar; [exact Pb |].
      rewrite <- IZR_pow2 by lia. apply IZR_le. exact Bj. }
    split; lra. }
  assert (Q : q < bpow 1024).
  { apply Rlt_le_trans with (IZR (k + 1)); [rewrite plus_IZR; lra |].
    apply Rle_trans with (bpow 53); [| apply bpow_le; lia].
    rewrite <- IZR_pow2 by lia. apply IZR_le.
    assert (0 < 2 ^ j)%Z by (apply Z.pow_pos_nonneg; lia). nia. }
  destruct (outcome_stored _ _ _ OQ Q) as [SQ VQ].
  destruct (int_of_stored _ q SQ) as [z [E Bz]].
  rewrite E. f_equal.
  assert (IZR z < IZR (k + 1)) by (rewrite plus_IZR; lra).
  assert (IZR k < IZR (z + 1)) by (rewrite plus_IZR; lra).
  apply lt_IZR in H, H0. lia.
Qed.

(** Nothing of any positive total is 0, however large the total. *)
Lemma scaled_zero (b : Z) : (0 < b)%Z -> Py.int_of_SF (scaled 0 b) = Ok 0%Z.
Proof.
  intros Hb. unfold scaled. cbn [binary_normalize].
  destruct (normalize_outcome b ltac:(lia)) as [vb [RB OB]].
  pose proof (RN0_ge_one b vb ltac:(lia) RB) as Pb.
  rewrite Prim2SF_hundred.
  destruct (outcome_cases _ _ _ OB) as [[_ [SB _]] | ->]; [| reflexivity].
  destruct (binary_normalize prec emax b 0 false) as [s | s | | s m e];
    cbn [stores] in SB; try contradiction; destruct SB as [-> Eb];
    [lra | reflexivity].
Qed.

End Exact.

(** * Percentages against whole division *)

Module Percent.

Import Binary64 FloatFacts Exact.
Local Open Scope R_scope.

(** The floats with 52 digits after the point that enclose [a / b]. *)
Lemma quotient_on_grid (a b lo hi : Z) (q : R) :
  (0 < b)%Z -> (0 <= lo)%Z -> (hi < 2 ^ 53)%Z ->
  (lo * b <= a * 2 ^ 52 <= hi * b)%Z ->
  RN0 (IZR a / IZR b) q ->
  IZR lo * bpow (-52) <= q <= IZR hi * bpow (-52).
Proof.
  intros Hb Hlo Hhi [L H] Hq.
  assert (Pb : 0 < IZR b) by (apply IZR_lt; exact Hb).
  assert (Pe : 0 < bpow (-52)) by apply bpow_pos.
  assert (TE : IZR (2 ^ 52) * bpow (-52) = 1).
  { rewrite IZR_pow2 by lia. apply (bpow_cancel 52). }
  assert (Hh : (0 <= hi)%Z) by nia.
  assert (Hl : (lo < 2 ^ 53)%Z) by nia.
  set (x := IZR a / IZR b) in *.
  assert (X : x * IZR (2 ^ 52) * IZR b = IZR a * IZR (2 ^ 52))
    by (unfold x; field; lra).
  assert (E : x = x * IZR (2 ^ 52) * bpow (-52))
    by (rewrite Rmult_assoc, TE; ring).
  split.
  - apply (RN0_mono _ _ _ _ (RN0_dyadic lo (-52) ltac:(lia) ltac:(lia)) Hq).
    rewrite E. apply Rmult_le_compat_r; [lra |].
    apply Rmult_le_reg_r with (IZR b); [exact Pb |].
    rewrite X, <- !mult_IZR. apply IZR_le. exact L.
  - apply (RN0_mono _ _ _ _ Hq (RN0_dyadic hi (-52) ltac:(lia) ltac:(lia))).
    rewrite E. apply Rmult_le_compat_r; [lra |].
    apply Rmult_le_reg_r with (IZR b); [exact Pb |].
    rewrite X, <- !mult_IZR. apply IZR_le. exact H.
Qed.

(** [int(a / b * 100)] against the whole quotient [100 * a // b], for
    [a] within [0 .. b] and [b] up to [2^44]: the same number when [b]
    does not divide [100 * a], that number or one less when it does. *)
Lemma scaled_int_floor (a b : Z) :
  (0 <= a <= b)%Z -> (0 < b <= 2 ^ 44)%Z ->
  exists z : Z,
    Py.int_of_SF (scaled a b) = Ok z /\
    (100 * a / b - 1 <= z <= 100 * a / b)%Z /\
    (0 <= z <= 100)%Z /\
    ((100 * a) mod b <> 0 -> z = 100 * a / b)%Z.
Proof.
  intros Hab Hb.
  assert (P44 : (2 ^ 44 < 2 ^ 53 < 2 ^ 1023)%Z) by (split; reflexivity).
  destruct (scaled_int_within a b Hab ltac:(lia))
    as [z [w [E [[va [vb [q [Ha [Hv [Pb [Hq Hw]]]]]]] [[B1 B2] [W0 W1]]]]]].
  assert (va = IZR a) by (apply (RN0_fun (IZR a)); [exact Ha | apply RN0_int; lia]).
  assert (vb = IZR b) by (apply (RN0_fun (IZR b)); [exact Hv | apply RN0_int; lia]).
  subst va vb. clear Ha Hv.
  pose proof (Z.div_mod (100 * a) b ltac:(lia)) as DM.
  pose proof (Z.mod_pos_bound (100 * a) b ltac:(lia)) as MB.
  set (k := (100 * a / b)%Z) in *. set (r := ((100 * a) mod b)%Z) in *.
  assert (K : (0 <= k <= 100)%Z) by (split; nia).
  (* the grid around the quotient *)
  pose proof (Z.div_mod (a * 2 ^ 52) b ltac:(lia)) as DL.
  pose proof (Z.mod_pos_bound (a * 2 ^ 52) b ltac:(lia)) as ML.
  set (lo := (a * 2 ^ 52 / b)%Z) in *. set (rl := ((a * 2 ^ 52) mod b)%Z) in *.
  assert (T : (2 ^ 52 = 4503599627370496)%Z) by reflexivity.
  assert (T44 : (2 ^ 44 = 17592186044416)%Z) by reflexivity.
  assert (T46 : (2 ^ 46 = 70368744177664)%Z) by reflexivity.
  assert (T53 : (2 ^ 53 = 9007199254740992)%Z) by reflexivity.
  rewrite T in *. rewrite T44 in *. rewrite T53 in *.
  assert (Lo0 : (0 <= lo)%Z) by (apply Z.div_pos; lia).
  assert (Lo1 : (lo <= 4503599627370496)%Z) by nia.
  destruct (quotient_on_grid a b lo (lo + 1) q ltac:(lia) Lo0 ltac:(rewrite T53; lia)
              ltac:(rewrite T; nia) Hq) as [QL QH].
  assert (Pe : 0 < bpow (-52)) by apply bpow_pos.
  assert (TE : 4503599627370496 * bpow (-52) = 1).
  { change 4503599627370496 with (IZR (2 ^ 52)).
    rewrite IZR_pow2 by lia. apply (bpow_cancel 52). }
  assert (B46 : bpow (-46) = 64 * bpow (-52)).
  { change (-46)%Z with (6 + -52)%Z. rewrite bpow_add, <- IZR_pow2 by lia.
    reflexivity. }
  assert (Zw : (0 <= z <= 100)%Z).
  { assert (IZR (-1) < IZR z) by (change (IZR (-1)) with (-1); lra).
    assert (IZR z < IZR 101) by (change (IZR 101) with 101; lra).
    apply lt_IZR in H, H0. lia. }
  (* never above the whole quotient *)
  assert (Up : (z <= k)%Z).
  { assert (N : (100 * (lo + 1) <= 64 * ((k + 1) * 2 ^ 46 - 1))%Z)
      by (rewrite T46; nia).
    pose proof (RN0_dyadic ((k + 1) * 2 ^ 46 - 1) (-46)
                  ltac:(rewrite T46, T53; lia) ltac:(lia)) as S.
    assert (Q : q * 100 <= IZR ((k + 1) * 2 ^ 46 - 1) * bpow (-46)).
    { rewrite B46. apply IZR_le in N. rewrite !mult_IZR in N.
      apply Rle_trans with (100 * IZR (lo + 1) * bpow (-52)); [lra |].
      replace (IZR ((k + 1) * 2 ^ 46 - 1) * (64 * bpow (-52)))
        with (64 * IZR ((k + 1) * 2 ^ 46 - 1) * bpow (-52)) by ring.
      apply Rmult_le_compat_r; [lra | exact N]. }
    pose proof (RN0_mono _ _ _ _ Hw S Q) as W.
    assert (V : IZR ((k + 1) * 2 ^ 46 - 1) * bpow (-46) < IZR (k + 1)).
    { rewrite B46, minus_IZR, mult_IZR, T46.
      replace (IZR (k + 1)) with (IZR (k + 1) * (4503599627370496 * bpow (-52)))
        by (rewrite TE; ring).
      nra. }
    assert (IZR z < IZR (k + 1)) by lra.
    apply lt_IZR in H. lia. }
  (* at most one below it *)
  assert (Down : (k - 1 <= z)%Z).
  { destruct (Z.eq_dec k 0) as [-> | K0]; [lia |].
    assert (N : (4503599627370496 * (k - 1) <= 100 * lo)%Z) by nia.
    assert (Q : IZR (k - 1) <= q * 100).
    { apply IZR_le in N. rewrite !mult_IZR in N.
      replace (IZR (k - 1)) with (4503599627370496 * IZR (k - 1) * bpow (-52))
        by (transitivity (IZR (k - 1) * (4503599627370496 * bpow (-52)));
            [ring | rewrite TE; ring]).
      apply Rle_trans with (100 * IZR lo * bpow (-52)); [| lra].
      apply Rmult_le_compat_r; [lra | exact N]. }
    pose proof (RN0_mono _ _ _ _ (RN0_int (k - 1) ltac:(rewrite T53; lia)) Hw Q) as W.
    assert (IZR (k - 1) < IZR (z + 1)) by (rewrite (plus_IZR z); lra).
    apply lt_IZR in H. lia. }
  exists z. split; [exact E |]. split; [lia |]. split; [exact Zw |].
  intros R0. fold r in R0.
  assert (N : (4503599627370496 * k <= 100 * lo)%Z) by nia.
  assert (Q : IZR k <= q * 100).
  { apply IZR_le in N. rewrite !mult_IZR in N.
    replace (IZR k) with (4503599627370496 * IZR k * bpow (-52))
      by (transitivity (IZR k * (4503599627370496 * bpow (-52)));
          [ring | rewrite TE; ring]).
    apply Rle_trans with (100 * IZR lo * bpow (-52)); [| lra].
    apply Rmult_le_compat_r; [lra | exact N]. }
  pose proof (RN0_mono _ _ _ _ (RN0_int k ltac:(rewrite T53; lia)) Hw Q) as W.
  assert (IZR k < IZR (z + 1)) by (rewrite (plus_IZR z); lra).
  apply lt_IZR in H. lia.
Qed.

End Percent.

(** * The progress of a run *)

Module ProgressFacts.
Import Sampler SamplerFacts.

Local Open Scope string_scope.










(** What [Signal(int)] does to a value beyond a C [int]: with a frame
    count of 1 and a frame the source reports at position 30000000, the
    run computes 3000000000 and the slot receives -1294967296. *)
Example progress_beyond_int :
  progress_value 30000000 1 = Ok 3000000000 /\
  run write_ok (mkExtractor "in.mp4" "out" 0)
      (mkCapture 30%float 1 [(10%nat, 30000000)])
  = ([Imwrite "out/snapshot_0000.jpg" 10%nat; ProgressEmit (-1294967296);
      Release; FinishedEmit], Ok tt).
Proof. split; vm_compute; reflexivity. Qed.

End ProgressFacts.

(** * The position the dialog shows *)

Module PositionFacts.
Import Review ReviewFacts.

Local Open Scope string_scope.

(** C9, as amended.  For a cursor within [0 .. max(0, len - 10)] on a
    list of at most [2^44] files, [update_position_info] returns,
    writes on the label the range [cursor + 1] to
    [min(cursor + 10, len)], both ends included, and the length, and
    sets the bar to [int(cursor / max(1, len) * 100)] as binary64
    computes it: a number from 0 to 100 that is the whole quotient
    [100 * cursor // max(1, len)] when [max(1, len)] does not divide
    [100 * cursor], and that quotient or one less when it does.  It
    changes nothing else of the dialog. *)
Theorem position_summary_of_cursor (d : ReviewDialog) :
  0 <= current_index d <= Z.max 0 (len d - 10) ->
  len d <= 2 ^ 44 ->
  exists v : Z,
    snd (update_position_info d) = Ok tt /\
    position_label (fst (update_position_info d))
    = "Viewing frames " ++ Py.str (current_index d + 1) ++ "-"
      ++ Py.str (Z.min (current_index d + 10) (len d))
      ++ " of " ++ Py.str (len d) /\
    position_progress (fst (update_position_info d)) = Some v /\
    image_files (fst (update_position_info d)) = image_files d /\
    current_index (fst (update_position_info d)) = current_index d /\
    image_grid (fst (update_position_info d)) = image_grid d /\
    100 * current_index d / Z.max 1 (len d) - 1 <= v
      <= 100 * current_index d / Z.max 1 (len d) /\
    0 <= v <= 100 /\
    ((100 * current_index d) mod Z.max 1 (len d) <> 0 ->
     v = 100 * current_index d / Z.max 1 (len d)).
Proof.
  intros Hc Hl.
  assert (P : 1 < 2 ^ 44) by reflexivity.
  destruct (Percent.scaled_int_floor (current_index d) (Z.max 1 (len d)))
    as [v [E [B [C D]]]]; [lia | lia |].
  exists v.
  unfold update_position_info, percent.
  cbn [current_index set_label]. fold (len d).
  change (len (set_label d _)) with (len d).
  rewrite FloatFacts.int_scaled, E.
  cbn [fst snd position_label position_progress image_files current_index
       image_grid set_progress set_label].
  unfold viewing_text. auto 10.
Qed.

Lemma position_summary_of_cursor_witness :
  exists v : Z,
    snd (update_position_info (fst (jump_to_end (fst (init fifteen_files)))))
    = Ok tt /\
    position_label
      (fst (update_position_info (fst (jump_to_end (fst (init fifteen_files))))))
    = "Viewing frames " ++ Py.str (5 + 1) ++ "-" ++ Py.str (Z.min (5 + 10) 15)
      ++ " of " ++ Py.str 15 /\
    position_progress
      (fst (update_position_info (fst (jump_to_end (fst (init fifteen_files))))))
    = Some v /\
    image_files
      (fst (update_position_info (fst (jump_to_end (fst (init fifteen_files))))))
    = image_files (fst (jump_to_end (fst (init fifteen_files)))) /\
    current_index
      (fst (update_position_info (fst (jump_to_end (fst (init fifteen_files))))))
    = 5 /\
    image_grid
      (fst (update_position_info (fst (jump_to_end (fst (init fifteen_files))))))
    = image_grid (fst (jump_to_end (fst (init fifteen_files)))) /\
    100 * 5 / Z.max 1 15 - 1 <= v <= 100 * 5 / Z.max 1 15 /\
    0 <= v <= 100 /\
    ((100 * 5) mod Z.max 1 15 <> 0 -> v = 100 * 5 / Z.max 1 15).
Proof.
  apply (position_summary_of_cursor
           (fst (jump_to_end (fst (init fifteen_files))))).
  - split; vm_compute; discriminate.
  - vm_compute. discriminate.
Defined.

(** A review of a hundred and fifty files, and the dialog after eight
    clicks on Next and one on Jump Forward. *)
Definition hundred_fifty_files : list string :=
  map (fun i => Sampler.os_path_join "out" (Sampler.snapshot_name i))
      (List.seq 0 150).

Definition ninth_click : ReviewDialog :=
  last (session (fst (init hundred_fifty_files))
          [Next; Next; Next; Next; Next; Next; Next; Next; JumpForward])
       (fst (init hundred_fifty_files)).

(** C9 as stated fails on the percentage: with the cursor on 87 of 150
    files, where eight clicks on Next and one on Jump Forward put it,
    the bar is set to 57, and the floor of [87 / 150 * 100] is 58.  In
    binary64 [87 / 150 * 100] is [57.99999999999999], and [int] cuts
    it. *)
Lemma percentage_below_floor :
  current_index ninth_click = 87 /\
  len ninth_click = 150 /\
  87 <= Z.max 0 (150 - 10) /\
  update_position_info ninth_click = (ninth_click, Ok tt) /\
  position_label ninth_click = "Viewing frames 88-97 of 150" /\
  position_progress ninth_click = Some 57 /\
  100 * 87 / Z.max 1 150 = 58.
Proof.
  repeat match goal with |- _ /\ _ => split end;
    vm_compute; try reflexivity; discriminate.
Qed.

End PositionFacts.


(** * The jump of five percent *)

Module JumpFacts.

Import Binary64 FloatFacts Exact.
Local Open Scope R_scope.

Lemma Prim2SF_0_05 :
  Prim2SF Py.lit_0_05 = S754_finite false 7205759403792794 (-57).
Proof. reflexivity. Qed.

(** The literal [0.05] is one twentieth of [1 + 2^-54]. *)
Lemma twentieth_stored :
  exists c : R,
    stores (Prim2SF Py.lit_0_05) false c /\
    valid_binary (Prim2SF Py.lit_0_05) = true /\
    20 * c = 1 + / 18014398509481984.
Proof.
  exists (IZR 7205759403792794 * bpow (-57)).
  rewrite Prim2SF_0_05. split; [split; reflexivity |].
  split; [reflexivity |].
  change (-57)%Z with (- (57))%Z. rewrite bpow_opp, <- IZR_pow2 by lia.
  change (2 ^ 57)%Z with 144115188075855872%Z. lra.
Qed.

Lemma int_of_5_percent (n : Z) :
  (0 <= n < 2 ^ 52)%Z ->
  Py.int (Py.mul_int_float n Py.lit_0_05) = Ok (n / 20)%Z.
Proof.
  intros [Hn Hb].
  unfold Py.int, Py.mul_int_float. rewrite mul_spec, Prim2SF_float_of_int.
  unfold SF64mul.
  destruct (normalize_outcome n Hn) as [va [RA OA]].
  assert (va = IZR n).
  { apply (RN0_fun (IZR n)); [exact RA | apply RN0_int; lia]. }
  subst va.
  assert (T52 : IZR n < 4503599627370496).
  { apply (IZR_lt n 4503599627370496). exact Hb. }
  assert (Top : 4503599627370496 < bpow 1024).
  { change 4503599627370496 with (IZR (2 ^ 52)). rewrite IZR_pow2 by lia.
    apply bpow_lt. lia. }
  destruct (outcome_stored _ _ _ OA ltac:(lra)) as [SA VA].
  destruct twentieth_stored as [c [SC [VC Ec]]].
  destruct (SFmul_nonneg _ _ (IZR n) c SA VA SC VC) as [w [RW OW]].
  pose proof (Z.div_mod n 20 ltac:(lia)) as DM.
  pose proof (Z.mod_pos_bound n 20 ltac:(lia)) as MB.
  set (k := (n / 20)%Z) in *. set (r := (n mod 20)%Z) in *.
  assert (Hk : (0 <= k)%Z) by (apply Z.div_pos; lia).
  assert (En : IZR n = 20 * IZR k + IZR r)
    by (rewrite DM, plus_IZR, mult_IZR; reflexivity).
  assert (R0 : 0 <= IZR r) by (apply IZR_le; lia).
  assert (R19 : IZR r <= 19) by (apply (IZR_le r 19); lia).
  assert (K0 : 0 <= IZR k) by (apply IZR_le; lia).
  assert (B : IZR k <= w < IZR k + 1).
  { apply (RN0_between (IZR n * c) w k 5 RW Hk ltac:(lia)); [lia |].
    change (-5)%Z with (- (5))%Z. rewrite bpow_opp, <- IZR_pow2 by lia.
    change (IZR (2 ^ 5)) with 32.
    assert (P : 20 * (IZR n * c) = IZR n + IZR n / 18014398509481984)
      by (transitivity (IZR n * (20 * c)); [ring | rewrite Ec; field]).
    split; lra. }
  destruct (outcome_stored _ _ _ OW ltac:(lra)) as [SW VW].
  destruct (int_of_stored _ w SW) as [z [E Bz]].
  rewrite E. f_equal.
  assert (IZR z < IZR (k + 1)) by (rewrite plus_IZR; lra).
  assert (IZR k < IZR (z + 1)) by (rewrite plus_IZR; lra).
  apply lt_IZR in H, H0. lia.
Qed.

End JumpFacts.

(** * Pages of the review dialog *)

Module PagerFacts.
Import Review.
Import ReviewFacts.


(** The files a page at cursor [c] shows. *)
Definition page (files : list string) (c : Z) : list string :=
  firstn 10 (skipn (Z.to_nat c) files).

Lemma getitem_nth {A : Type} (l : list A) (i : Z) (a : A) :
  0 <= i -> nth_error l (Z.to_nat i) = Some a -> Py.getitem l i = Ok a.
Proof.
  intros Hi E. unfold Py.getitem.
  assert (Hn : (Z.to_nat i < List.length l)%nat)
    by (apply nth_error_Some; congruence).
  destruct (Z.ltb_spec i 0); [lia |].
  destruct (Z.ltb_spec i 0); [lia |].
  destruct (Z.leb_spec (Z.of_nat (List.length l)) i); [lia |].
  cbn. now rewrite E.
Qed.

Lemma skipn_cons_nth {A : Type} (l : list A) : forall (n : nat) (a : A),
  nth_error l n = Some a -> skipn n l = a :: skipn (S n) l.
Proof.
  induction l as [| x l IH]; intros [| n] a E; cbn in *; try discriminate.
  - congruence.
  - exact (IH n a E).
Qed.

Lemma show_loop_from (files : list string) (c : Z) (k : nat) :
  0 <= c -> forall (i : nat) (grid : list string),
  show_loop files c (map Z.of_nat (List.seq i k)) grid
  = (grid ++ firstn k (skipn (Z.to_nat c + i) files), Ok tt).
Proof.
  intros Hc. induction k as [| k IH]; intros i grid; cbn [List.seq map show_loop].
  - cbn. now rewrite app_nil_r.
  - destruct (Z.leb_spec (Z.of_nat (List.length files)) (c + Z.of_nat i)) as [L | L].
    + rewrite skipn_all2 by lia. cbn. now rewrite app_nil_r.
    + destruct (nth_error files (Z.to_nat c + i)) as [f |] eqn:E.
      2:{ apply nth_error_None in E. lia. }
      rewrite (getitem_nth files (c + Z.of_nat i) f); [| lia |].
      2:{ replace (Z.to_nat (c + Z.of_nat i)) with (Z.to_nat c + i)%nat by lia.
          exact E. }
      rewrite IH, (skipn_cons_nth files _ f E). cbn [firstn].
      rewrite <- app_assoc. cbn [app].
      replace (Z.to_nat c + S i)%nat with (S (Z.to_nat c + i)) by lia.
      reflexivity.
Qed.

Lemma show_loop_page (files : list string) (c : Z) :
  0 <= c -> show_loop files c range10 [] = (page files c, Ok tt).
Proof.
  intros Hc.
  change range10 with (map Z.of_nat (List.seq 0 10)).
  rewrite show_loop_from by exact Hc. unfold page. cbn [app].
  now rewrite Nat.add_0_r.
Qed.


Lemma jump_amount_floor (n : Z) :
  0 <= n < 2 ^ 52 -> jump_amount n = Ok (Z.max 1 (n / 20)).
Proof.
  intros Hn. unfold jump_amount.
  rewrite (JumpFacts.int_of_5_percent n Hn). reflexivity.
Qed.

Lemma percent_in_list (c n : Z) :
  0 <= c <= Z.max 1 n -> n < 2 ^ 1023 ->
  exists v : Z, percent c n = Ok v /\ 0 <= v <= 100.
Proof.
  intros Hc Hn. unfold percent. rewrite FloatFacts.int_scaled.
  assert (P : 1 < 2 ^ 1023) by reflexivity.
  apply FloatFacts.scaled_int_percent; lia.
Qed.

(** What a redraw leaves on the dialog. *)
Definition drawn (files : list string) (c v : Z) : ReviewDialog :=
  mkDialog files c (page files c)
    (viewing_text (c + 1)
       (Z.min (c + 10) (Z.of_nat (List.length files)))
       (Z.of_nat (List.length files)))
    (Some v).

Lemma show_images_drawn (d : ReviewDialog) :
  0 <= current_index d <= Z.max 1 (len d) -> len d < 2 ^ 1023 ->
  exists v : Z,
    percent (current_index d) (len d) = Ok v /\ 0 <= v <= 100 /\
    show_images d = (drawn (image_files d) (current_index d) v, Ok tt).
Proof.
  intros Hc Hn.
  destruct (percent_in_list (current_index d) (len d) Hc Hn) as [v [E B]].
  exists v. split; [exact E |]. split; [exact B |].
  unfold show_images. cbn [image_files current_index set_grid].
  rewrite show_loop_page by lia.
  unfold update_position_info.
  cbn [image_files current_index set_grid set_label].
  change (len (set_grid (set_grid d []) (page (image_files d) (current_index d))))
    with (len d).
  change (len (set_label _ _)) with (len d).
  rewrite E. reflexivity.
Qed.


(** A dialog that shows the page of its cursor: drawing it again
    changes nothing. *)
Definition shows (d : ReviewDialog) : Prop := show_images d = (d, Ok tt).

(** The results of the clicks of a session, in order. *)
Fixpoint outcomes (d : ReviewDialog) (bs : list nav) : list (result unit) :=
  match bs with
  | [] => []
  | b :: rest => snd (click b d) :: outcomes (fst (click b d)) rest
  end.

Lemma len_drawn (files : list string) (c v : Z) :
  len (drawn files c v) = Z.of_nat (List.length files).
Proof. reflexivity. Qed.

Lemma show_images_same (d1 d2 : ReviewDialog) :
  image_files d1 = image_files d2 -> current_index d1 = current_index d2 ->
  0 <= current_index d2 <= Z.max 1 (len d2) -> len d2 < 2 ^ 1023 ->
  show_images d1 = show_images d2.
Proof.
  intros Ef Ec Hc Hn.
  assert (El : len d1 = len d2) by (unfold len; now rewrite Ef).
  destruct (show_images_drawn d2 Hc Hn) as [v [E [_ S]]].
  destruct (show_images_drawn d1) as [v' [E' [_ S']]];
    [rewrite Ec, El; exact Hc | rewrite El; exact Hn |].
  rewrite Ec, El, E in E'. inversion E'; subst v'.
  rewrite S, S', Ef, Ec. reflexivity.
Qed.

Lemma show_images_shows (d : ReviewDialog) :
  0 <= current_index d <= Z.max 1 (len d) -> len d < 2 ^ 1023 ->
  shows (fst (show_images d)) /\ snd (show_images d) = Ok tt.
Proof.
  intros Hc Hn.
  destruct (show_images_drawn d Hc Hn) as [v [E [_ S]]].
  split; [| now rewrite S].
  unfold shows.
  rewrite (show_images_same (fst (show_images d)) d);
    rewrite ?S; auto.
Qed.

Lemma click_cases (b : nav) (d : ReviewDialog) (a : Z) :
  jump_amount (len d) = Ok a ->
  click b d = (d, Ok tt) \/
  click b d
  = show_images (set_index d (next_index b (len d) (current_index d))).
Proof.
  intros Ha.
  destruct b; cbn [click next_index];
    unfold show_next, show_previous, jump_forward, jump_back,
           jump_to_start, jump_to_end;
    rewrite ?Ha;
    try match goal with
        | |- context [if ?c then _ else _] => destruct c
        end; auto.
Qed.

Lemma page_not_empty (files : list string) (c : Z) :
  0 <= c < Z.of_nat (List.length files) -> page files c <> [].
Proof.
  intros Hc. unfold page.
  destruct (nth_error files (Z.to_nat c)) as [f |] eqn:E.
  - rewrite (skipn_cons_nth files _ f E). discriminate.
  - apply nth_error_None in E. lia.
Qed.


(** One click from a dialog that shows its page. *)
Lemma click_shows (b : nav) (d : ReviewDialog) :
  10 <= len d \/ b <> JumpForward -> len d < 2 ^ 52 ->
  in_list (len d) (current_index d) -> shows d ->
  snd (click b d) = Ok tt /\ shows (fst (click b d)) /\
  in_list (len d) (current_index (fst (click b d))).
Proof.
  intros Hb Hn Hc Hs.
  assert (L0 : 0 <= len d) by (unfold len; lia).
  assert (P : 2 ^ 52 < 2 ^ 1023) by reflexivity.
  pose proof (next_index_in_list b (len d) (current_index d) Hb Hc) as Hc'.
  destruct (click_cases b d (Z.max 1 (len d / 20))
              (jump_amount_floor (len d) ltac:(lia))) as [E | E].
  - rewrite E. cbn [fst snd]. auto.
  - rewrite <- (click_index b d) in Hc'. split; [| split; [| exact Hc']].
    + rewrite E. apply show_images_shows;
        cbn [current_index set_index]; unfold in_list in *;
        change (len (set_index d _)) with (len d); [| lia].
      rewrite click_index in Hc'. lia.
    + rewrite E. apply show_images_shows;
        cbn [current_index set_index]; unfold in_list in *;
        change (len (set_index d _)) with (len d); [| lia].
      rewrite click_index in Hc'. lia.
Qed.

Lemma shows_grid (d : ReviewDialog) :
  0 <= current_index d -> shows d ->
  image_grid d = page (image_files d) (current_index d).
Proof.
  intros Hc Hs. unfold shows, show_images in Hs.
  cbn [image_files current_index set_grid] in Hs.
  rewrite show_loop_page in Hs by exact Hc.
  pose proof (f_equal (fun x => image_grid (fst x)) Hs) as G.
  cbn [fst] in G. rewrite <- G.
  unfold update_position_info.
  destruct (percent _ _); reflexivity.
Qed.

Lemma init_drawn (files : list string) :
  init files = (drawn files 0 0, Ok tt).
Proof.
  unfold init, show_images. cbn [image_files current_index set_grid].
  rewrite show_loop_page by lia.
  unfold update_position_info, percent.
  cbn [image_files current_index set_grid set_label].
  change (len (set_label _ _)) with (Z.of_nat (List.length files)).
  change (len (set_grid _ _)) with (Z.of_nat (List.length files)).
  rewrite FloatFacts.int_scaled, Exact.scaled_zero by lia. reflexivity.
Qed.

Lemma init_shows (files : list string) :
  Z.of_nat (List.length files) < 2 ^ 1023 -> shows (fst (init files)).
Proof.
  intros Hn. unfold init.
  apply show_images_shows; cbn [current_index]; [| exact Hn].
  unfold len. cbn [image_files]. lia.
Qed.

Lemma session_shows (bs : list nav) : forall d : ReviewDialog,
  10 <= len d \/ ~ In JumpForward bs -> len d < 2 ^ 52 ->
  in_list (len d) (current_index d) -> shows d ->
  Forall (fun r => r = Ok tt) (outcomes d bs) /\
  Forall (fun d' => shows d' /\ in_list (len d) (current_index d'))
         (session d bs).
Proof.
  induction bs as [| b bs IH]; intros d Hb Hn Hc Hs; cbn [outcomes session].
  - split; constructor.
  - destruct (click_shows b d) as [R [S C]]; auto.
    { destruct Hb as [Hb | Hb]; [now left | right].
      intros ->. apply Hb. now left. }
    destruct (IH (fst (click b d))) as [A B];
      rewrite ?click_keeps_len; auto.
    { destruct Hb as [Hb | Hb]; [now left | right].
      intros Hin. apply Hb. now right. }
    rewrite click_keeps_len in B.
    split; constructor; auto.
Qed.



(** X1.  From a fresh dialog over a list of fewer than [2^52] files,
    every click of a session returns without raising, and after it the
    grid holds the files of the list from the cursor on, ten of them at
    most, in the order of the list; with a list that is not empty the
    grid is never empty.  This holds for every session when the list
    has ten files or more, and for the sessions without Jump Forward on
    a shorter list. *)
Theorem pages_follow_cursor (files : list string) (bs : list nav) :
  10 <= Z.of_nat (List.length files) \/ ~ In JumpForward bs ->
  Z.of_nat (List.length files) < 2 ^ 52 ->
  snd (init files) = Ok tt /\
  image_grid (fst (init files)) = firstn 10 files /\
  Forall (fun r => r = Ok tt) (outcomes (fst (init files)) bs) /\
  Forall (fun d =>
            image_grid d
            = firstn 10 (skipn (Z.to_nat (current_index d)) files) /\
            (files <> [] -> image_grid d <> []))
         (session (fst (init files)) bs).
Proof.
  intros Hb Hn.
  assert (P : 2 ^ 52 < 2 ^ 1023) by reflexivity.
  pose proof (init_shows files ltac:(lia)) as Hs.
  rewrite init_drawn in *. cbn [fst snd] in *.
  split; [reflexivity |]. split; [reflexivity |].
  destruct (session_shows bs (drawn files 0 0)) as [A B];
    rewrite ?len_drawn; auto.
  { unfold in_list. cbn [current_index drawn]. lia. }
  split; [exact A |].
  rewrite len_drawn in B.
  assert (K : Forall (fun d' => image_files d' = files)
                     (session (drawn files 0 0) bs)).
  { clear. generalize (drawn files 0 0) (eq_refl : image_files (drawn files 0 0) = files).
    induction bs as [| b bs IH]; intros d Hd; cbn; constructor.
    - now rewrite click_keeps_files.
    - apply IH. now rewrite click_keeps_files. }
  rewrite Forall_forall in *. intros d' Hin.
  destruct (B d' Hin) as [S C]. specialize (K d' Hin).
  unfold in_list in C.
  rewrite (shows_grid d' ltac:(lia) S), K. split; [reflexivity |].
  intros Hne. apply page_not_empty.
  destruct files; [congruence | cbn [List.length] in *; lia].
Qed.


Lemma redraw_back (d d1 : ReviewDialog) :
  shows d -> image_files d1 = image_files d ->
  0 <= current_index d <= Z.max 1 (len d) -> len d < 2 ^ 1023 ->
  show_images (set_index d1 (current_index d)) = (d, Ok tt).
Proof.
  intros Hs Ef Hc Hn.
  rewrite (show_images_same (set_index d1 (current_index d)) d); auto.
Qed.

Lemma pages_follow_cursor_witness :
  snd (init fifteen_files) = Ok tt /\
  image_grid (fst (init fifteen_files)) = firstn 10 fifteen_files /\
  Forall (fun r => r = Ok tt)
         (outcomes (fst (init fifteen_files))
                   [Next; JumpForward; JumpBack; Previous; JumpToEnd]) /\
  Forall (fun d =>
            image_grid d
            = firstn 10 (skipn (Z.to_nat (current_index d)) fifteen_files) /\
            (fifteen_files <> [] -> image_grid d <> []))
         (session (fst (init fifteen_files))
                  [Next; JumpForward; JumpBack; Previous; JumpToEnd]).
Proof.
  apply (pages_follow_cursor fifteen_files
           [Next; JumpForward; JumpBack; Previous; JumpToEnd]).
  - left. vm_compute. discriminate.
  - reflexivity.
Defined.




(** Past the last full page the round trip fails: with fifteen files
    and the cursor on 10, Jump Back goes to 9 and Jump Forward then
    stops at 5. *)
Example jump_forward_does_not_undo_jump_back :
  current_index (fst (show_next (fst (init fifteen_files)))) = 10 /\
  current_index
    (fst (jump_back (fst (show_next (fst (init fifteen_files)))))) = 9 /\
  current_index
    (fst (jump_forward
            (fst (jump_back (fst (show_next (fst (init fifteen_files)))))))) = 5.
Proof.
  repeat match goal with |- _ /\ _ => split end; vm_compute; reflexivity.
Qed.

(** X3.  On a list of ten files or more, Jump to End returns, puts the
    cursor on [len - 10] and shows the last ten files; from there Jump
    Forward, Jump to End and Next change nothing and raise nothing. *)
Theorem jump_to_end_is_last_full_page (d : ReviewDialog) :
  10 <= len d < 2 ^ 52 ->
  snd (jump_to_end d) = Ok tt /\
  current_index (fst (jump_to_end d)) = len d - 10 /\
  image_grid (fst (jump_to_end d))
  = skipn (List.length (image_files d) - 10) (image_files d) /\
  jump_forward (fst (jump_to_end d)) = (fst (jump_to_end d), Ok tt) /\
  jump_to_end (fst (jump_to_end d)) = (fst (jump_to_end d), Ok tt) /\
  show_next (fst (jump_to_end d)) = (fst (jump_to_end d), Ok tt).
Proof.
  intros [Hn Hb].
  assert (P : 2 ^ 52 < 2 ^ 1023) by reflexivity.
  pose proof (jump_amount_floor (len d) ltac:(lia)) as Ha.
  set (e := fst (jump_to_end d)).
  assert (Ee : jump_to_end d
               = show_images (set_index d (Z.max 0 (len d - 10))))
    by reflexivity.
  destruct (show_images_shows (set_index d (Z.max 0 (len d - 10))))
    as [S R]; cbn [current_index set_index];
    change (len (set_index d _)) with (len d); try lia.
  rewrite <- Ee in S, R. fold e in S.
  assert (Ec : current_index e = len d - 10).
  { unfold e. change (jump_to_end d) with (click JumpToEnd d).
    rewrite (click_index JumpToEnd d). cbn [next_index]. lia. }
  assert (Ef : image_files e = image_files d)
    by apply (click_keeps_files JumpToEnd).
  assert (El : len e = len d) by apply (click_keeps_len JumpToEnd).
  split; [exact R |]. split; [exact Ec |]. split; [| split; [| split]].
  - rewrite (shows_grid e ltac:(lia) S), Ef, Ec. unfold page.
    replace (Z.to_nat (len d - 10))
      with (List.length (image_files d) - 10)%nat by (unfold len; lia).
    apply firstn_all2. rewrite length_skipn. unfold len in *. lia.
  - unfold jump_forward. rewrite El, Ha, Ec.
    replace (Z.min (len d - 10 + Z.max 1 (len d / 20)) (len d - 10))
      with (current_index e) by lia.
    apply redraw_back; auto; lia.
  - unfold jump_to_end. rewrite El.
    replace (Z.max 0 (len d - 10)) with (current_index e) by lia.
    apply redraw_back; auto; lia.
  - unfold show_next. rewrite El, Ec.
    destruct (Z.ltb_spec (len d - 10 + 10) (len d)); [lia | reflexivity].
Qed.

Lemma jump_to_end_is_last_full_page_witness :
  snd (jump_to_end (fst (init fifteen_files))) = Ok tt /\
  current_index (fst (jump_to_end (fst (init fifteen_files))))
  = len (fst (init fifteen_files)) - 10 /\
  image_grid (fst (jump_to_end (fst (init fifteen_files))))
  = skipn (List.length (image_files (fst (init fifteen_files))) - 10)
          (image_files (fst (init fifteen_files))) /\
  jump_forward (fst (jump_to_end (fst (init fifteen_files))))
  = (fst (jump_to_end (fst (init fifteen_files))), Ok tt) /\
  jump_to_end (fst (jump_to_end (fst (init fifteen_files))))
  = (fst (jump_to_end (fst (init fifteen_files))), Ok tt) /\
  show_next (fst (jump_to_end (fst (init fifteen_files))))
  = (fst (jump_to_end (fst (init fifteen_files))), Ok tt).
Proof.
  apply (jump_to_end_is_last_full_page (fst (init fifteen_files))).
  split; vm_compute; [discriminate | reflexivity].
Defined.

(** X4.  The jump of the two "5%" buttons is a twentieth of the list
    rounded down, and one file at least: [max(1, len div 20)], for
    every list of fewer than [2^52] files, although [0.05] is not
    exactly a twentieth.  Jump Forward puts the cursor on
    [min(cursor + jump, len - 10)], Jump Back on
    [max(cursor - jump, 0)]. *)
Theorem jump_is_a_twentieth (d : ReviewDialog) :
  len d < 2 ^ 52 ->
  jump_amount (len d) = Ok (Z.max 1 (len d / 20)) /\
  current_index (fst (jump_forward d))
  = Z.min (current_index d + Z.max 1 (len d / 20)) (len d - 10) /\
  current_index (fst (jump_back d))
  = Z.max (current_index d - Z.max 1 (len d / 20)) 0.
Proof.
  intros Hn.
  assert (L0 : 0 <= len d) by (unfold len; lia).
  pose proof (jump_amount_floor (len d) ltac:(lia)) as Ha.
  split; [exact Ha |].
  change (jump_forward d) with (click JumpForward d).
  change (jump_back d) with (click JumpBack d).
  rewrite (click_index JumpForward d), (click_index JumpBack d).
  cbn [next_index]. rewrite Ha. split; reflexivity.
Qed.

Lemma jump_is_a_twentieth_witness :
  jump_amount (len (fst (init twenty_three_files)))
  = Ok (Z.max 1 (len (fst (init twenty_three_files)) / 20)) /\
  current_index (fst (jump_forward (fst (init twenty_three_files))))
  = Z.min (current_index (fst (init twenty_three_files))
           + Z.max 1 (len (fst (init twenty_three_files)) / 20))
          (len (fst (init twenty_three_files)) - 10) /\
  current_index (fst (jump_back (fst (init twenty_three_files))))
  = Z.max (current_index (fst (init twenty_three_files))
           - Z.max 1 (len (fst (init twenty_three_files)) / 20)) 0.
Proof.
  apply (jump_is_a_twentieth (fst (init twenty_three_files))).
  reflexivity.
Defined.


(** X5.  On a list of fewer than ten files Jump Forward always moves
    the cursor to [len - 10], below zero.  With fewer than five files
    the redraw then raises [IndexError]; with five to nine it returns,
    and the grid holds ten thumbnails: the last [10 - len] files of the
    list, then the whole list. *)
Theorem jump_forward_on_short_list (d : ReviewDialog) :
  len d < 10 -> 0 <= current_index d ->
  current_index (fst (jump_forward d)) = len d - 10 /\
  (len d < 5 -> snd (jump_forward d) = Raise IndexError) /\
  (5 <= len d ->
     snd (jump_forward d) = Ok tt /\
     image_grid (fst (jump_forward d))
     = (skipn (Z.to_nat (2 * len d - 10)) (image_files d)
        ++ image_files d)%list).
Proof.
  intros Hn Hc.
  assert (Ha : jump_amount (len d) = Ok 1).
  { rewrite jump_amount_floor by (unfold len in *; lia).
    f_equal. assert (len d / 20 = 0) by (apply Z.div_small; unfold len in *; lia).
    lia. }
  unfold jump_forward. rewrite Ha.
  replace (Z.min (current_index d + 1) (len d - 10)) with (len d - 10) by lia.
  destruct d as [files c g l p]. unfold len in *. cbn [image_files current_index] in *.
  do 10 (destruct files as [| ? files];
         [split; [reflexivity |]; split; intros H;
          cbn [List.length] in H;
          first [ lia | vm_compute; try split; reflexivity ] |]).
  cbn [List.length] in Hn. lia.
Qed.


Definition seven_files : list string :=
  map (fun i => Sampler.os_path_join "out" (Sampler.snapshot_name i))
      (List.seq 0 7).

Lemma jump_forward_on_short_list_witness :
  current_index (fst (jump_forward (fst (init seven_files))))
  = len (fst (init seven_files)) - 10 /\
  (len (fst (init seven_files)) < 5 ->
   snd (jump_forward (fst (init seven_files))) = Raise IndexError) /\
  (5 <= len (fst (init seven_files)) ->
   snd (jump_forward (fst (init seven_files))) = Ok tt /\
   image_grid (fst (jump_forward (fst (init seven_files))))
   = (skipn (Z.to_nat (2 * len (fst (init seven_files)) - 10))
            (image_files (fst (init seven_files)))
      ++ image_files (fst (init seven_files)))%list).
Proof.
  apply (jump_forward_on_short_list (fst (init seven_files)));
    vm_compute; [reflexivity | discriminate].
Defined.

End PagerFacts.

(** * Properties of the folder listing *)

Module GalleryFacts.
Import Gallery.


(** ** The order of strings *)

Lemma ascii_compare_refl (c : ascii) : Ascii.compare c c = Eq.
Proof. unfold Ascii.compare. apply N.compare_refl. Qed.

Lemma ascii_compare_lt_trans (a b c : ascii) :
  Ascii.compare a b = Lt -> Ascii.compare b c = Lt -> Ascii.compare a c = Lt.
Proof.
  unfold Ascii.compare. rewrite !N.compare_lt_iff. apply N.lt_trans.
Qed.

Lemma compare_lt_trans (a : string) : forall b c : string,
  String.compare a b = Lt -> String.compare b c = Lt ->
  String.compare a c = Lt.
Proof.
  induction a as [| x a IH]; intros [| y b] [| z c]; cbn;
    try discriminate; try reflexivity.
  destruct (Ascii.compare x y) eqn:Exy; try discriminate;
    destruct (Ascii.compare y z) eqn:Eyz; try discriminate; intros H1 H2.
  - apply Ascii.compare_eq_iff in Exy, Eyz. subst.
    rewrite ascii_compare_refl. exact (IH b c H1 H2).
  - apply Ascii.compare_eq_iff in Exy. subst. now rewrite Eyz.
  - apply Ascii.compare_eq_iff in Eyz. subst. now rewrite Exy.
  - now rewrite (ascii_compare_lt_trans x y z Exy Eyz).
Qed.

Lemma leb_compare (a b : string) :
  String.leb a b = true <-> String.compare a b <> Gt.
Proof.
  unfold String.leb. destruct (String.compare a b); split;
    congruence.
Qed.

Lemma ltb_leb (a b : string) : String.ltb a b = true -> String.leb a b = true.
Proof.
  unfold String.ltb, String.leb. destruct (String.compare a b); congruence.
Qed.


Lemma leb_trans (a b c : string) :
  String.leb a b = true -> String.leb b c = true -> String.leb a c = true.
Proof.
  rewrite !leb_compare. intros H1 H2.
  destruct (String.compare a b) eqn:Eab; [| | congruence].
  - apply String.compare_eq_iff in Eab. now subst.
  - destruct (String.compare b c) eqn:Ebc; [| | congruence].
    + apply String.compare_eq_iff in Ebc. subst. congruence.
    + rewrite (compare_lt_trans a b c Eab Ebc). discriminate.
Qed.

Lemma compare_app (p a b : string) :
  String.compare (p ++ a) (p ++ b) = String.compare a b.
Proof.
  induction p as [| x p IH]; cbn; [reflexivity |].
  now rewrite ascii_compare_refl.
Qed.

Definition le (a b : string) : Prop := is_true (String.leb a b).

Lemma le_transitive : Relations_1.Transitive le.
Proof. intros a b c. apply leb_trans. Qed.

(** A list has one sorted arrangement. *)
Lemma sorted_unique (l1 : list string) : forall l2 : list string,
  StronglySorted le l1 -> StronglySorted le l2 -> Permutation l1 l2 ->
  l1 = l2.
Proof.
  induction l1 as [| a l1 IH]; intros [| b l2] S1 S2 P.
  - reflexivity.
  - apply Permutation_nil in P. discriminate.
  - apply Permutation_sym, Permutation_nil in P. discriminate.
  - inversion S1 as [| ? ? S1' F1]; inversion S2 as [| ? ? S2' F2]; subst.
    assert (E : a = b).
    { assert (Ia : In a (b :: l2))
        by (apply (Permutation_in _ P); now left).
      assert (Ib : In b (a :: l1))
        by (apply (Permutation_in _ (Permutation_sym P)); now left).
      destruct Ia as [-> | Ia]; [reflexivity |].
      destruct Ib as [-> | Ib]; [reflexivity |].
      rewrite Forall_forall in F1, F2.
      apply String.leb_antisym; [apply F1, Ib | apply F2, Ia]. }
    subst b. f_equal.
    apply IH; [assumption | assumption |].
    exact (Permutation_cons_inv P).
Qed.

Lemma insert_permutation (x : string) (l : list string) :
  Permutation (x :: l) (insert x l).
Proof.
  induction l as [| y l IH]; cbn [insert]; [apply Permutation_refl |].
  destruct (String.leb x y); [apply Permutation_refl |].
  apply perm_trans with (y :: x :: l); [apply perm_swap |].
  apply perm_skip. exact IH.
Qed.

Lemma sort_permutation (l : list string) : Permutation l (sort l).
Proof.
  induction l as [| x l IH]; cbn [sort fold_right]; [constructor |].
  apply perm_trans with (x :: sort l); [now apply perm_skip |].
  apply insert_permutation.
Qed.

Lemma insert_sorted (x : string) (l : list string) :
  StronglySorted le l -> StronglySorted le (insert x l).
Proof.
  induction 1 as [| y l S IH F]; cbn [insert].
  - repeat constructor.
  - destruct (String.leb x y) eqn:E.
    + constructor; [now constructor |].
      constructor; [exact E |].
      apply Forall_forall. intros z Hz. rewrite Forall_forall in F.
      exact (leb_trans x y z E (F z Hz)).
    + constructor; [exact IH |].
      apply Forall_forall. intros z Hz.
      apply (Permutation_in _ (Permutation_sym (insert_permutation x l)))
        in Hz.
      destruct Hz as [<- | Hz].
      * destruct (String.leb_total y x) as [T | T]; [exact T | congruence].
      * rewrite Forall_forall in F. exact (F z Hz).
Qed.

Lemma sort_sorted (l : list string) : StronglySorted le (sort l).
Proof.
  induction l as [| x l IH]; cbn [sort fold_right]; [constructor |].
  apply insert_sorted. exact IH.
Qed.

(** Sorting puts any arrangement of a sorted list back in its order. *)
Lemma sort_permuted (l s : list string) :
  StronglySorted le s -> Permutation l s -> sort l = s.
Proof.
  intros S P. apply sorted_unique; [apply sort_sorted | exact S |].
  apply Permutation_trans with l; [| exact P].
  apply Permutation_sym, sort_permutation.
Qed.


(** ** What the listing keeps *)

Lemma image_list_sorted (dir : string) (names : list string) :
  StronglySorted le (image_list dir names).
Proof. apply sort_sorted. Qed.

Lemma image_list_permutation (dir : string) (names : list string) :
  Permutation (map (Sampler.os_path_join dir) (filter has_image_suffix names))
              (image_list dir names).
Proof. apply sort_permutation. Qed.

Lemma image_list_in (dir : string) (names : list string) (p : string) :
  In p (image_list dir names) <->
  exists f : string,
    In f names /\ has_image_suffix f = true /\
    p = Sampler.os_path_join dir f.
Proof.
  split.
  - intros H.
    apply (Permutation_in _ (Permutation_sym (image_list_permutation dir names)))
      in H.
    apply in_map_iff in H. destruct H as [f [E H]].
    apply filter_In in H. exists f. intuition.
  - intros [f [H [I ->]]].
    apply (Permutation_in _ (image_list_permutation dir names)).
    apply in_map, filter_In. auto.
Qed.

Lemma image_list_nil (dir : string) (names : list string) :
  image_list dir names = [] <->
  forall f : string, In f names -> has_image_suffix f = false.
Proof.
  split.
  - intros E f H. destruct (has_image_suffix f) eqn:I; [| reflexivity].
    assert (In (Sampler.os_path_join dir f) (image_list dir names))
      by (apply image_list_in; eauto).
    rewrite E in H0. contradiction.
  - intros H. destruct (image_list dir names) as [| p l] eqn:E; [reflexivity |].
    assert (In p (image_list dir names)) by (rewrite E; now left).
    apply image_list_in in H0. destruct H0 as [f [I [T _]]].
    rewrite (H f I) in T. discriminate.
Qed.

Import Review.
Import Sampler.
Local Open Scope string_scope.


(** A slot that opens the review dialog on [images], at its first
    page. *)
Definition opens (r : shown) (images : list string) : Prop :=
  exists dlg : ReviewDialog,
    r = Exec dlg /\ image_files dlg = images /\ current_index dlg = 0 /\
    image_grid dlg = firstn 10 images.

Section Folder.

Variable os_listdir : string -> option (list string).

Lemma review_folder_cases (dir text : string) (names : list string) :
  os_listdir dir = Some names ->
  ((forall f : string, In f names -> has_image_suffix f = false) ->
     review_folder os_listdir dir text = Warning "No Images" text) /\
  ((exists f : string, In f names /\ has_image_suffix f = true) ->
     opens (review_folder os_listdir dir text) (image_list dir names)).
Proof.
  intros L. unfold review_folder. rewrite L. split.
  - intros H. apply (proj2 (image_list_nil dir names)) in H. now rewrite H.
  - intros [f [H I]].
    destruct (image_list dir names) as [| p l] eqn:E.
    + rewrite (proj1 (image_list_nil dir names) E f H) in I. discriminate.
    + rewrite PagerFacts.init_drawn.
      eexists. split; [reflexivity |]. cbn. auto.
Qed.

Lemma slots_review_folder (self : Snatcher.VideoFrameSnatcher)
    (dir : string) :
  Snatcher.output_dir self = Some dir -> dir <> "" ->
  review_output os_listdir self
  = review_folder os_listdir dir
      "No snapshots found in the selected output folder." /\
  find_old_output os_listdir dir
  = review_folder os_listdir dir "No snapshots found in the selected folder.".
Proof.
  intros Ho Hd. unfold review_output, find_old_output. rewrite Ho.
  destruct dir; [congruence | auto].
Qed.

Lemma review_output_opens (self : Snatcher.VideoFrameSnatcher)
    (dir : string) (names : list string) :
  Snatcher.output_dir self = Some dir -> dir <> "" ->
  os_listdir dir = Some names ->
  filter has_image_suffix names <> [] ->
  opens (review_output os_listdir self) (image_list dir names).
Proof.
  intros Ho Hd L Hn.
  destruct (slots_review_folder self dir Ho Hd) as [-> _].
  apply (review_folder_cases dir _ names L).
  destruct (filter has_image_suffix names) as [| f l] eqn:F; [congruence |].
  exists f.
  assert (In f (filter has_image_suffix names)) by (rewrite F; now left).
  apply filter_In in H. exact H.
Qed.

(** X6.  With a folder chosen and listed, [review_output] and
    [find_old_output] warn "No Images" when no name of the listing ends
    in [.jpg], [.png] or [.jpeg] (whatever the case of its letters),
    and otherwise open the review dialog, at its first page, on the
    list of images.  That list is sorted as strings, holds exactly the
    paths [os.path.join(dir, f)] of the names [f] that end that way,
    and has one entry for each. *)
Theorem review_opens_sorted_images
    (self : Snatcher.VideoFrameSnatcher) (dir : string)
    (names : list string) :
  Snatcher.output_dir self = Some dir -> dir <> "" ->
  os_listdir dir = Some names ->
  ((forall f : string, In f names -> has_image_suffix f = false) ->
     review_output os_listdir self
     = Warning "No Images"
               "No snapshots found in the selected output folder." /\
     find_old_output os_listdir dir
     = Warning "No Images" "No snapshots found in the selected folder.") /\
  ((exists f : string, In f names /\ has_image_suffix f = true) ->
     opens (review_output os_listdir self) (image_list dir names) /\
     opens (find_old_output os_listdir dir) (image_list dir names)) /\
  StronglySorted (fun a b => String.leb a b = true) (image_list dir names) /\
  (forall p : string,
     In p (image_list dir names) <->
     exists f : string,
       In f names /\ has_image_suffix f = true /\ p = os_path_join dir f) /\
  List.length (image_list dir names)
  = List.length (filter has_image_suffix names).
Proof.
  intros Ho Hd L.
  destruct (slots_review_folder self dir Ho Hd) as [-> ->].
  split; [| split; [| split; [| split]]].
  - intros H. split; apply (review_folder_cases dir _ names L); exact H.
  - intros H. split; apply (review_folder_cases dir _ names L); exact H.
  - apply image_list_sorted.
  - apply image_list_in.
  - rewrite <- (Permutation_length (image_list_permutation dir names)).
    apply length_map.
Qed.

End Folder.

(** A folder with two images and a text file. *)
Definition small_folder (dir : string) : option (list string) :=
  Some ["b.PNG"; "notes.txt"; "a.jpg"].

Lemma review_opens_sorted_images_witness :
  ((forall f : string,
      In f ["b.PNG"; "notes.txt"; "a.jpg"] -> has_image_suffix f = false) ->
   review_output small_folder (Snatcher.mkWindow None (Some "out") "")
   = Warning "No Images"
             "No snapshots found in the selected output folder." /\
   find_old_output small_folder "out"
   = Warning "No Images" "No snapshots found in the selected folder.") /\
  ((exists f : string,
      In f ["b.PNG"; "notes.txt"; "a.jpg"] /\ has_image_suffix f = true) ->
   opens (review_output small_folder (Snatcher.mkWindow None (Some "out") ""))
         (image_list "out" ["b.PNG"; "notes.txt"; "a.jpg"]) /\
   opens (find_old_output small_folder "out")
         (image_list "out" ["b.PNG"; "notes.txt"; "a.jpg"])) /\
  StronglySorted (fun a b => String.leb a b = true)
                 (image_list "out" ["b.PNG"; "notes.txt"; "a.jpg"]) /\
  (forall p : string,
     In p (image_list "out" ["b.PNG"; "notes.txt"; "a.jpg"]) <->
     exists f : string,
       In f ["b.PNG"; "notes.txt"; "a.jpg"] /\ has_image_suffix f = true /\
       p = os_path_join "out" f) /\
  List.length (image_list "out" ["b.PNG"; "notes.txt"; "a.jpg"])
  = List.length (filter has_image_suffix ["b.PNG"; "notes.txt"; "a.jpg"]).
Proof.
  apply (review_opens_sorted_images small_folder
           (Snatcher.mkWindow None (Some "out") "") "out"
           ["b.PNG"; "notes.txt"; "a.jpg"]).
  - reflexivity.
  - discriminate.
  - reflexivity.
Defined.

(** ** The snapshots of a run, listed again *)

Lemma lower_app (a b : string) : lower (a ++ b) = lower a ++ lower b.
Proof. induction a as [| c a IH]; cbn; [reflexivity | now rewrite IH]. Qed.

Lemma substring_tail (a b : string) :
  substring (String.length a) (String.length b) (a ++ b) = b.
Proof.
  induction a as [| c a IH]; cbn; [| exact IH].
  induction b as [| c b IH]; cbn; [reflexivity |].
  destruct b; cbn in *; congruence.
Qed.

Lemma endswith_app (a b : string) : endswith (a ++ b) b = true.
Proof.
  unfold endswith. rewrite SamplerFacts.string_length_app.
  replace (String.length a + String.length b - String.length b)%nat
    with (String.length a) by lia.
  rewrite substring_tail, String.eqb_refl, andb_true_r.
  apply Nat.leb_le. lia.
Qed.

Lemma append_assoc (a b c : string) : (a ++ b) ++ c = a ++ b ++ c.
Proof. induction a as [| x a IH]; cbn; [reflexivity | now rewrite IH]. Qed.

Lemma snapshot_is_image (i : nat) : has_image_suffix (snapshot_name i) = true.
Proof.
  unfold has_image_suffix, snapshot_name.
  rewrite <- append_assoc, lower_app.
  change (lower ".jpg") with ".jpg".
  cbn [existsb]. now rewrite endswith_app.
Qed.

(** [os.path.join(dir, x)] puts the same text in front of every [x]. *)
Lemma join_prefix (dir : string) :
  exists p : string, forall x : string, os_path_join dir x = p ++ x.
Proof.
  unfold os_path_join. destruct dir as [| c dir].
  - exists "". reflexivity.
  - destruct (ends_with_slash (String c dir)).
    + exists (String c dir). reflexivity.
    + exists (String c dir ++ "/"). intros x. now rewrite append_assoc.
Qed.

Lemma join_leb (dir a b : string) :
  String.leb (os_path_join dir a) (os_path_join dir b) = String.leb a b.
Proof.
  destruct (join_prefix dir) as [p E]. rewrite !E.
  unfold String.leb. now rewrite compare_app.
Qed.

Lemma join_sorted (dir : string) (l : list string) :
  StronglySorted le l -> StronglySorted le (map (os_path_join dir) l).
Proof.
  induction 1 as [| a l S IH F]; cbn; constructor; [exact IH |].
  rewrite Forall_forall in *. intros p Hp.
  apply in_map_iff in Hp. destruct Hp as [b [<- Hb]].
  unfold le. rewrite join_leb. exact (F b Hb).
Qed.

(** The names counted in decimal, from the digits [u] on (lowest digit
    first). *)
Definition name_of_digits (u : Decimal.uint) : string :=
  let digits := NilEmpty.string_of_uint (Decimal.rev u) in
  "snapshot_" ++ (zeros (4 - String.length digits) ++ digits) ++ ".jpg".

Fixpoint names_from (u : Decimal.uint) (k : nat) : list string :=
  match k with
  | O => []
  | S k' => name_of_digits u :: names_from (Decimal.Little.succ u) k'
  end.

Lemma to_little_uint_succ (n : nat) : forall acc : Decimal.uint,
  Nat.to_little_uint n (Decimal.Little.succ acc)
  = Decimal.Little.succ (Nat.to_little_uint n acc).
Proof.
  induction n as [| n IH]; intros acc; cbn; [reflexivity | apply IH].
Qed.

Lemma names_from_seq (k : nat) : forall i : nat,
  map snapshot_name (List.seq i k)
  = names_from (Nat.to_little_uint i Decimal.zero) k.
Proof.
  induction k as [| k IH]; intros i; cbn [List.seq map names_from];
    [reflexivity |].
  f_equal. rewrite IH. cbn [Nat.to_little_uint].
  now rewrite to_little_uint_succ.
Qed.

Fixpoint increasing (l : list string) : bool :=
  match l with
  | a :: (b :: _) as rest => String.ltb a b && increasing rest
  | _ => true
  end.

Lemma increasing_sorted (l : list string) :
  increasing l = true -> StronglySorted le l.
Proof.
  intros H. apply Sorted_StronglySorted; [exact le_transitive |].
  induction l as [| a [| b l] IH]; constructor.
  - constructor.
  - constructor.
  - cbn [increasing] in H. apply andb_prop in H. apply IH, H.
  - cbn [increasing] in H. apply andb_prop in H.
    constructor. apply ltb_leb, H.
Qed.

Definition ten_thousand : nat := 100 * 100.

Lemma ten_thousand_names_increase :
  increasing (names_from Decimal.zero ten_thousand) = true.
Proof. vm_compute. reflexivity. Qed.

Lemma snapshot_names_sorted (n : nat) :
  (n <= ten_thousand)%nat ->
  StronglySorted le (map snapshot_name (List.seq 0 n)).
Proof.
  intros Hn.
  pose proof (increasing_sorted _ ten_thousand_names_increase) as S.
  change (names_from Decimal.zero ten_thousand)
    with (names_from (Nat.to_little_uint 0 Decimal.zero) ten_thousand) in S.
  rewrite <- (names_from_seq ten_thousand 0) in S.
  replace ten_thousand with (n + (ten_thousand - n))%nat in S by lia.
  rewrite seq_app, map_app in S.
  exact (SamplerFacts.StronglySorted_prefix _ _ _ S).
Qed.

Lemma sorted_nth (l : list string) : StronglySorted le l ->
  forall (i j : nat) (a b : string),
    (i < j)%nat -> nth_error l i = Some a -> nth_error l j = Some b ->
    String.leb a b = true.
Proof.
  induction 1 as [| x l S IH F]; intros i j a b L Ea Eb.
  - destruct i; discriminate.
  - destruct j as [| j]; [lia |]. cbn in Eb.
    destruct i as [| i]; cbn in Ea.
    + inversion Ea; subst x. rewrite Forall_forall in F.
      apply F. exact (nth_error_In _ _ Eb).
    + apply (IH i j); auto; lia.
Qed.

Lemma names_out_of_order :
  String.leb (snapshot_name (ten_thousand - 1)) (snapshot_name ten_thousand)
  = false.
Proof. vm_compute. reflexivity. Qed.


Lemma filter_snapshots (l : list nat) :
  filter has_image_suffix (map snapshot_name l) = map snapshot_name l.
Proof.
  induction l as [| i l IH]; cbn [map filter]; [reflexivity |].
  now rewrite snapshot_is_image, IH.
Qed.

(** The listing of a folder that holds the [n] first snapshots, in any
    order, among files that are no images. *)
Lemma image_list_snapshots (dir : string) (names : list string) (n : nat) :
  Permutation (filter has_image_suffix names)
              (map snapshot_name (List.seq 0 n)) ->
  Permutation (image_list dir names)
    (map (fun i => os_path_join dir (snapshot_name i)) (List.seq 0 n)) /\
  ((n <= ten_thousand)%nat ->
   image_list dir names
   = map (fun i => os_path_join dir (snapshot_name i)) (List.seq 0 n)) /\
  ((ten_thousand < n)%nat ->
   image_list dir names
   <> map (fun i => os_path_join dir (snapshot_name i)) (List.seq 0 n)).
Proof.
  intros P.
  assert (Q : Permutation
                (map (os_path_join dir) (filter has_image_suffix names))
                (map (fun i => os_path_join dir (snapshot_name i))
                     (List.seq 0 n))).
  { rewrite <- (map_map snapshot_name (os_path_join dir)).
    apply Permutation_map. exact P. }
  split; [| split].
  - apply Permutation_trans with
      (map (os_path_join dir) (filter has_image_suffix names)); [| exact Q].
    apply Permutation_sym, image_list_permutation.
  - intros Hn. unfold image_list. apply sort_permuted; [| exact Q].
    rewrite <- (map_map snapshot_name (os_path_join dir)).
    apply join_sorted, snapshot_names_sorted. exact Hn.
  - intros Hn E.
    pose proof (image_list_sorted dir names) as S. rewrite E in S.
    rewrite <- (map_map snapshot_name (os_path_join dir)) in S.
    pose proof (sorted_nth _ S (ten_thousand - 1) ten_thousand
                  (os_path_join dir (snapshot_name (ten_thousand - 1)))
                  (os_path_join dir (snapshot_name ten_thousand))) as C.
    rewrite join_leb, names_out_of_order in C.
    assert (N : forall i : nat, (i < n)%nat ->
              nth_error (map (os_path_join dir)
                           (map snapshot_name (List.seq 0 n))) i
              = Some (os_path_join dir (snapshot_name i))).
    { intros i Hi. rewrite !nth_error_map.
      rewrite (nth_error_nth' _ 0%nat) by (rewrite length_seq; exact Hi).
      rewrite seq_nth by exact Hi. reflexivity. }
    assert (T : (0 < ten_thousand)%nat) by (unfold ten_thousand; lia).
    discriminate C; [lia | apply N; lia | apply N; lia].
Qed.

Section Reviewing.

Context {Image : Type}.
Variable imwrite : string -> Image -> result bool.
Variable os_listdir : string -> option (list string).

(** X7.  The review of a run lists its snapshots in the order they
    were written, up to ten thousand of them.  When the folder the job
    wrote to lists, in any order and among files that are no images,
    the names [snapshot_0000.jpg], ... of the calls of [imwrite] the
    run made (one at least, 10000 at most), [review_output] opens the
    dialog on exactly the paths the run passed to [imwrite], in the
    order of the calls. *)
Theorem review_lists_snapshots_as_written
    (self : FrameExtractor) (video : Capture)
    (window : Snatcher.VideoFrameSnatcher) (names : list string) :
  Snatcher.output_dir window = Some (output_dir self) ->
  output_dir self <> "" ->
  os_listdir (output_dir self) = Some names ->
  Permutation
    (filter has_image_suffix names)
    (map snapshot_name
       (List.seq 0 (List.length (written_files (fst (run imwrite self video)))))) ->
  written_files (fst (run imwrite self video)) <> [] ->
  Z.of_nat (List.length (written_files (fst (run imwrite self video))))
  <= 10000 ->
  opens (review_output os_listdir window)
        (written_files (fst (run imwrite self video))).
Proof.
  intros Ho Hd L P Hne Hn.
  set (written := written_files (fst (run imwrite self video))) in *.
  assert (E : image_list (output_dir self) names = written).
  { destruct (image_list_snapshots (output_dir self) names
                (List.length written) P) as [_ [E _]].
    rewrite E by (unfold ten_thousand; lia).
    unfold written. symmetry. apply SamplerFacts.run_names. }
  rewrite <- E.
  apply (review_output_opens os_listdir window (output_dir self) names Ho Hd L).
  intros F. rewrite F in P. apply Permutation_nil in P.
  apply map_eq_nil in P.
  destruct written; [congruence | discriminate].
Qed.

(** X8.  Past ten thousand snapshots the review no longer lists them
    in the order they were written.  The names are sorted as strings
    and [snapshot_10000.jpg] sorts before [snapshot_9999.jpg]: with
    more than 10000 calls of [imwrite], the dialog [review_output]
    opens holds the same paths as the run wrote, in another order. *)
Theorem review_order_breaks_past_ten_thousand
    (self : FrameExtractor) (video : Capture)
    (window : Snatcher.VideoFrameSnatcher) (names : list string) :
  Snatcher.output_dir window = Some (output_dir self) ->
  output_dir self <> "" ->
  os_listdir (output_dir self) = Some names ->
  Permutation
    (filter has_image_suffix names)
    (map snapshot_name
       (List.seq 0 (List.length (written_files (fst (run imwrite self video)))))) ->
  10000
  < Z.of_nat (List.length (written_files (fst (run imwrite self video)))) ->
  exists dlg : ReviewDialog,
    review_output os_listdir window = Exec dlg /\
    Permutation (image_files dlg)
                (written_files (fst (run imwrite self video))) /\
    image_files dlg <> written_files (fst (run imwrite self video)).
Proof.
  intros Ho Hd L P Hn.
  set (written := written_files (fst (run imwrite self video))) in *.
  destruct (image_list_snapshots (output_dir self) names
              (List.length written) P) as [Q [_ N]].
  assert (W : written
              = map (fun i => os_path_join (output_dir self) (snapshot_name i))
                    (List.seq 0 (List.length written))).
  { unfold written. apply SamplerFacts.run_names. }
  rewrite <- W in Q, N.
  destruct (review_output_opens os_listdir window (output_dir self) names
              Ho Hd L) as [dlg [E [F _]]].
  - intros F. rewrite F in P. apply Permutation_nil in P.
    apply map_eq_nil in P.
    destruct written; [cbn in Hn; lia | discriminate].
  - exists dlg. rewrite F. split; [exact E |]. split; [exact Q |].
    apply N. unfold ten_thousand. lia.
Qed.

End Reviewing.

(** A job that keeps every frame, and the folder after it ran on four
    frames, with a file that is no image in it. *)
Definition every_frame : FrameExtractor := mkExtractor "clip.mp4" "out" 0.

Definition folder_of_four (dir : string) : option (list string) :=
  Some ["snapshot_0001.jpg"; "snapshot_0000.jpg"; "notes.txt";
        "snapshot_0002.jpg"; "snapshot_0003.jpg"].

Lemma review_lists_snapshots_as_written_witness :
  opens (review_output folder_of_four (Snatcher.mkWindow None (Some "out") ""))
        (written_files
           (fst (run SamplerFacts.write_ok every_frame
                     SamplerFacts.four_frames))).
Proof.
  apply (review_lists_snapshots_as_written SamplerFacts.write_ok folder_of_four
           every_frame SamplerFacts.four_frames
           (Snatcher.mkWindow None (Some "out") "")
           ["snapshot_0001.jpg"; "snapshot_0000.jpg"; "notes.txt";
            "snapshot_0002.jpg"; "snapshot_0003.jpg"]).
  - reflexivity.
  - discriminate.
  - reflexivity.
  - vm_compute. apply perm_swap.
  - vm_compute. discriminate.
  - vm_compute. discriminate.
Defined.

(** A capture of ten thousand and one frames, and the folder after the
    job ran on it. *)
Definition long_capture : Capture :=
  mkCapture 30%float 0
    (map (fun i => (i, Z.of_nat i)) (List.seq 1 (S ten_thousand))).

Definition long_folder (dir : string) : option (list string) :=
  Some (map snapshot_name (List.seq 0 (S ten_thousand))).

Lemma long_capture_written :
  List.length (written_files
                 (fst (run SamplerFacts.write_ok every_frame long_capture)))
  = S ten_thousand.
Proof. vm_compute. reflexivity. Qed.

Lemma review_order_breaks_past_ten_thousand_witness :
  exists dlg : ReviewDialog,
    review_output long_folder (Snatcher.mkWindow None (Some "out") "")
    = Exec dlg /\
    Permutation
      (image_files dlg)
      (written_files
         (fst (run SamplerFacts.write_ok every_frame long_capture))) /\
    image_files dlg
    <> written_files
         (fst (run SamplerFacts.write_ok every_frame long_capture)).
Proof.
  apply (review_order_breaks_past_ten_thousand SamplerFacts.write_ok
           long_folder every_frame long_capture
           (Snatcher.mkWindow None (Some "out") "")
           (map snapshot_name (List.seq 0 (S ten_thousand)))).
  - reflexivity.
  - discriminate.
  - reflexivity.
  - rewrite long_capture_written, filter_snapshots. apply Permutation_refl.
  - rewrite long_capture_written. reflexivity.
Defined.

End GalleryFacts.

(** * Properties of the thumbnails *)

Module ThumbnailFacts.

Import Thumbnail Sampler.
Local Open Scope string_scope.

Definition no_slash (s : string) : Prop := rfind "/" s = -1.


Lemma rfind_app (c : ascii) (p s : string) :
  rfind c s = -1 -> rfind c (p ++ s) = rfind c p.
Proof.
  intros Hs. induction p as [| a p IH]; cbn [append rfind]; [exact Hs |].
  now rewrite IH.
Qed.

Lemma rfind_last (c : ascii) (p : string) :
  rfind c (p ++ String c "") = Z.of_nat (String.length p).
Proof.
  induction p as [| a p IH]; cbn [append rfind String.length].
  - now rewrite Ascii.eqb_refl.
  - rewrite IH. destruct (Z.leb_spec 0 (Z.of_nat (String.length p))); lia.
Qed.

Lemma slice_tail (p s : string) :
  slice_from (p ++ s) (Z.of_nat (String.length p)) = s.
Proof.
  unfold slice_from. rewrite Nat2Z.id, SamplerFacts.string_length_app.
  replace (String.length p + String.length s - String.length p)%nat
    with (String.length s) by lia.
  apply GalleryFacts.substring_tail.
Qed.

Lemma ends_with_slash_split (a : string) :
  ends_with_slash a = true -> exists p : string, a = p ++ "/".
Proof.
  unfold ends_with_slash. intros H.
  rewrite <- (string_of_list_ascii_of_string a).
  destruct (rev (list_ascii_of_string a)) as [| c l] eqn:E; [discriminate |].
  apply Ascii.eqb_eq in H. subst c.
  apply (f_equal (@rev ascii)) in E. rewrite rev_involutive in E.
  rewrite E. cbn [rev]. exists (string_of_list_ascii (rev l)).
  generalize (rev l). intros l'.
  induction l' as [| x l' IH]; cbn; [reflexivity | now rewrite IH].
Qed.

Lemma basename_after_slash (q f : string) :
  no_slash f -> basename ((q ++ "/") ++ f) = f.
Proof.
  intros Hf. unfold basename.
  rewrite (rfind_app "/" (q ++ "/") f Hf), rfind_last.
  replace (Z.of_nat (String.length q) + 1)
    with (Z.of_nat (String.length (q ++ "/")))
    by (rewrite SamplerFacts.string_length_app; cbn [String.length]; lia).
  apply slice_tail.
Qed.

(** [basename] takes back what [os.path.join] put in front. *)
Lemma basename_join (dir f : string) :
  no_slash f -> basename (os_path_join dir f) = f.
Proof.
  intros Hf. unfold os_path_join.
  destruct dir as [| c dir].
  - unfold basename. rewrite Hf. exact (slice_tail "" f).
  - destruct (ends_with_slash (String c dir)) eqn:E.
    + destruct (ends_with_slash_split _ E) as [p ->].
      apply basename_after_slash. exact Hf.
    + rewrite <- GalleryFacts.append_assoc.
      apply basename_after_slash. exact Hf.
Qed.


(** ** What is under a thumbnail *)

Import Review ReviewFacts Gallery GalleryFacts.

Lemma getitem_in {A : Type} (l : list A) (i : Z) (a : A) :
  Py.getitem l i = Ok a -> In a l.
Proof.
  unfold Py.getitem.
  destruct ((_ <? 0)%Z || _)%bool; [discriminate |].
  destruct (nth_error l _) as [x |] eqn:E; [| discriminate].
  intros H. inversion H; subst. exact (nth_error_In _ _ E).
Qed.

Lemma show_loop_incl (files : list string) (c : Z) (ixs : list Z) :
  forall grid : list string,
    incl grid files -> incl (fst (show_loop files c ixs grid)) files.
Proof.
  induction ixs as [| i ixs IH]; intros grid Hg; cbn [show_loop]; [exact Hg |].
  destruct (Z.of_nat (List.length files) <=? c + i)%Z; [exact Hg |].
  destruct (Py.getitem files (c + i)) as [f |] eqn:E; [| exact Hg].
  apply IH. apply incl_app; [exact Hg |].
  intros x [<- | []]. exact (getitem_in _ _ _ E).
Qed.

Lemma update_position_info_grid (d : ReviewDialog) :
  image_grid (fst (update_position_info d)) = image_grid d.
Proof.
  unfold update_position_info.
  destruct (percent _ _); reflexivity.
Qed.

Lemma show_images_incl (d : ReviewDialog) :
  incl (image_grid (fst (show_images d))) (image_files d).
Proof.
  unfold show_images.
  pose proof (show_loop_incl (image_files d) (current_index d) range10 []
                (incl_nil_l _)) as H.
  cbn [image_files current_index set_grid].
  destruct (show_loop _ _ range10 []) as [g [[] | e]]; cbn [fst] in *.
  - rewrite update_position_info_grid. exact H.
  - exact H.
Qed.

Lemma click_incl (b : nav) (d : ReviewDialog) :
  incl (image_grid d) (image_files d) ->
  incl (image_grid (fst (click b d))) (image_files d).
Proof.
  intros H.
  destruct b; cbn [click];
    unfold show_next, show_previous, jump_forward, jump_back,
           jump_to_start, jump_to_end;
    repeat match goal with
           | |- context [if ?c then _ else _] => destruct c
           | |- context [match jump_amount ?n with _ => _ end] =>
               destruct (jump_amount n)
           end;
    try exact H;
    match goal with
    | |- context [show_images (set_index d ?c)] =>
        exact (show_images_incl (set_index d c))
    end.
Qed.

Lemma session_incl (bs : list nav) : forall d : ReviewDialog,
  incl (image_grid d) (image_files d) ->
  Forall (fun d' => image_files d' = image_files d /\
                    incl (image_grid d') (image_files d))
         (session d bs).
Proof.
  induction bs as [| b bs IH]; intros d H; cbn [session]; constructor.
  - split; [apply click_keeps_files | now apply click_incl].
  - pose proof (click_keeps_files b d) as K.
    specialize (IH (fst (click b d))). rewrite K in IH.
    apply IH. now apply click_incl.
Qed.

Lemma review_output_exec (os_listdir : string -> option (list string))
    (window : Snatcher.VideoFrameSnatcher) (dir : string)
    (names : list string) (dlg : ReviewDialog) :
  Snatcher.output_dir window = Some dir -> os_listdir dir = Some names ->
  review_output os_listdir window = Exec dlg ->
  dlg = PagerFacts.drawn (image_list dir names) 0%Z 0%Z.
Proof.
  intros Ho L. unfold review_output, review_folder. rewrite Ho.
  destruct dir as [| c dir]; [discriminate |]. rewrite L.
  destruct (image_list (String c dir) names) as [| p l]; [discriminate |].
  rewrite PagerFacts.init_drawn. intros E. inversion E. reflexivity.
Qed.

(** X9.  A press on a thumbnail of the review opens a file of the
    folder, under its own name.  In the dialog [review_output] opened
    on a folder whose listing holds plain names (no [/]), at any moment
    of a session, a press that does anything is the left or the right
    button on a thumbnail; for some image [f] of the listing, the left
    button opens the window titled [f] on [os.path.join(dir, f)] and
    the right button hands that path to the system. *)
Theorem press_opens_the_listed_file
    (os_listdir : string -> option (list string))
    (window : Snatcher.VideoFrameSnatcher) (dir platform : string)
    (names : list string) (dlg d : ReviewDialog) (bs : list nav)
    (i : nat) (b : button) (o : opened) :
  Snatcher.output_dir window = Some dir ->
  os_listdir dir = Some names ->
  (forall f : string, In f names -> rfind "/" f = (-1)%Z) ->
  review_output os_listdir window = Exec dlg ->
  In d (dlg :: session dlg bs) ->
  press platform d i b = Some o ->
  exists f : string,
    In f names /\ has_image_suffix f = true /\
    ((b = LeftButton /\ o = FullImage f (os_path_join dir f)) \/
     (b = RightButton /\ o = open_in_system platform (os_path_join dir f))).
Proof.
  intros Ho L Hn Hr Hd Hp.
  pose proof (review_output_exec os_listdir window dir names dlg Ho L Hr) as E.
  assert (G : image_files d = image_list dir names /\
              incl (image_grid d) (image_list dir names)).
  { assert (I : incl (image_grid dlg) (image_files dlg)).
    { rewrite E. cbn [image_grid image_files PagerFacts.drawn].
      unfold PagerFacts.page. cbn [Z.to_nat skipn].
      intros x Hx. rewrite <- (firstn_skipn 10 (image_list dir names)).
      apply in_or_app. now left. }
    destruct Hd as [<- | Hd].
    - rewrite E in *. split; [reflexivity | exact I].
    - pose proof (session_incl bs dlg I) as F.
      rewrite Forall_forall in F. specialize (F d Hd).
      rewrite E in F. exact F. }
  destruct G as [_ G].
  unfold press in Hp.
  destruct (nth_error (image_grid d) i) as [p |] eqn:N; [| discriminate].
  apply nth_error_In, G, image_list_in in N.
  destruct N as [f [Hf [Hi ->]]].
  exists f. split; [exact Hf |]. split; [exact Hi |].
  destruct b; cbn [create_mouse_events] in Hp; inversion Hp.
  - left. split; [reflexivity |]. unfold open_full_image.
    now rewrite (basename_join dir f (Hn f Hf)).
  - right. split; reflexivity.
Qed.


Lemma press_opens_the_listed_file_witness :
  exists f : string,
    In f ["b.PNG"; "notes.txt"; "a.jpg"] /\ has_image_suffix f = true /\
    ((LeftButton = LeftButton /\
      FullImage "b.PNG" "out/b.PNG" = FullImage f (os_path_join "out" f)) \/
     (LeftButton = RightButton /\
      FullImage "b.PNG" "out/b.PNG"
      = open_in_system "linux" (os_path_join "out" f))).
Proof.
  apply (press_opens_the_listed_file small_folder
           (Snatcher.mkWindow None (Some "out") "") "out" "linux"
           ["b.PNG"; "notes.txt"; "a.jpg"]
           (fst (init (image_list "out" ["b.PNG"; "notes.txt"; "a.jpg"])))
           (fst (show_next
                   (fst (init (image_list "out"
                                 ["b.PNG"; "notes.txt"; "a.jpg"])))))
           [Next] 1 LeftButton (FullImage "b.PNG" "out/b.PNG")).
  - reflexivity.
  - reflexivity.
  - intros f [<- | [<- | [<- | []]]]; reflexivity.
  - vm_compute. reflexivity.
  - right. left. reflexivity.
  - vm_compute. reflexivity.
Defined.

End ThumbnailFacts.

(** * The arithmetic of the estimate *)

Module EtaFloats.

Import Binary64 FloatFacts Exact Builtins Window.
Local Open Scope R_scope.

(** [r] is the float that holds [v >= 0]. *)
Definition holds (r : spec_float) (v : R) : Prop :=
  stores r false v /\ valid_binary r = true.


Lemma holds_exact (r : spec_float) (v : R) : holds r v -> RN0 v v.
Proof. intros [S V]. exact (stored_exact r v S V). Qed.

Lemma outcome_holds (v : R) (r : spec_float) :
  outcome false v r -> holds r v \/ r = S754_infinity false.
Proof.
  intros O. destruct (outcome_cases _ _ _ O) as [[_ H] | H];
    [left; exact H | right; exact H].
Qed.

Lemma Prim2SF_5_5 :
  Prim2SF lit_5_5 = S754_finite false 6192449487634432 (-50).
Proof. reflexivity. Qed.

Lemma Prim2SF_3_0 :
  Prim2SF lit_3_0 = S754_finite false 6755399441055744 (-51).
Proof. reflexivity. Qed.

Lemma holds_5_5 : holds (Prim2SF lit_5_5) (11 / 2).
Proof.
  rewrite Prim2SF_5_5. split; [| reflexivity]. split; [reflexivity |].
  change (-50)%Z with (- (50))%Z. rewrite bpow_opp, <- IZR_pow2 by lia.
  change (2 ^ 50)%Z with 1125899906842624%Z. lra.
Qed.

Lemma holds_3_0 : holds (Prim2SF lit_3_0) 3.
Proof.
  rewrite Prim2SF_3_0. split; [| reflexivity]. split; [reflexivity |].
  change (-51)%Z with (- (51))%Z. rewrite bpow_opp, <- IZR_pow2 by lia.
  change (2 ^ 51)%Z with 2251799813685248%Z. lra.
Qed.

(** A float that is not [<= 0]: a positive number, the infinity, or no
    number. *)
Inductive positive_float (r : spec_float) : Prop :=
| is_nan : r = S754_nan -> positive_float r
| is_infinity : r = S754_infinity false -> positive_float r
| is_positive (v : R) : holds r v -> 0 < v -> positive_float r.

Lemma not_leb_zero (x : float) :
  (x <=? 0)%float = false -> positive_float (Prim2SF x).
Proof.
  rewrite leb_spec, Prim2SF_zero. pose proof (Prim2SF_valid x) as V.
  destruct (Prim2SF x) as [s | s | | s m e]; try destruct s; cbn;
    try discriminate; intros _.
  - now apply is_infinity.
  - now apply is_nan.
  - apply (is_positive _ (IZR (Zpos m) * bpow e)).
    + split; [split; reflexivity | exact V].
    + apply Rmult_lt_0_compat; [apply IZR_lt; lia | apply bpow_pos].
Qed.

(** The value of [d / s / 5.5 + 3.0] on two floats that are not
    [<= 0], when it has one. *)
Definition total_time_SF (d s : spec_float) : spec_float :=
  SFadd prec emax
    (SFdiv prec emax (SFdiv prec emax d s) (Prim2SF lit_5_5))
    (Prim2SF lit_3_0).

Lemma div_holds (a b : spec_float) (va vb : R) :
  holds a va -> holds b vb -> 0 < vb ->
  SFdiv prec emax a b = S754_infinity false \/
  exists q : R, RN0 (va / vb) q /\ holds (SFdiv prec emax a b) q.
Proof.
  intros [Sa Va] [Sb Vb] P.
  destruct (SFdiv_nonneg a b va vb Sa Sb P) as [q [Rq Oq]].
  destruct (outcome_holds q _ Oq) as [H | H]; [right | left; exact H].
  exists q. split; assumption.
Qed.

Lemma add_holds (a b : spec_float) (va vb : R) :
  holds a va -> holds b vb ->
  SFadd prec emax a b = S754_infinity false \/
  exists w : R, RN0 (va + vb) w /\ holds (SFadd prec emax a b) w.
Proof.
  intros [Sa Va] [Sb Vb].
  destruct (SFadd_nonneg a b va vb Sa Va Sb Vb) as [w [Rw Ow]].
  destruct (outcome_holds w _ Ow) as [H | H]; [right | left; exact H].
  exists w. split; assumption.
Qed.

Lemma RN0_three : RN0 3 3.
Proof. exact (holds_exact _ _ holds_3_0). Qed.

(** From a quotient that has a value on: the value of the total. *)
Lemma total_of_quotient (q : spec_float) (vq : R) :
  holds q vq ->
  let t := SFadd prec emax (SFdiv prec emax q (Prim2SF lit_5_5))
                 (Prim2SF lit_3_0) in
  t = S754_infinity false \/
  exists p w : R,
    RN0 (vq / (11 / 2)) p /\ RN0 (p + 3) w /\ holds t w.
Proof.
  intros Hq t. unfold t.
  destruct (div_holds q _ vq (11 / 2) Hq holds_5_5 ltac:(lra))
    as [I | [p [Rp Hp]]].
  - rewrite I, Prim2SF_3_0. left. reflexivity.
  - destruct (add_holds _ _ p 3 Hp holds_3_0) as [I | [w [Rw Hw]]].
    + left. exact I.
    + right. exists p, w. auto.
Qed.

Lemma total_at_least_three (q : spec_float) (vq : R) (n : Z) :
  holds q vq ->
  round_of_SF (SFadd prec emax (SFdiv prec emax q (Prim2SF lit_5_5))
                 (Prim2SF lit_3_0)) = Ok n ->
  (3 <= n)%Z.
Proof.
  intros Hq E.
  destruct (total_of_quotient q vq Hq) as [I | [p [w [Rp [Rw [Sw Vw]]]]]].
  - rewrite I in E. discriminate.
  - destruct (round_of_stored _ w Sw) as [n' [E' N]].
    rewrite E' in E. inversion E; subst n'.
    apply (nearest_even_ge w n 3 N).
    apply (RN0_mono 3 (p + 3) 3 w RN0_three Rw).
    pose proof (RN0_nonneg _ _ Rp). lra.
Qed.

Lemma positive_float_shape (r : spec_float) :
  positive_float r ->
  r = S754_nan \/ r = S754_infinity false \/
  exists (m : positive) (e : Z),
    r = S754_finite false m e /\
    holds r (IZR (Zpos m) * bpow e).
Proof.
  intros [-> | -> | v [S V] P]; auto.
  destruct r as [x | x | | x m e]; cbn [stores] in S; try contradiction;
    destruct S as [-> E]; [lra |].
  right. right. exists m, e. split; [reflexivity |].
  split; [split; reflexivity | exact V].
Qed.

(** The quotient [d / s] of two floats that are not [<= 0]. *)
Lemma quotient_cases (d s : spec_float) :
  positive_float d -> positive_float s ->
  SFdiv prec emax d s = S754_nan \/
  SFdiv prec emax d s = S754_infinity false \/
  exists vq : R, holds (SFdiv prec emax d s) vq.
Proof.
  intros Hd Hs.
  destruct (positive_float_shape d Hd) as [-> | [-> | [md [ed [-> Vd]]]]];
    destruct (positive_float_shape s Hs) as [-> | [-> | [ms [es [-> Vs]]]]];
    try (cbn [SFdiv]; auto; fail).
  - right. right. exists 0. cbn [SFdiv xorb].
    split; [split; reflexivity | reflexivity].
  - assert (P : 0 < IZR (Zpos ms) * bpow es)
      by (apply Rmult_lt_0_compat; [apply IZR_lt; lia | apply bpow_pos]).
    destruct (div_holds _ _ _ _ Vd Vs P) as [I | [q [_ Hq]]]; eauto.
Qed.

Lemma round_total (d s : spec_float) (n : Z) :
  positive_float d -> positive_float s ->
  round_of_SF (total_time_SF d s) = Ok n -> (3 <= n)%Z.
Proof.
  intros Hd Hs. unfold total_time_SF.
  destruct (quotient_cases d s Hd Hs) as [-> | [-> | [vq Hq]]].
  - cbn. discriminate.
  - rewrite Prim2SF_5_5, Prim2SF_3_0. cbn. discriminate.
  - apply (total_at_least_three _ vq n Hq).
Qed.

Lemma Prim2SF_total (d s : float) :
  Prim2SF (d / s / lit_5_5 + lit_3_0)%float
  = total_time_SF (Prim2SF d) (Prim2SF s).
Proof. now rewrite add_spec, !div_spec. Qed.


(** ** The order of floats *)

Lemma digits_below (m : positive) :
  (Zpos m < 2 ^ Zpos (digits2_pos m))%Z /\
  (2 ^ (Zpos (digits2_pos m) - 1) <= Zpos m)%Z.
Proof. pose proof (digits2_bounds m). lia. Qed.

(** Among floats, a smaller exponent means a smaller value. *)
Lemma exponent_order (m1 m2 : positive) (e1 e2 : Z) :
  SpecFloat.bounded prec emax m1 e1 = true ->
  SpecFloat.bounded prec emax m2 e2 = true ->
  (e1 < e2)%Z ->
  IZR (Zpos m1) * bpow e1 < IZR (Zpos m2) * bpow e2.
Proof.
  intros B1 B2 L.
  destruct (bounded_inv m1 e1 B1) as [D1 [E1 _]].
  destruct (bounded_inv m2 e2 B2) as [D2 [E2 [F2 | F2]]]; [| lia].
  destruct (digits_below m1) as [U1 _].
  destruct (digits_below m2) as [_ L2]. rewrite F2 in L2.
  assert (M1 : (Zpos m1 < 2 ^ 53)%Z).
  { apply Z.lt_le_trans with (2 ^ Zpos (digits2_pos m1))%Z; [exact U1 |].
    apply Z.pow_le_mono_r; lia. }
  apply IZR_lt in M1. apply IZR_le in L2.
  rewrite IZR_pow2 in M1, L2 by lia.
  change (53 - 1)%Z with 52%Z in L2.
  pose proof (bpow_pos e1). pose proof (bpow_pos e2).
  apply Rlt_le_trans with (bpow 53 * bpow e1).
  - apply Rmult_lt_compat_r; assumption.
  - apply Rle_trans with (bpow 52 * bpow e2).
    + rewrite <- !bpow_add. apply bpow_le. lia.
    + apply Rmult_le_compat_r; [lra | exact L2].
Qed.

Lemma leb_finite (m1 m2 : positive) (e1 e2 : Z) :
  SpecFloat.bounded prec emax m1 e1 = true ->
  SpecFloat.bounded prec emax m2 e2 = true ->
  SFleb (S754_finite false m1 e1) (S754_finite false m2 e2) = true ->
  IZR (Zpos m1) * bpow e1 <= IZR (Zpos m2) * bpow e2.
Proof.
  intros B1 B2. unfold SFleb. cbn [SFcompare].
  destruct (Z.compare_spec e1 e2) as [E | E | E].
  - subst e2. rewrite Pos.compare_cont_spec. cbn [Pos.switch_Eq].
    intros H. apply Rmult_le_compat_r; [left; apply bpow_pos |].
    apply IZR_le.
    destruct (Pos.compare_spec m1 m2); try discriminate; lia.
  - intros _. left. apply exponent_order; assumption.
  - discriminate.
Qed.

(** Two floats in order, the first above zero. *)
Inductive ordered (a b : spec_float) : Prop :=
| to_infinity (m : positive) (e : Z) :
    a = S754_finite false m e -> valid_binary a = true ->
    b = S754_infinity false -> ordered a b
| both_infinite :
    a = S754_infinity false -> b = S754_infinity false -> ordered a b
| both_finite (m1 m2 : positive) (e1 e2 : Z) :
    a = S754_finite false m1 e1 -> b = S754_finite false m2 e2 ->
    valid_binary a = true -> valid_binary b = true ->
    IZR (Zpos m1) * bpow e1 <= IZR (Zpos m2) * bpow e2 -> ordered a b.

Lemma ordered_of_leb (x y : float) :
  (0 <? x)%float = true -> (x <=? y)%float = true ->
  ordered (Prim2SF x) (Prim2SF y).
Proof.
  rewrite ltb_spec, leb_spec, Prim2SF_zero.
  pose proof (Prim2SF_valid x) as Vx. pose proof (Prim2SF_valid y) as Vy.
  destruct (Prim2SF x) as [sx | sx | | sx mx ex]; try destruct sx; cbn;
    try discriminate; intros _;
    destruct (Prim2SF y) as [sy | sy | | sy my ey]; try destruct sy;
    try (cbn; discriminate); intros L.
  - now apply both_infinite.
  - now apply (to_infinity _ _ mx ex).
  - apply (both_finite _ _ mx my ex ey); auto.
    apply leb_finite; assumption.
Qed.

Lemma finite_holds (m : positive) (e : Z) :
  valid_binary (S754_finite false m e) = true ->
  holds (S754_finite false m e) (IZR (Zpos m) * bpow e) /\
  0 < IZR (Zpos m) * bpow e.
Proof.
  intros V. split; [split; [split; reflexivity | exact V] |].
  apply Rmult_lt_0_compat; [apply IZR_lt; lia | apply bpow_pos].
Qed.

(** The total grows with the quotient. *)
Lemma total_mono (q1 q2 : spec_float) (v1 v2 : R) (n1 n2 : Z) :
  holds q1 v1 -> holds q2 v2 -> v1 <= v2 ->
  round_of_SF (SFadd prec emax (SFdiv prec emax q1 (Prim2SF lit_5_5))
                 (Prim2SF lit_3_0)) = Ok n1 ->
  round_of_SF (SFadd prec emax (SFdiv prec emax q2 (Prim2SF lit_5_5))
                 (Prim2SF lit_3_0)) = Ok n2 ->
  (n1 <= n2)%Z.
Proof.
  intros H1 H2 L E1 E2.
  destruct (total_of_quotient q1 v1 H1) as [I | [p1 [w1 [P1 [W1 [S1 _]]]]]];
    [rewrite I in E1; discriminate |].
  destruct (total_of_quotient q2 v2 H2) as [I | [p2 [w2 [P2 [W2 [S2 _]]]]]];
    [rewrite I in E2; discriminate |].
  destruct (round_of_stored _ w1 S1) as [n1' [E1' N1]].
  destruct (round_of_stored _ w2 S2) as [n2' [E2' N2]].
  rewrite E1' in E1. rewrite E2' in E2.
  inversion E1; inversion E2; subst n1' n2'.
  apply (nearest_even_mono w1 w2 n1 n2 N1 N2).
  apply (RN0_mono _ _ _ _ W1 W2).
  assert (p1 <= p2); [| lra].
  apply (RN0_mono _ _ _ _ P1 P2).
  apply Rmult_le_compat_r; lra.
Qed.

Lemma total_time_mono (d1 d2 s1 s2 : spec_float) (n1 n2 : Z) :
  ordered d1 d2 -> ordered s2 s1 ->
  round_of_SF (total_time_SF d1 s1) = Ok n1 ->
  round_of_SF (total_time_SF d2 s2) = Ok n2 ->
  (n1 <= n2)%Z.
Proof.
  unfold total_time_SF.
  intros [md ed -> Vd -> | -> -> | md1 md2 ed1 ed2 -> -> Vd1 Vd2 Ld] Hs.
  - (* the longer one is infinite: no estimate for it *)
    intros _.
    destruct Hs as [ms es -> Vs -> | -> -> | ms2 ms1 es2 es1 -> -> _ _ _];
      cbn [SFdiv xorb]; rewrite ?Prim2SF_5_5, ?Prim2SF_3_0; cbn; discriminate.
  - intros _.
    destruct Hs as [ms es -> Vs -> | -> -> | ms2 ms1 es2 es1 -> -> _ _ _];
      cbn [SFdiv xorb]; rewrite ?Prim2SF_5_5, ?Prim2SF_3_0; cbn; discriminate.
  - destruct (finite_holds md1 ed1 Vd1) as [H1 P1].
    destruct (finite_holds md2 ed2 Vd2) as [H2 P2].
    destruct Hs as [ms es -> Vs -> | -> -> | ms2 ms1 es2 es1 -> -> Vs2 Vs1 Ls].
    + (* the first spacing is infinite, the second finite *)
      destruct (finite_holds ms es Vs) as [Hs Ps].
      destruct (div_holds _ _ _ _ H2 Hs Ps) as [I | [q [Rq Hq]]].
      * intros _. rewrite I, Prim2SF_5_5, Prim2SF_3_0. cbn. discriminate.
      * change (SFdiv prec emax (S754_finite false md1 ed1)
                        (S754_infinity false)) with (S754_zero false).
        apply (total_mono (S754_zero false) _ 0 q);
          [split; [split; reflexivity | reflexivity] | exact Hq |].
        exact (RN0_nonneg _ _ Rq).
    + cbn [SFdiv xorb]. intros E1 E2. rewrite E1 in E2.
      inversion E2. lia.
    + destruct (finite_holds ms1 es1 Vs1) as [Hs1 Ps1].
      destruct (finite_holds ms2 es2 Vs2) as [Hs2 Ps2].
      destruct (div_holds _ _ _ _ H1 Hs1 Ps1) as [I | [q1 [Rq1 Hq1]]];
        [intros E; rewrite I, Prim2SF_5_5, Prim2SF_3_0 in E; cbn in E;
         discriminate |].
      destruct (div_holds _ _ _ _ H2 Hs2 Ps2) as [I | [q2 [Rq2 Hq2]]];
        [intros _ E; rewrite I, Prim2SF_5_5, Prim2SF_3_0 in E; cbn in E;
         discriminate |].
      apply (total_mono _ _ q1 q2 n1 n2 Hq1 Hq2).
      apply (RN0_mono _ _ _ _ Rq1 Rq2).
      set (a1 := IZR (Zpos md1) * bpow ed1) in *.
      set (a2 := IZR (Zpos md2) * bpow ed2) in *.
      set (b1 := IZR (Zpos ms1) * bpow es1) in *.
      set (b2 := IZR (Zpos ms2) * bpow es2) in *.
      apply Rle_trans with (a2 / b1).
      * apply Rmult_le_compat_r; [| exact Ld].
        left. apply Rinv_0_lt_compat. exact Ps1.
      * apply Rmult_le_compat_l; [lra |].
        apply Rinv_le_contravar; assumption.
Qed.

End EtaFloats.

(** * Properties of the estimate and of the labels *)

Module WindowFacts.

Import Window Builtins.

Lemma estimate_unfold (d s : float) (width height : Z) :
  ((d <=? 0) || (s <=? 0))%float = false ->
  estimate_frame_extraction_eta d s width height
  = (n <- round_of_SF (EtaFloats.total_time_SF (Prim2SF d) (Prim2SF s)) ;;
     Ok (if 1 <? n then IntSeconds n else FloatOne)).
Proof.
  intros H. unfold estimate_frame_extraction_eta. rewrite H.
  unfold round. now rewrite EtaFloats.Prim2SF_total.
Qed.

Lemma estimate_of_positive (d s : float) (width height : Z) (v : seconds) :
  ((d <=? 0) || (s <=? 0))%float = false ->
  estimate_frame_extraction_eta d s width height = Ok v ->
  exists n : Z, v = IntSeconds n /\ 3 <= n.
Proof.
  intros H. rewrite (estimate_unfold d s width height H).
  destruct (round_of_SF _) as [n |] eqn:E; cbn [bind]; [| discriminate].
  apply orb_false_elim in H. destruct H as [Hd Hs].
  pose proof (EtaFloats.round_total _ _ n
                (EtaFloats.not_leb_zero d Hd)
                (EtaFloats.not_leb_zero s Hs) E) as N.
  destruct (Z.ltb_spec 1 n); [| lia].
  intros V. inversion V. eauto.
Qed.

Lemma estimate_not_negative (d s : float) (width height n : Z) :
  estimate_frame_extraction_eta d s width height = Ok (IntSeconds n) ->
  0 <= n.
Proof.
  destruct ((d <=? 0) || (s <=? 0))%float eqn:H.
  - unfold estimate_frame_extraction_eta. rewrite H.
    intros E. inversion E. lia.
  - intros E.
    destruct (estimate_of_positive d s width height _ H E) as [m [V M]].
    inversion V. lia.
Qed.

(** X10.  Whenever [estimate_frame_extraction_eta] returns, it returns
    the [int] 0 for a duration or a spacing that is [<= 0], and an
    [int] of three seconds at least otherwise: the [1.0] of its last
    line is never the result. *)
Theorem estimate_at_least_three (d s : float) (width height : Z)
    (v : seconds) :
  estimate_frame_extraction_eta d s width height = Ok v ->
  (((d <=? 0) || (s <=? 0))%float = true /\ v = IntSeconds 0) \/
  (((d <=? 0) || (s <=? 0))%float = false /\
   exists n : Z, v = IntSeconds n /\ 3 <= n).
Proof.
  destruct ((d <=? 0) || (s <=? 0))%float eqn:H; intros E.
  - left. split; [reflexivity |].
    unfold estimate_frame_extraction_eta in E. rewrite H in E.
    now inversion E.
  - right. split; [reflexivity |].
    exact (estimate_of_positive d s width height v H E).
Qed.

Lemma estimate_at_least_three_witness :
  ((((1200 <=? 0) || (10 <=? 0))%float = true /\ IntSeconds 25 = IntSeconds 0) \/
   (((1200 <=? 0) || (10 <=? 0))%float = false /\
    exists n : Z, IntSeconds 25 = IntSeconds n /\ 3 <= n)).
Proof.
  apply (estimate_at_least_three 1200 10 1920 1080 (IntSeconds 25)).
  vm_compute. reflexivity.
Defined.

Lemma ordered_not_leb_zero (x y : float) :
  EtaFloats.ordered (Prim2SF x) (Prim2SF y) ->
  (x <=? 0)%float = false /\ (y <=? 0)%float = false.
Proof.
  rewrite !leb_spec, FloatFacts.Prim2SF_zero.
  intros [m e -> _ -> | -> -> | m1 m2 e1 e2 -> -> _ _ _]; split; reflexivity.
Qed.

(** X11.  A longer video, or a closer spacing, never lowers the
    estimate: for durations [0 < d1 <= d2] and spacings
    [0 < s2 <= s1], the estimate for [d1] and [s1], when there is one,
    is at most the estimate for [d2] and [s2]. *)
Theorem estimate_grows_with_the_work
    (d1 d2 s1 s2 : float) (w1 h1 w2 h2 n1 n2 : Z) :
  (0 <? d1)%float = true -> (d1 <=? d2)%float = true ->
  (0 <? s2)%float = true -> (s2 <=? s1)%float = true ->
  estimate_frame_extraction_eta d1 s1 w1 h1 = Ok (IntSeconds n1) ->
  estimate_frame_extraction_eta d2 s2 w2 h2 = Ok (IntSeconds n2) ->
  n1 <= n2.
Proof.
  intros Pd Ld Ps Ls.
  pose proof (EtaFloats.ordered_of_leb d1 d2 Pd Ld) as Od.
  pose proof (EtaFloats.ordered_of_leb s2 s1 Ps Ls) as Os.
  destruct (ordered_not_leb_zero d1 d2 Od) as [Zd1 Zd2].
  destruct (ordered_not_leb_zero s2 s1 Os) as [Zs2 Zs1].
  rewrite !estimate_unfold by (rewrite ?Zd1, ?Zd2, ?Zs1, ?Zs2; reflexivity).
  destruct (round_of_SF (EtaFloats.total_time_SF (Prim2SF d1) (Prim2SF s1)))
    as [m1 |] eqn:E1; cbn [bind]; [| discriminate].
  destruct (round_of_SF (EtaFloats.total_time_SF (Prim2SF d2) (Prim2SF s2)))
    as [m2 |] eqn:E2; cbn [bind]; [| discriminate].
  pose proof (EtaFloats.total_time_mono _ _ _ _ m1 m2 Od Os E1 E2) as M.
  destruct (1 <? m1); [| discriminate].
  destruct (1 <? m2); [| discriminate].
  intros V1 V2. inversion V1. inversion V2. subst. exact M.
Qed.

Lemma estimate_grows_with_the_work_witness :
  estimate_frame_extraction_eta 1200 10 1920 1080 = Ok (IntSeconds 25) /\
  estimate_frame_extraction_eta 2400 10 1920 1080 = Ok (IntSeconds 47) /\
  25 <= 47.
Proof.
  split; [vm_compute; reflexivity |]. split; [vm_compute; reflexivity |].
  apply (estimate_grows_with_the_work 1200 2400 10 10 1920 1080 1920 1080
           25 47);
    vm_compute; reflexivity.
Defined.


(** ** The label *)

Local Open Scope string_scope.

(** The estimate in words, with the divisions of [Z]. *)
Definition split_seconds (n : Z) : string :=
  if (n <? 60)%Z then "~" ++ Py.str n ++ " seconds"
  else if (n <? 3600)%Z
  then "~" ++ Py.str (n / 60) ++ "m " ++ Py.str (n mod 60) ++ "s"
  else "~" ++ Py.str (n / 3600) ++ "h " ++ Py.str (n mod 3600 / 60) ++ "m".

Lemma int_div_60 (n : Z) :
  (0 <= n < 3600)%Z -> Py.int (Py.truediv n 60) = Ok (n / 60)%Z.
Proof.
  intros Hn.
  assert (n / 60 < 60)%Z by (apply Z.div_lt_upper_bound; lia).
  apply (Exact.int_truediv n 60 6);
    change (2 ^ 6)%Z with 64%Z; change (2 ^ 53)%Z with 9007199254740992%Z;
    lia.
Qed.

Lemma int_div_3600 (n : Z) :
  (0 <= n < 2 ^ 52)%Z -> Py.int (Py.truediv n 3600) = Ok (n / 3600)%Z.
Proof.
  change (2 ^ 52)%Z with 4503599627370496%Z. intros Hn.
  assert (n / 3600 < 2199023255551)%Z
    by (apply Z.div_lt_upper_bound; lia).
  apply (Exact.int_truediv n 3600 12);
    change (2 ^ 12)%Z with 4096%Z; change (2 ^ 53)%Z with 9007199254740992%Z;
    lia.
Qed.

Lemma eta_str_split (n : Z) :
  (0 <= n < 2 ^ 52)%Z -> eta_str (IntSeconds n) = Ok (split_seconds n).
Proof.
  intros Hn. unfold eta_str, split_seconds.
  destruct (Z.ltb_spec n 60); [reflexivity |].
  destruct (Z.ltb_spec n 3600).
  - rewrite int_div_60 by lia. reflexivity.
  - pose proof (Z.mod_pos_bound n 3600 ltac:(lia)) as MB.
    rewrite int_div_3600 by exact Hn. cbn [bind].
    rewrite int_div_60 by lia. reflexivity.
Qed.

Section Environment.

Variable py_float : string -> result float.
Variable py_strip : string -> string.

(** X12.  The label splits the estimate into hours, minutes and
    seconds as whole division does.  With a spacing typed that reads as
    a number above zero and a video whose duration, width and height
    are set and not zero, and an estimate of [n < 2^52] seconds,
    [update_eta] writes "ETA: ~n seconds" for [n < 60],
    "ETA: ~{n div 60}m {n mod 60}s" for [n < 3600] and
    "ETA: ~{n div 3600}h {(n mod 3600) div 60}m" above, the float
    divisions of the code giving the quotients of the integers. *)
Theorem eta_label_splits_the_estimate
    (w : MainWindow) (s d : float) (width height n : Z) :
  Snatcher.nonempty (py_strip (Snatcher.fps_input (inputs w))) = true ->
  py_float (Snatcher.fps_input (inputs w)) = Ok s ->
  (s <=? 0)%float = false ->
  video_duration w = Value d -> (d =? 0)%float = false ->
  video_width w = Value width -> width <> 0%Z ->
  video_height w = Value height -> height <> 0%Z ->
  estimate_frame_extraction_eta d s width height = Ok (IntSeconds n) ->
  (n < 2 ^ 52)%Z ->
  eta_label (update_eta py_float py_strip w)
  = "ETA: "
    ++ (if (n <? 60)%Z then "~" ++ Py.str n ++ " seconds"
        else if (n <? 3600)%Z
        then "~" ++ Py.str (n / 60) ++ "m " ++ Py.str (n mod 60) ++ "s"
        else "~" ++ Py.str (n / 3600) ++ "h "
             ++ Py.str (n mod 3600 / 60) ++ "m").
Proof.
  intros Ht Hs Ps Hd Pd Hw Pw Hh Ph He Hn.
  assert (N0 : (0 <= n)%Z).
  { exact (estimate_not_negative d s width height n He). }
  unfold update_eta, eta_text. cbn [eta_label set_eta_label].
  rewrite Ht, Hs, Ps, Hd, Pd, Hw, Hh. cbn [negb].
  destruct (Z.eqb_spec width 0); [contradiction |].
  destruct (Z.eqb_spec height 0); [contradiction |].
  rewrite He. cbn [bind].
  rewrite (eta_str_split n ltac:(lia)). reflexivity.
Qed.


Variable os_getsize : string -> option Z.
Variable cv2_properties : string -> result (float * float * float * float).

(** The [try] block leaves no duration when the capture raises or
    reports a rate that is not positive. *)
Lemma read_properties_without_rate (file : string) :
  (forall fps frame_count width height : float,
     cv2_properties file = Ok (fps, frame_count, width, height) ->
     (fps <=? 0)%float = true) ->
  fst (fst (read_properties cv2_properties file)) = PyNone.
Proof.
  intros Hp. unfold read_properties.
  destruct (cv2_properties file) as [[[[fps fc] wd] ht] | e]; cbn [bind];
    [| reflexivity].
  destruct (Py.int wd); cbn [bind]; [| reflexivity].
  destruct (Py.int ht); cbn [bind]; [| reflexivity].
  now rewrite (Hp fps fc wd ht eq_refl).
Qed.

(** X13.  No estimate without the properties of a video.  With a
    spacing typed that reads as a number above zero: on a window whose
    [video_duration] was never assigned (no video was chosen yet)
    [update_eta] shows "ETA: N/A (calculation error)", the
    [AttributeError] being caught; and after [browse_video] on a file
    whose capture raises, or reports a rate that is not positive, the
    label shows "ETA: N/A (Invalid video properties)". *)
Theorem eta_needs_video_properties (w : MainWindow) (s : float) :
  Snatcher.nonempty (py_strip (Snatcher.fps_input (inputs w))) = true ->
  py_float (Snatcher.fps_input (inputs w)) = Ok s ->
  (s <=? 0)%float = false ->
  (video_duration w = Unset ->
   eta_label (update_eta py_float py_strip w)
   = "ETA: N/A (calculation error)") /\
  (forall (file : string) (size : Z),
     file <> "" -> os_getsize file = Some size ->
     (forall fps frame_count width height : float,
        cv2_properties file = Ok (fps, frame_count, width, height) ->
        (fps <=? 0)%float = true) ->
     eta_label
       (fst (browse_video py_float py_strip os_getsize cv2_properties w file))
     = "ETA: N/A (Invalid video properties)").
Proof.
  intros Ht Hs Ps. split.
  - intros Hd. unfold update_eta, eta_text. cbn [eta_label set_eta_label].
    now rewrite Ht, Hs, Ps, Hd.
  - intros file size Hf Hg Hp.
    pose proof (read_properties_without_rate file Hp) as E.
    unfold browse_video. destruct file as [| c file]; [congruence |].
    rewrite Hg.
    destruct (read_properties cv2_properties (String c file))
      as [[duration width] height].
    cbn [fst] in E. subst duration.
    cbn [fst]. unfold update_eta, eta_text.
    cbn [eta_label set_eta_label inputs set_properties set_video_label
         set_file_size set_inputs Snatcher.fps_input video_duration].
    now rewrite Ht, Hs, Ps.
Qed.

End Environment.

(** A window with a spacing of ten seconds typed in, before any video
    was chosen and after a video of ten hours was. *)
Definition typed_ten : MainWindow :=
  set_inputs init (Snatcher.mkWindow None None "10").

Definition ten_hours : MainWindow :=
  set_properties typed_ten (Value 36000%float) (Value 1920%Z) (Value 1080%Z).

Definition same_text (text : string) : string := text.

Lemma eta_label_splits_the_estimate_witness :
  eta_label (update_eta SamplerFacts.float_of_digits same_text ten_hours)
  = "ETA: ~10m 58s".
Proof.
  exact (eta_label_splits_the_estimate SamplerFacts.float_of_digits same_text
           ten_hours 10%float 36000%float 1920%Z 1080%Z 658%Z
           eq_refl eq_refl eq_refl eq_refl eq_refl eq_refl
           ltac:(discriminate) eq_refl ltac:(discriminate) eq_refl eq_refl).
Defined.

Definition one_mebibyte_less_one (file : string) : option Z := Some 1048575%Z.

Definition no_capture (file : string)
    : result (float * float * float * float) := Raise CvError.

Lemma eta_needs_video_properties_witness :
  (video_duration typed_ten = Unset ->
   eta_label (update_eta SamplerFacts.float_of_digits same_text typed_ten)
   = "ETA: N/A (calculation error)") /\
  (forall (file : string) (size : Z),
     file <> "" -> one_mebibyte_less_one file = Some size ->
     (forall fps frame_count width height : float,
        no_capture file = Ok (fps, frame_count, width, height) ->
        (fps <=? 0)%float = true) ->
     eta_label
       (fst (browse_video SamplerFacts.float_of_digits same_text
               one_mebibyte_less_one no_capture typed_ten file))
     = "ETA: N/A (Invalid video properties)").
Proof.
  apply (eta_needs_video_properties SamplerFacts.float_of_digits same_text
           one_mebibyte_less_one no_capture typed_ten 10%float);
    reflexivity.
Defined.

(** ** The size on the video label *)

Import Binary64 FloatFacts Exact.

Lemma truediv_power (size t : Z) :
  (0 <= size < 2 ^ 53)%Z -> (0 <= t < 53)%Z ->
  stores (Prim2SF (Py.truediv size (2 ^ t))) false
         (IZR size * bpow (- t)).
Proof.
  intros Hs Ht. unfold Py.truediv.
  rewrite div_spec, !Prim2SF_float_of_int. unfold SF64div.
  assert (P : (0 < 2 ^ t < 2 ^ 53)%Z).
  { split; [apply Z.pow_pos_nonneg; lia | apply Z.pow_lt_mono_r; lia]. }
  destruct (normalize_outcome size ltac:(lia)) as [va [RA OA]].
  destruct (normalize_outcome (2 ^ t) ltac:(lia)) as [vb [RB OB]].
  assert (va = IZR size)
    by (apply (RN0_fun (IZR size)); [exact RA | now apply RN0_int]).
  assert (vb = IZR (2 ^ t))
    by (apply (RN0_fun (IZR (2 ^ t))); [exact RB | apply RN0_int; lia]).
  subst va vb.
  assert (T : forall z : Z, (z < 2 ^ 53)%Z -> (IZR z < bpow 1024)%R).
  { intros z Hz. apply Rlt_trans with (bpow 53); [| apply bpow_lt; lia].
    rewrite <- IZR_pow2 by lia. apply IZR_lt. exact Hz. }
  destruct (outcome_stored _ _ _ OA (T size ltac:(lia))) as [SA VA].
  destruct (outcome_stored _ _ _ OB (T (2 ^ t)%Z ltac:(lia))) as [SB VB].
  assert (Pb : (0 < IZR (2 ^ t))%R) by (apply IZR_lt; lia).
  destruct (SFdiv_nonneg _ _ _ _ SA SB Pb) as [q [RQ OQ]].
  assert (E : (IZR size / IZR (2 ^ t) = IZR size * bpow (- t))%R).
  { rewrite IZR_pow2, bpow_opp by lia. reflexivity. }
  rewrite E in RQ.
  assert (q = (IZR size * bpow (- t))%R).
  { apply (RN0_fun _ _ _ RQ). apply RN0_dyadic; lia. }
  subst q.
  assert (Q : (IZR size * bpow (- t) < bpow 1024)%R).
  { apply Rle_lt_trans with (IZR size); [| apply T; lia].
    rewrite <- (Rmult_1_r (IZR size)) at 2.
    apply Rmult_le_compat_l; [apply IZR_le; lia |].
    rewrite <- bpow_0. apply bpow_le. lia. }
  exact (proj1 (outcome_stored _ _ _ OQ Q)).
Qed.

Lemma format_fixed_exact (ndigits : nat) (size t : Z) :
  (0 <= size < 2 ^ 53)%Z -> (0 <= t < 53)%Z ->
  format_fixed ndigits (Py.truediv size (2 ^ t))
  = fixed_digits ndigits
      (half_even_div (10 ^ Z.of_nat ndigits * size) (2 ^ t)).
Proof.
  intros Hs Ht. unfold format_fixed.
  pose proof (truediv_power size t Hs Ht) as S.
  assert (P : (0 < 2 ^ t)%Z) by (apply Z.pow_pos_nonneg; lia).
  assert (P10 : (0 < 10 ^ Z.of_nat ndigits)%Z)
    by (apply Z.pow_pos_nonneg; lia).
  destruct (Prim2SF (Py.truediv size (2 ^ t))) as [s | s | | s m e];
    cbn [stores] in S; try contradiction; destruct S as [-> E];
    cbn [format_fixed_SF]; change ("" ++ ?x) with x; f_equal.
  - assert (size = 0%Z).
    { pose proof (bpow_pos (- t)).
      assert (IZR size = 0%R) by nra. now apply eq_IZR in H0. }
    subst size. rewrite Z.mul_0_r. unfold half_even_div.
    rewrite Z.div_0_l, Z.mod_0_l by lia.
    destruct (Z.compare_spec (2 * 0) (2 ^ t)); [lia | reflexivity | lia].
  - apply (nearest_even_unique
             (IZR (10 ^ Z.of_nat ndigits * size) / IZR (2 ^ t))).
    + replace (IZR (10 ^ Z.of_nat ndigits * size) / IZR (2 ^ t))%R
        with (IZR (Zpos (Z.to_pos (Zpos m * 10 ^ Z.of_nat ndigits)))
              * bpow e)%R.
      * apply round_half_even_nearest.
      * rewrite Z2Pos.id by lia.
        rewrite !mult_IZR, IZR_pow2 by lia.
        transitivity (IZR (10 ^ Z.of_nat ndigits)
                      * (IZR (Zpos m) * bpow e))%R; [ring |].
        rewrite <- E, bpow_opp. field.
        pose proof (bpow_pos t). lra.
    + apply half_even_div_nearest. exact P.
Qed.

Lemma size_str_rounded (file_size : Z) :
  (0 <= file_size < 2 ^ 53)%Z ->
  size_str file_size
  = if (file_size <? 1024 * 1024)%Z
    then fixed_digits 1 (half_even_div (10 * file_size) 1024) ++ " KB"
    else if (file_size <? 1024 * 1024 * 1024)%Z
    then fixed_digits 1 (half_even_div (10 * file_size) (1024 * 1024))
         ++ " MB"
    else fixed_digits 2
           (half_even_div (100 * file_size) (1024 * 1024 * 1024))
         ++ " GB".
Proof.
  intros Hs. unfold size_str.
  pose proof (format_fixed_exact 1 file_size 10 Hs ltac:(lia)) as K.
  pose proof (format_fixed_exact 1 file_size 20 Hs ltac:(lia)) as M.
  pose proof (format_fixed_exact 2 file_size 30 Hs ltac:(lia)) as G.
  change (2 ^ 10)%Z with 1024%Z in K.
  change (2 ^ 20)%Z with (1024 * 1024)%Z in M.
  change (2 ^ 30)%Z with (1024 * 1024 * 1024)%Z in G.
  change (10 ^ Z.of_nat 1)%Z with 10%Z in K, M.
  change (10 ^ Z.of_nat 2)%Z with 100%Z in G.
  rewrite K, M, G. reflexivity.
Qed.


(** X14.  What [browse_video] writes on the video label, for a file of
    fewer than [2^53] bytes: the name of the file and its size in KB
    (below [1024^2] bytes), MB (below [1024^3]) or GB, the exact
    quotient rounded once to one digit after the point (two for GB),
    ties to even.  The slot also records the path and the size. *)
Theorem video_label_shows_rounded_size
    (py_float : string -> result float) (py_strip : string -> string)
    (os_getsize : string -> option Z)
    (cv2_properties : string -> result (float * float * float * float))
    (w : MainWindow) (file : string) (size : Z) :
  file <> "" -> os_getsize file = Some size -> (0 <= size < 2 ^ 53)%Z ->
  video_label
    (fst (browse_video py_float py_strip os_getsize cv2_properties w file))
  = "Video: " ++ Thumbnail.basename file ++ " <span style='color: red;'>("
    ++ (if (size <? 1024 * 1024)%Z
        then fixed_digits 1 (half_even_div (10 * size) 1024) ++ " KB"
        else if (size <? 1024 * 1024 * 1024)%Z
        then fixed_digits 1 (half_even_div (10 * size) (1024 * 1024))
             ++ " MB"
        else fixed_digits 2
               (half_even_div (100 * size) (1024 * 1024 * 1024))
             ++ " GB")
    ++ ")</span>" /\
  file_size
    (fst (browse_video py_float py_strip os_getsize cv2_properties w file))
  = Some size /\
  Snatcher.video_path
    (inputs
       (fst (browse_video py_float py_strip os_getsize cv2_properties w file)))
  = Some file.
Proof.
  intros Hf Hg Hs. unfold browse_video.
  destruct file as [| c file]; [congruence |]. rewrite Hg.
  destruct (read_properties cv2_properties (String c file))
    as [[duration width] height].
  cbn [fst]. unfold update_eta.
  cbn [video_label file_size inputs set_eta_label set_properties
       set_video_label set_file_size set_inputs Snatcher.video_path].
  rewrite (size_str_rounded size Hs). auto.
Qed.


Lemma video_label_shows_rounded_size_witness :
  video_label
    (fst (browse_video SamplerFacts.float_of_digits same_text
            one_mebibyte_less_one no_capture typed_ten "clips/walk.mp4"))
  = "Video: walk.mp4 <span style='color: red;'>(1024.0 KB)</span>" /\
  file_size
    (fst (browse_video SamplerFacts.float_of_digits same_text
            one_mebibyte_less_one no_capture typed_ten "clips/walk.mp4"))
  = Some 1048575%Z /\
  Snatcher.video_path
    (inputs
       (fst (browse_video SamplerFacts.float_of_digits same_text
               one_mebibyte_less_one no_capture typed_ten "clips/walk.mp4")))
  = Some "clips/walk.mp4".
Proof.
  apply (video_label_shows_rounded_size SamplerFacts.float_of_digits same_text
           one_mebibyte_less_one no_capture typed_ten "clips/walk.mp4"
           1048575%Z).
  - discriminate.
  - reflexivity.
  - split; [discriminate | reflexivity].
Defined.

End WindowFacts.

(** * Counting the snapshots *)

Module CountFacts.

Import Sampler SamplerFacts.

(** The positions a capture reports when it counts the frames it has
    read: 1 after the first, 2 after the second, and so on. *)
Definition counted {Image : Type} (frames : list Image) : list (Image * Z) :=
  combine frames (map Z.of_nat (List.seq 1 (List.length frames))).

Lemma next_multiple (k n : Z) :
  0 < k -> 0 <= n ->
  (n + 1) / k = n / k + (if (n + 1) mod k =? 0 then 1 else 0).
Proof.
  intros Hk Hn.
  pose proof (Z.div_mod n k ltac:(lia)) as DM.
  pose proof (Z.mod_pos_bound n k Hk) as MB.
  set (q := n / k) in *. set (r := n mod k) in *.
  destruct (Z.eq_dec (r + 1) k) as [E | E].
  - assert (D : (n + 1) / k = q + 1)
      by (symmetry; apply (Z.div_unique (n + 1) k (q + 1) 0); lia).
    assert (M : (n + 1) mod k = 0)
      by (symmetry; apply (Z.mod_unique (n + 1) k (q + 1) 0); lia).
    rewrite D, M. reflexivity.
  - assert (D : (n + 1) / k = q)
      by (symmetry; apply (Z.div_unique (n + 1) k q (r + 1)); lia).
    assert (M : (n + 1) mod k = r + 1)
      by (symmetry; apply (Z.mod_unique (n + 1) k q (r + 1)); lia).
    rewrite D, M. destruct (Z.eqb_spec (r + 1) 0); lia.
Qed.

Lemma count_multiples (k : Z) (n : nat) :
  0 < k ->
  Z.of_nat (List.length (filter (selected k) (map Z.of_nat (List.seq 1 n))))
  = Z.of_nat n / k.
Proof.
  intros Hk. induction n as [| n IH].
  - cbn [List.seq map filter List.length]. change (Z.of_nat 0) with 0.
    rewrite Z.div_0_l by lia. reflexivity.
  - rewrite seq_S, map_app, filter_app, length_app, Nat2Z.inj_add, IH.
    cbn [map filter Nat.add]. unfold selected at 1.
    replace (Z.of_nat (S n)) with (Z.of_nat n + 1) by lia.
    rewrite (next_multiple k (Z.of_nat n)) by lia.
    destruct ((Z.of_nat n + 1) mod k =? 0); cbn [List.length]; lia.
Qed.

Lemma kept_length {Image : Type} (k : Z) (frames : list Image) :
  forall positions : list Z,
    List.length frames = List.length positions ->
    List.length (kept k (combine frames positions))
    = List.length (filter (selected k) positions).
Proof.
  unfold kept.
  induction frames as [| x frames IH]; intros [| p positions] L;
    try discriminate; [reflexivity |].
  cbn [combine filter snd]. destruct (selected k p); cbn [map List.length];
    rewrite <- IH by (cbn in L; lia); reflexivity.
Qed.

Lemma counted_bounds {Image : Type} (frames : list Image) (total : Z) :
  Z.of_nat (List.length frames) <= total ->
  Forall (fun fp : Image * Z => 0 <= snd fp <= total) (counted frames).
Proof.
  intros Ht. apply Forall_forall. intros [x p] Hin.
  apply in_combine_r in Hin. apply in_map_iff in Hin.
  destruct Hin as [i [<- Hi]]. apply in_seq in Hi. cbn [snd]. lia.
Qed.

(** X15.  A capture that counts its frames gives one snapshot every
    [interval] frames.  When the position reported after the i-th read
    is i, [imwrite] never raises and the frame count reported is either
    not positive or at least the number of frames, the run returns, the
    frames written are those whose position is a multiple of the
    interval, in decode order, and there are [N div interval] of them
    for [N] frames decoded. *)
Theorem one_snapshot_every_interval
    {Image : Type} (imwrite : string -> Image -> result bool)
    (self : FrameExtractor) (video : Capture) (frames : list Image)
    (interval : Z) :
  (forall file frame, is_ok (imwrite file frame) = true) ->
  interval_of (cap_fps video) (fps self) = Ok interval ->
  cap_frames video = counted frames ->
  cap_frame_count video <= 0 \/
  (Z.of_nat (List.length frames) <= cap_frame_count video
   /\ cap_frame_count video < 2 ^ 1023) ->
  snd (run imwrite self video) = Ok tt /\
  written_frames (fst (run imwrite self video))
  = map fst (filter (fun fp => snd fp mod interval =? 0) (counted frames)) /\
  Z.of_nat (List.length (written_files (fst (run imwrite self video))))
  = Z.of_nat (List.length frames) / interval.
Proof.
  intros Hw Hi Hf Ht.
  pose proof (interval_at_least_one _ _ _ Hi) as Hk.
  assert (R : snd (run imwrite self video) = Ok tt).
  { apply run_returns; [exact Hw | now rewrite Hi |].
    destruct Ht as [Ht | [Ht Hb]]; [now left | right].
    split; [exact Hb |]. rewrite Hf. now apply counted_bounds. }
  destruct (run_frames imwrite self video interval Hi) as [later [E L]].
  rewrite (L R), app_nil_r in E.
  split; [exact R |]. split.
  - rewrite <- E, Hf. reflexivity.
  - rewrite written_same_length, <- E, Hf. unfold counted.
    rewrite kept_length by now rewrite length_map, length_seq.
    apply count_multiples. lia.
Qed.


(** A job that asks for fifteen frames a second. *)
Definition every_other : FrameExtractor :=
  mkExtractor "clip.mp4" "out" 15%float.

Lemma one_snapshot_every_interval_witness :
  snd (run write_ok every_other four_frames) = Ok tt /\
  written_frames (fst (run write_ok every_other four_frames))
  = map fst (filter (fun fp => snd fp mod 2 =? 0)
                    (counted [10; 11; 12; 13]%nat)) /\
  Z.of_nat (List.length
              (written_files (fst (run write_ok every_other four_frames))))
  = Z.of_nat (List.length [10; 11; 12; 13]%nat) / 2.
Proof.
  apply (one_snapshot_every_interval write_ok every_other four_frames
           [10; 11; 12; 13]%nat 2).
  - intros file frame. reflexivity.
  - vm_compute. reflexivity.
  - reflexivity.
  - right. split; [vm_compute; discriminate | reflexivity].
Defined.

End CountFacts.
